(** * Control-volume balance generation (IDAES 0-D and 1-D control volumes)

    A shallow embedding of [idaes/core/control_volume0d.py] and
    [idaes/core/control_volume1d.py].  A control volume is a Pyomo block: a
    namespace of named components (variables, derivative variables,
    parameters, named expressions, constraints, sub-blocks) that the
    balance-adding methods extend in place.  The block is modelled as a
    record whose component namespace is a finite map from attribute names to
    components; a method is a state-and-exception computation over that
    record, so that what a method leaves behind when it raises is part of
    the model. *)

From Stdlib Require Import QArith ZArith List.
From stdpp Require Import base strings gmap list.
Import ListNotations.

Set Default Proof Using "Type".
Open Scope string_scope.
Open Scope list_scope.

(** ** Python-level data *)

(** Exceptions raised by the control volumes (messages are not modelled). *)
Inductive exn : Type :=
| ConfigurationError
| BalanceTypeNotSupportedError
| PropertyNotSupportedError
| PropertyPackageError
| BurntToast
| AttributeError
| KeyError
| ValueError
| PyException            (* the built-in [Exception] *)
| SolverError.           (* a failure inside a package's initialization *)

Inductive FlowDirection : Type := forward | backward.

Inductive MaterialFlowBasis : Type := molar | mass | other.

Inductive MaterialBalanceType : Type :=
| mb_none | componentPhase | componentTotal | elementTotal | mb_total
| mb_useDefault.

Inductive DistributedVars : Type := variant | uniform.

(** Values a caller may pass for a keyword argument that the code validates
    itself. *)
Inductive pyval : Type :=
| PyNone
| PyBool (b : bool)
| PyInt (z : Z)
| PyFloat (q : Q)
| PyStr (s : string)
| PyFlow (d : FlowDirection).

(** Numeric value of a Python number; [bool] is a subclass of [int]. *)
Definition py_number (v : pyval) : option Q :=
  match v with
  | PyBool b => Some (if b then 1%Q else 0%Q)
  | PyInt z => Some (inject_Z z)
  | PyFloat q => Some q
  | _ => None
  end.

Definition FlowDirection_eqb (a b : FlowDirection) : bool :=
  match a, b with
  | forward, forward | backward, backward => true
  | _, _ => false
  end.

(** Python's [==]. *)
Definition py_eq (a b : pyval) : bool :=
  match py_number a, py_number b with
  | Some x, Some y => Qeq_bool x y
  | _, _ =>
      match a, b with
      | PyNone, PyNone => true
      | PyStr s, PyStr s' => String.eqb s s'
      | PyFlow d, PyFlow d' => FlowDirection_eqb d d'
      | _, _ => false
      end
  end.

(** Python's [v in l] for a list [l]. *)
Definition py_in (v : pyval) (l : list pyval) : bool :=
  existsb (py_eq v) l.

(** Truth value of a Python object ([if v:], [not v]). *)
Definition py_truthy (v : pyval) : bool :=
  match v with
  | PyNone => false
  | PyBool b => b
  | PyInt z => negb (Z.eqb z 0)
  | PyFloat q => negb (Qeq_bool q 0)
  | PyStr s => negb (String.eqb s "")
  | PyFlow _ => true
  end.

(** [v is False]. *)
Definition py_is_False (v : pyval) : bool :=
  match v with PyBool false => true | _ => false end.

(** ** Indices, expressions and components *)

(** One coordinate of a component index: a time or length point, or the
    name of a phase, component, element or reaction. *)
Inductive idx : Type :=
| INum (q : Q)
| IStr (s : string).

Definition key : Type := list idx.

(** Symbolic expressions, as the rules of the source build them. *)
Inductive expr : Type :=
| ENum (q : Q)
    (* numeric literal *)
| ERef (comp : string) (k : key)
    (* [b.comp[k]]: a member of a component of the control volume *)
| EProp (blk : string) (k : key) (member : string) (args : key)
    (* [b.blk[k].member(args)] or [b.blk[k].member[args]]: a term supplied
       by a state or reaction block through the package contract *)
| EAdd (a b : expr)
| ESub (a b : expr)
| EMul (a b : expr)
| EDiv (a b : expr)
| ENeg (a : expr).

(** [lhs == rhs]. *)
Record equation : Type := Equation { eq_lhs : expr; eq_rhs : expr }.

(** Python's built-in [sum]: starts from the integer 0 and adds from the
    left. *)
Definition py_sum (l : list expr) : expr := fold_left EAdd l (ENum 0).

Record StateBlockConfig : Type := {
  sb_has_phase_equilibrium : pyval;
  sb_defined_state : bool
}.

Record ReactionBlockConfig : Type := {
  rb_has_equilibrium : pyval
}.

Inductive component : Type :=
| CVar (index : list key) (initialize : Q)
| CDerivativeVar (sVar : string) (wrt : string) (index : list key)
| CParam (default : Q) (mutable : bool)
| CExpression (body : list (key * expr))
| CConstraint (body : list (key * equation))
| CContinuousSet (points : list Q)
| CStateBlock (blocks : list (key * StateBlockConfig))
| CReactionBlock (blocks : list (key * ReactionBlockConfig)).

(** ** Packages and the control volume *)

(** What the balance code reads off the property package.  An optional
    attribute that the package does not define is [None]. *)
Record PropertyPackage : Type := {
  phase_list : list string;
  component_list : list string;
  get_phase_component_set : list (string * string);
  phase_equilibrium_idx : option (list idx);
  phase_equilibrium_list : list (idx * (string * (string * string)));
  element_list : option (list string);
  has_state_block_class : bool;
  (* per state block, uniform over the collection *)
  get_material_flow_basis : MaterialFlowBasis;
  has_mw : bool
}.

Record ReactionPackage : Type := {
  rate_reaction_idx : option (list idx);
  equilibrium_reaction_idx : option (list idx);
  has_reaction_block_class : bool
}.

Record ControlVolume : Type := {
  (* self.config *)
  cfg_dynamic : bool;
  cfg_has_holdup : bool;
  cfg_property_package : PropertyPackage;
  cfg_reaction_package : option ReactionPackage;
  cfg_transformation_scheme : option string;     (* 1-D only *)
  cfg_area_definition : DistributedVars;         (* 1-D only *)
  (* self.flowsheet().config.time *)
  time : list Q;
  (* private Python attributes set by the 1-D add_geometry *)
  _flow_direction : option FlowDirection;
  _flow_direction_term : option Z;
  (* [_rxn_rate_conv(t, x, j, has_rate_reactions)], inherited from
     ControlVolumeBlockData in control_volume_base.py, whose source is not
     part of this development: taken as a parameter of the block *)
  base_rxn_rate_conv : Q → option Q → string → bool → exn + expr;
  (* components attached to the block *)
  components : gmap string component
}.

Definition with_components (f : gmap string component → gmap string component)
    (b : ControlVolume) : ControlVolume :=
  {| cfg_dynamic := cfg_dynamic b;
     cfg_has_holdup := cfg_has_holdup b;
     cfg_property_package := cfg_property_package b;
     cfg_reaction_package := cfg_reaction_package b;
     cfg_transformation_scheme := cfg_transformation_scheme b;
     cfg_area_definition := cfg_area_definition b;
     time := time b;
     _flow_direction := _flow_direction b;
     _flow_direction_term := _flow_direction_term b;
     base_rxn_rate_conv := base_rxn_rate_conv b;
     components := f (components b) |}.

(** ** Computations *)

(** A rule reads the block and returns a value or raises. *)
Definition R (A : Type) : Type := ControlVolume → exn + A.

(** A method may also extend the block; the block it leaves behind is part
    of the outcome whether it returns or raises. *)
Definition M (A : Type) : Type := ControlVolume → ControlVolume * (exn + A).

Class Monad (m : Type → Type) : Type := {
  ret : ∀ {A}, A → m A;
  bind : ∀ {A B}, m A → (A → m B) → m B
}.

Definition R_ret {A} (a : A) : R A := λ _, inr a.
Definition R_bind {A B} (m : R A) (f : A → R B) : R B :=
  λ b, match m b with
       | inl e => inl e
       | inr a => f a b
       end.

Definition M_ret {A} (a : A) : M A := λ b, (b, inr a).
Definition M_bind {A B} (m : M A) (f : A → M B) : M B :=
  λ b, match m b with
       | (b', inl e) => (b', inl e)
       | (b', inr a) => f a b'
       end.

#[export] Instance R_monad : Monad R := {| ret := @R_ret; bind := @R_bind |}.
#[export] Instance M_monad : Monad M := {| ret := @M_ret; bind := @M_bind |}.

Notation "x <- c1 ;; c2" := (bind c1 (λ x, c2))
  (at level 100, c1 at next level, right associativity).
Notation "c1 ;; c2" := (bind c1 (λ _, c2))
  (at level 100, right associativity).

Definition R_raise {A} (e : exn) : R A := λ _, inl e.
Definition M_raise {A} (e : exn) : M A := λ b, (b, inl e).

(** Run a rule inside a method. *)
Definition lift {A} (r : R A) : M A := λ b, (b, r b).

Definition ask : R ControlVolume := λ b, inr b.
Definition self : M ControlVolume := λ b, (b, inr b).

(** [if c: body]. *)
Definition when {m} `{Monad m} (c : bool) (body : m unit) : m unit :=
  if c then body else ret tt.

(** [for i in l: body]. *)
Fixpoint for_ {m} `{Monad m} {I} (l : list I) (body : I → m unit) : m unit :=
  match l with
  | [] => ret tt
  | i :: l' => body i ;; for_ l' body
  end.

(** [[f(i) for i in l]] for a body that may raise. *)
Fixpoint mapR {I A} (f : I → R A) (l : list I) : R (list A) :=
  match l with
  | [] => ret []
  | i :: l' => a <- f i ;; r <- mapR f l' ;; ret (a :: r)
  end.

(** ** The component namespace *)

Definition hasattr (name : string) : R bool :=
  λ b, inr (match components b !! name with Some _ => true | None => false end).

(** [self.name]: AttributeError when nothing of that name is attached. *)
Definition getattr (name : string) : R component :=
  λ b, match components b !! name with
       | Some c => inr c
       | None => inl AttributeError
       end.

(** [self.name = c].  Assigning to a name that already holds a component
    replaces it (Pyomo logs a warning and goes on). *)
Definition setattr (name : string) (c : component) : M unit :=
  λ b, (with_components <[name := c]> b, inr tt).

(** [b.comp[k]] inside a rule. *)
Definition ref (comp : string) (k : key) : R expr :=
  getattr comp ;; ret (ERef comp k).

(** [b.blk[k].member(args)] inside a rule. *)
Definition prop (blk : string) (k : key) (member : string) (args : key)
    : R expr :=
  getattr blk ;; ret (EProp blk k member args).

(** Evaluate a rule over an index set, dropping the indices at which it
    returns [Constraint.Skip] ([None]).  A rule that raises aborts the
    declaration; the half-built component Pyomo would leave attached is not
    modelled. *)
Definition build_indexed {I B} (index : list I) (to_key : I → key)
    (rule : I → R (option B)) : R (list (key * B)) :=
  rs <- mapR (λ i, r <- rule i ;; ret (to_key i, r)) index ;;
  ret (omap (λ kr, pair (fst kr) <$> snd kr) rs).

(** [@self.Constraint(index) def name(b, i): ...]. *)
Definition Constraint {I} (name : string) (index : list I) (to_key : I → key)
    (rule : I → R (option equation)) : M unit :=
  body <- lift (build_indexed index to_key rule) ;;
  setattr name (CConstraint body).

(** [@self.Expression(index) def name(b, i): ...]. *)
Definition Expression {I} (name : string) (index : list I) (to_key : I → key)
    (rule : I → R expr) : M unit :=
  body <- lift (build_indexed index to_key (λ i, e <- rule i ;; ret (Some e))) ;;
  setattr name (CExpression body).

(** Index tuples. *)
Definition k_t (t : Q) : key := [INum t].
Definition k_tp (i : Q * string) : key := [INum (fst i); IStr (snd i)].
Definition k_tpj (i : Q * (string * string)) : key :=
  [INum (fst i); IStr (fst (snd i)); IStr (snd (snd i))].
Definition k_tr (i : Q * idx) : key := [INum (fst i); snd i].
Definition k_tx (i : Q * Q) : key := [INum (fst i); INum (snd i)].
Definition k_txp (i : Q * Q * string) : key :=
  [INum (fst (fst i)); INum (snd (fst i)); IStr (snd i)].
Definition k_txpj (i : Q * Q * (string * string)) : key :=
  [INum (fst (fst i)); INum (snd (fst i)); IStr (fst (snd i));
   IStr (snd (snd i))].
Definition k_txr (i : Q * Q * idx) : key :=
  [INum (fst (fst i)); INum (snd (fst i)); snd i].

(** [(p, j) in pc_set]. *)
Definition pc_mem (p j : string) (pc_set : list (string * string)) : bool :=
  existsb (λ pj, String.eqb (fst pj) p && String.eqb (snd pj) j) pc_set.

(** Python dictionaries keyed by an index coordinate. *)
Definition idx_eqb (a b : idx) : bool :=
  match a, b with
  | INum x, INum y => Qeq_bool x y
  | IStr s, IStr s' => String.eqb s s'
  | _, _ => false
  end.

Fixpoint dict_get {V} (d : list (idx * V)) (k : idx) : option V :=
  match d with
  | [] => None
  | (k', v) :: d' => if idx_eqb k' k then Some v else dict_get d' k
  end.

(** [d[k] = v]: overwrite in place, or append. *)
Fixpoint dict_set {V} (d : list (idx * V)) (k : idx) (v : V)
    : list (idx * V) :=
  match d with
  | [] => [(k, v)]
  | (k', v') :: d' =>
      if idx_eqb k' k then (k', v) :: d' else (k', v') :: dict_set d' k v
  end.

(** [d[k]]: KeyError when [k] is missing. *)
Definition dict_lookup {V} (d : list (idx * V)) (k : idx) : R V :=
  match dict_get d k with
  | Some v => ret v
  | None => R_raise KeyError
  end.

(** [blocks[k]] of an indexed block. *)
Fixpoint key_eqb (a b : key) : bool :=
  match a, b with
  | [], [] => true
  | x :: a', y :: b' => idx_eqb x y && key_eqb a' b'
  | _, _ => false
  end.

Fixpoint block_get {V} (d : list (key * V)) (k : key) : option V :=
  match d with
  | [] => None
  | (k', v) :: d' => if key_eqb k' k then Some v else block_get d' k
  end.

(** An optional package attribute: AttributeError when it is not defined. *)
Definition attr_of {A} (o : option A) : R A :=
  match o with
  | Some a => ret a
  | None => R_raise AttributeError
  end.

(** [try: m / except AttributeError: raise e]. *)
Definition except_AttributeError {A} (m : R A) (e : exn) : R A :=
  λ b, match m b with
       | inl AttributeError => inl e
       | r => r
       end.

(** The index set of the variable a [DerivativeVar] differentiates. *)
Definition component_index (c : component) : list key :=
  match c with
  | CVar index _ => index
  | CDerivativeVar _ _ index => index
  | CExpression body => map fst body
  | CConstraint body => map fst body
  | _ => []
  end.

(** [DerivativeVar(self.sVar, wrt=...)]: reading [self.sVar] raises
    AttributeError when the variable has not been created. *)
Definition DerivativeVar (name sVar wrt : string) : M unit :=
  v <- lift (getattr sVar) ;;
  setattr name (CDerivativeVar sVar wrt (component_index v)).

(** [hasattr(package, attribute)] for an optional package attribute. *)
Definition package_has {P A} (pkg : option P) (attribute : P → option A)
    : bool :=
  match pkg with
  | Some pk => match attribute pk with Some _ => true | None => false end
  | None => false
  end.

(** [package.attribute]. *)
Definition package_attr {P A} (pkg : option P) (attribute : P → option A)
    : R A :=
  match pkg with
  | Some pk => attr_of (attribute pk)
  | None => R_raise AttributeError
  end.

Declare Scope expr_scope.
Delimit Scope expr_scope with E.
Bind Scope expr_scope with expr.
Notation "a + b" := (EAdd a b) : expr_scope.
Notation "a - b" := (ESub a b) : expr_scope.
Notation "a * b" := (EMul a b) : expr_scope.
Notation "a / b" := (EDiv a b) : expr_scope.
Notation "- a" := (ENeg a) : expr_scope.
Notation "a == b" := (Equation a b) (at level 70, no associativity) : expr_scope.

(** * The 0-D control volume (control_volume0d.py) *)

Module CV0D.

(** [add_geometry]. *)
Definition add_geometry : M unit :=
  b <- self ;;
  setattr "volume" (CVar (map k_t (time b)) 1).

(** [add_state_blocks(information_flow, has_phase_equilibrium)]. *)
Definition add_state_blocks (information_flow has_phase_equilibrium : pyval)
    : M unit :=
  b <- self ;;
  (match has_phase_equilibrium with
   | PyNone => M_raise ConfigurationError
   | v => if negb (py_in v [PyBool true; PyBool false])
          then M_raise ConfigurationError
          else ret tt
   end) ;;
  defined_state <-
    (if py_eq information_flow (PyFlow forward) then ret true
     else if py_eq information_flow (PyFlow backward) then ret false
     else M_raise ConfigurationError) ;;
  if has_state_block_class (cfg_property_package b) then
    setattr "properties_in"
      (CStateBlock (map (λ t, (k_t t,
         {| sb_has_phase_equilibrium := has_phase_equilibrium;
            sb_defined_state := defined_state |})) (time b))) ;;
    setattr "properties_out"
      (CStateBlock (map (λ t, (k_t t,
         {| sb_has_phase_equilibrium := has_phase_equilibrium;
            sb_defined_state := negb defined_state |})) (time b)))
  else M_raise PropertyPackageError.

(** [add_reaction_blocks(has_equilibrium)]. *)
Definition add_reaction_blocks (has_equilibrium : pyval) : M unit :=
  b <- self ;;
  (match has_equilibrium with
   | PyNone => M_raise ConfigurationError
   | v => if negb (py_in v [PyBool true; PyBool false])
          then M_raise ConfigurationError
          else ret tt
   end) ;;
  lift (getattr "properties_out") ;;
  match cfg_reaction_package b with
  | Some rp =>
      if has_reaction_block_class rp then
        setattr "reactions"
          (CReactionBlock (map (λ t, (k_t t,
             {| rb_has_equilibrium := has_equilibrium |})) (time b)))
      else M_raise PropertyPackageError
  | None => M_raise PropertyPackageError
  end.

(** [_add_phase_fractions]. *)
Definition _add_phase_fractions : M unit :=
  b <- self ;;
  let phases := phase_list (cfg_property_package b) in
  if (1 <? length phases)%nat then
    setattr "phase_fraction"
      (CVar (map k_tp (list_prod (time b) phases))
            (1 / inject_Z (Z.of_nat (length phases)))) ;;
    Constraint "sum_of_phase_fractions" (time b) k_t
      (λ t, fs <- mapR (λ p, ref "phase_fraction" [INum t; IStr p]) phases ;;
            ret (Some (ENum 1 == py_sum fs)%E))
  else
    Expression "phase_fraction" (list_prod (time b) phases) k_tp
      (λ _, ret (ENum 1)).

(** [_rxn_rate_conv(t, j, has_rate_reactions)]: the base-class method with
    [x=None]. *)
Definition _rxn_rate_conv (t : Q) (j : string) (has_rate_reactions : bool)
    : R expr :=
  λ b, base_rxn_rate_conv b t None j has_rate_reactions.

(** *** Material balances *)

(** [self.reactions[t].config.has_equilibrium]. *)
Definition reaction_config (t : key) : R ReactionBlockConfig :=
  c <- getattr "reactions" ;;
  match c with
  | CReactionBlock blocks =>
      match block_get blocks t with
      | Some cfg => ret cfg
      | None => R_raise KeyError
      end
  | _ => R_raise AttributeError
  end.

(** [self.<blk>[t].config]. *)
Definition state_config (blk : string) (t : key) : R StateBlockConfig :=
  c <- getattr blk ;;
  match c with
  | CStateBlock blocks =>
      match block_get blocks t with
      | Some cfg => ret cfg
      | None => R_raise KeyError
      end
  | _ => R_raise AttributeError
  end.

(** The term-substitution rules of [_add_material_balance_common]. *)
Definition accumulation_term (dynamic : bool) (t : Q) (p j : string)
    : R expr :=
  if dynamic then ref "material_accumulation" [INum t; IStr p; IStr j]
  else ret (ENum 0).

Definition kinetic_term (has_rate_reactions : bool) (t : Q) (p j : string)
    : R expr :=
  if has_rate_reactions
  then ref "rate_reaction_generation" [INum t; IStr p; IStr j]
  else ret (ENum 0).

Definition equilibrium_term (has_equilibrium_reactions : bool) (t : Q)
    (p j : string) : R expr :=
  if has_equilibrium_reactions
  then ref "equilibrium_reaction_generation" [INum t; IStr p; IStr j]
  else ret (ENum 0).

(** The loop that fills the dictionary [sd] of signed indicators. *)
Fixpoint fill_sd (pe_list : list (idx * (string * (string * string))))
    (p j : string) (rs : list idx) (sd : list (idx * Z))
    : R (list (idx * Z)) :=
  match rs with
  | [] => ret sd
  | r :: rs' =>
      entry <- dict_lookup pe_list r ;;
      let v :=
        if String.eqb (fst entry) j then
          if String.eqb (fst (snd entry)) p then 1%Z
          else if String.eqb (snd (snd entry)) p then (-1)%Z
          else 0%Z
        else 0%Z in
      fill_sd pe_list p j rs' (dict_set sd r v)
  end.

Definition phase_equilibrium_term (has_phase_equilibrium : bool)
    (balance_type : MaterialBalanceType) (t : Q) (p j : string) : R expr :=
  match has_phase_equilibrium, balance_type with
  | true, componentPhase =>
      b <- ask ;;
      let pp := cfg_property_package b in
      rs <- attr_of (phase_equilibrium_idx pp) ;;
      sd <- fill_sd (phase_equilibrium_list pp) p j rs [] ;;
      rs' <- attr_of (phase_equilibrium_idx pp) ;;
      terms <- mapR (λ r, g <- ref "phase_equilibrium_generation" [INum t; r] ;;
                          s <- dict_lookup sd r ;;
                          ret (g * ENum (inject_Z s))%E) rs' ;;
      ret (py_sum terms)
  | _, _ => ret (ENum 0)
  end.

Definition transfer_term (has_mass_transfer : bool) (t : Q) (p j : string)
    : R expr :=
  if has_mass_transfer then ref "mass_transfer_term" [INum t; IStr p; IStr j]
  else ret (ENum 0).

(** [user_term_mol] and [user_term_mass]; [k] is [(t, p, j)] for
    component-phase balances and [(t, j)] for component-total ones. *)
Definition user_term_mol (custom_molar_term : option (key → expr)) (t : Q)
    (k : key) (j : string) : R expr :=
  match custom_molar_term with
  | Some term =>
      b <- ask ;;
      getattr "properties_out" ;;
      match get_material_flow_basis (cfg_property_package b) with
      | molar => ret (term k)
      | mass =>
          if has_mw (cfg_property_package b)
          then ret (term k * EProp "properties_out" [INum t] "mw" [IStr j])%E
          else R_raise PropertyNotSupportedError
      | other => R_raise ConfigurationError
      end
  | None => ret (ENum 0)
  end.

Definition user_term_mass (custom_mass_term : option (key → expr)) (t : Q)
    (k : key) (j : string) : R expr :=
  match custom_mass_term with
  | Some term =>
      b <- ask ;;
      getattr "properties_out" ;;
      match get_material_flow_basis (cfg_property_package b) with
      | mass => ret (term k)
      | molar =>
          if has_mw (cfg_property_package b)
          then ret (term k / EProp "properties_out" [INum t] "mw" [IStr j])%E
          else R_raise PropertyNotSupportedError
      | other => R_raise ConfigurationError
      end
  | None => ret (ENum 0)
  end.

Definition k_tj (i : Q * string) : key := [INum (fst i); IStr (snd i)].
Definition k_tpe (i : Q * (string * string)) : key :=
  [INum (fst i); IStr (fst (snd i)); IStr (snd (snd i))].

(** Rule of [material_holdup_calculation].  A rule that falls off its end
    returns [None], which Pyomo refuses with a ValueError. *)
Definition material_holdup_calculation (i : Q * (string * string))
    : R (option equation) :=
  let '(t, (p, j)) := i in
  b <- ask ;;
  if pc_mem p j (get_phase_component_set (cfg_property_package b)) then
    h <- ref "material_holdup" [INum t; IStr p; IStr j] ;;
    v <- ref "volume" [INum t] ;;
    f <- ref "phase_fraction" [INum t; IStr p] ;;
    d <- prop "properties_out" [INum t] "get_material_density_terms"
              [IStr p; IStr j] ;;
    ret (Some (h == v * f * d)%E)
  else R_raise ValueError.

Definition rate_reaction_stoichiometry_constraint
    (i : Q * (string * string)) : R (option equation) :=
  let '(t, (p, j)) := i in
  b <- ask ;;
  if pc_mem p j (get_phase_component_set (cfg_property_package b)) then
    reaction_config [INum t] ;;
    g <- ref "rate_reaction_generation" [INum t; IStr p; IStr j] ;;
    rs <- package_attr (cfg_reaction_package b) rate_reaction_idx ;;
    terms <- mapR (λ r, x <- ref "rate_reaction_extent" [INum t; r] ;;
                        ret (EProp "reactions" [INum t]
                               "rate_reaction_stoichiometry"
                               [r; IStr p; IStr j] * x)%E) rs ;;
    ret (Some (g == py_sum terms)%E)
  else ret None.

Definition equilibrium_reaction_stoichiometry_constraint
    (i : Q * (string * string)) : R (option equation) :=
  let '(t, (p, j)) := i in
  b <- ask ;;
  if pc_mem p j (get_phase_component_set (cfg_property_package b)) then
    g <- ref "equilibrium_reaction_generation" [INum t; IStr p; IStr j] ;;
    rs <- package_attr (cfg_reaction_package b) equilibrium_reaction_idx ;;
    terms <- mapR (λ r, reaction_config [INum t] ;;
                        x <- ref "equilibrium_reaction_extent" [INum t; r] ;;
                        ret (EProp "reactions" [INum t]
                               "equilibrium_reaction_stoichiometry"
                               [r; IStr p; IStr j] * x)%E) rs ;;
    ret (Some (g == py_sum terms)%E)
  else ret None.

(** Rule of [material_balances] for component-phase balances. *)
Definition material_balances_phase
    (has_rate_reactions has_equilibrium_reactions has_phase_equilibrium
       has_mass_transfer : bool)
    (custom_molar_term custom_mass_term : option (key → expr))
    (i : Q * (string * string)) : R (option equation) :=
  let '(t, (p, j)) := i in
  b <- ask ;;
  if pc_mem p j (get_phase_component_set (cfg_property_package b)) then
    acc <- accumulation_term (cfg_dynamic b) t p j ;;
    fin <- prop "properties_in" [INum t] "get_material_flow_terms"
                [IStr p; IStr j] ;;
    fout <- prop "properties_out" [INum t] "get_material_flow_terms"
                 [IStr p; IStr j] ;;
    kin <- kinetic_term has_rate_reactions t p j ;;
    conv <- _rxn_rate_conv t j has_rate_reactions ;;
    equ <- equilibrium_term has_equilibrium_reactions t p j ;;
    peq <- phase_equilibrium_term has_phase_equilibrium componentPhase t p j ;;
    trn <- transfer_term has_mass_transfer t p j ;;
    umol <- user_term_mol custom_molar_term t [INum t; IStr p; IStr j] j ;;
    umass <- user_term_mass custom_mass_term t [INum t; IStr p; IStr j] j ;;
    ret (Some (acc == fin - fout + kin * conv + equ + peq + trn + umol
                      + umass)%E)
  else ret None.

(** Rule of [material_balances] for component-total balances. *)
Definition material_balances_total
    (has_rate_reactions has_equilibrium_reactions has_mass_transfer : bool)
    (custom_molar_term custom_mass_term : option (key → expr))
    (i : Q * string) : R (option equation) :=
  let '(t, j) := i in
  b <- ask ;;
  let pp := cfg_property_package b in
  let cplist :=
    List.filter (λ p, pc_mem p j (get_phase_component_set pp))
                (phase_list pp) in
  acc <- mapR (λ p, accumulation_term (cfg_dynamic b) t p j) cplist ;;
  fin <- mapR (λ p, prop "properties_in" [INum t] "get_material_flow_terms"
                         [IStr p; IStr j]) cplist ;;
  fout <- mapR (λ p, prop "properties_out" [INum t] "get_material_flow_terms"
                          [IStr p; IStr j]) cplist ;;
  kin <- mapR (λ p, kinetic_term has_rate_reactions t p j) cplist ;;
  conv <- _rxn_rate_conv t j has_rate_reactions ;;
  equ <- mapR (λ p, equilibrium_term has_equilibrium_reactions t p j) cplist ;;
  trn <- mapR (λ p, transfer_term has_mass_transfer t p j) cplist ;;
  umol <- user_term_mol custom_molar_term t [INum t; IStr j] j ;;
  umass <- user_term_mass custom_mass_term t [INum t; IStr j] j ;;
  ret (Some (py_sum acc ==
             py_sum fin - py_sum fout + py_sum kin * conv + py_sum equ
             + py_sum trn + umol + umass)%E).

Definition is_componentPhase (bt : MaterialBalanceType) : bool :=
  match bt with componentPhase => true | _ => false end.

(** [_add_material_balance_common]. *)
Definition _add_material_balance_common (balance_type : MaterialBalanceType)
    (has_rate_reactions has_equilibrium_reactions has_phase_equilibrium
       has_mass_transfer : bool)
    (custom_molar_term custom_mass_term : option (key → expr))
    : M component :=
  b <- self ;;
  let dynamic := cfg_dynamic b in
  let has_holdup := cfg_has_holdup b in
  let pp := cfg_property_package b in
  let rp := cfg_reaction_package b in
  (* Check that reaction block exists if required *)
  when (has_rate_reactions || has_equilibrium_reactions)
    (lift (except_AttributeError (getattr "reactions") ConfigurationError) ;;
     ret tt) ;;
  (* Check that reaction block is set to calculate equilibrium *)
  when has_equilibrium_reactions
    (lift (for_ (time b) (λ t,
       cfg <- reaction_config [INum t] ;;
       when (py_is_False (rb_has_equilibrium cfg))
            (R_raise ConfigurationError)))) ;;
  (* Check that state blocks are set to calculate equilibrium *)
  when has_phase_equilibrium
    (lift (for_ (time b) (λ t,
       co <- state_config "properties_out" [INum t] ;;
       when (negb (py_truthy (sb_has_phase_equilibrium co)))
            (R_raise ConfigurationError) ;;
       ci <- state_config "properties_in" [INum t] ;;
       when (negb (py_truthy (sb_has_phase_equilibrium ci)))
            (R_raise ConfigurationError)))) ;;
  (* Test for components that must exist prior to calling this method *)
  when has_holdup
    (v <- lift (hasattr "volume") ;;
     when (negb v) (M_raise ConfigurationError)) ;;
  let pc_set := get_phase_component_set pp in
  let t_pc := list_prod (time b) pc_set in
  (* Material holdup and accumulation *)
  when has_holdup (setattr "material_holdup" (CVar (map k_tpj t_pc) 1)) ;;
  when dynamic
    (DerivativeVar "material_accumulation" "material_holdup" "time") ;;
  (* Kinetic reaction generation *)
  when has_rate_reactions
    (when (negb (package_has rp rate_reaction_idx))
          (M_raise PropertyNotSupportedError) ;;
     setattr "rate_reaction_generation" (CVar (map k_tpj t_pc) 0)) ;;
  (* Equilibrium reaction generation *)
  when has_equilibrium_reactions
    (when (negb (package_has rp equilibrium_reaction_idx))
          (M_raise PropertyNotSupportedError) ;;
     setattr "equilibrium_reaction_generation" (CVar (map k_tpj t_pc) 0)) ;;
  (* Phase equilibrium generation *)
  when (has_phase_equilibrium && is_componentPhase balance_type)
    (when (negb (package_has (Some pp) phase_equilibrium_idx))
          (M_raise PropertyNotSupportedError) ;;
     rs <- lift (attr_of (phase_equilibrium_idx pp)) ;;
     setattr "phase_equilibrium_generation"
             (CVar (map k_tr (list_prod (time b) rs)) 0)) ;;
  (* Material transfer term *)
  when has_mass_transfer
    (setattr "mass_transfer_term" (CVar (map k_tpj t_pc) 0)) ;;
  (* Material Holdup *)
  when has_holdup
    (pf <- lift (hasattr "phase_fraction") ;;
     when (negb pf) _add_phase_fractions ;;
     Constraint "material_holdup_calculation" t_pc k_tpj
                material_holdup_calculation) ;;
  when has_rate_reactions
    (rs <- lift (package_attr rp rate_reaction_idx) ;;
     setattr "rate_reaction_extent"
             (CVar (map k_tr (list_prod (time b) rs)) 0) ;;
     Constraint "rate_reaction_stoichiometry_constraint" t_pc k_tpj
                rate_reaction_stoichiometry_constraint) ;;
  when has_equilibrium_reactions
    (rs <- lift (package_attr rp equilibrium_reaction_idx) ;;
     setattr "equilibrium_reaction_extent"
             (CVar (map k_tr (list_prod (time b) rs)) 0) ;;
     Constraint "equilibrium_reaction_stoichiometry_constraint" t_pc k_tpj
                equilibrium_reaction_stoichiometry_constraint) ;;
  (* Add custom terms and material balances *)
  match balance_type with
  | componentPhase =>
      Constraint "material_balances" t_pc k_tpj
        (material_balances_phase has_rate_reactions has_equilibrium_reactions
           has_phase_equilibrium has_mass_transfer custom_molar_term
           custom_mass_term)
  | componentTotal =>
      Constraint "material_balances"
        (list_prod (time b) (component_list pp)) k_tj
        (material_balances_total has_rate_reactions has_equilibrium_reactions
           has_mass_transfer custom_molar_term custom_mass_term)
  | _ => M_raise BurntToast
  end ;;
  lift (getattr "material_balances").

Definition add_phase_component_balances
    (has_rate_reactions has_equilibrium_reactions has_phase_equilibrium
       has_mass_transfer : bool)
    (custom_molar_term custom_mass_term : option (key → expr))
    : M component :=
  _add_material_balance_common componentPhase has_rate_reactions
    has_equilibrium_reactions has_phase_equilibrium has_mass_transfer
    custom_molar_term custom_mass_term ;;
  lift (getattr "material_balances").

Definition add_total_component_balances
    (has_rate_reactions has_equilibrium_reactions has_phase_equilibrium
       has_mass_transfer : bool)
    (custom_molar_term custom_mass_term : option (key → expr))
    : M component :=
  _add_material_balance_common componentTotal has_rate_reactions
    has_equilibrium_reactions has_phase_equilibrium has_mass_transfer
    custom_molar_term custom_mass_term ;;
  lift (getattr "material_balances").

(** *** Element balances *)

Definition element_accumulation_term (dynamic : bool) (t : Q) (e : string)
    : R expr :=
  if dynamic then ref "element_accumulation" [INum t; IStr e]
  else ret (ENum 0).

Definition element_transfer_term (has_mass_transfer : bool) (t : Q)
    (e : string) : R expr :=
  if has_mass_transfer then ref "elemental_mass_transfer_term" [INum t; IStr e]
  else ret (ENum 0).

Definition user_term (custom_term : option (key → expr)) (k : key) : expr :=
  match custom_term with
  | Some term => term k
  | None => ENum 0
  end.

Definition elemental_flow (blk : string) (i : Q * (string * string))
    : R expr :=
  let '(t, (p, e)) := i in
  b <- ask ;;
  terms <- mapR (λ j,
      f <- prop blk [INum t] "get_material_flow_terms" [IStr p; IStr j] ;;
      c <- prop "properties_out" [INum t] "element_comp" [IStr j; IStr e] ;;
      ret (f * c)%E) (component_list (cfg_property_package b)) ;;
  ret (py_sum terms).

Definition element_balances (has_mass_transfer : bool)
    (custom_elemental_term : option (key → expr)) (i : Q * string)
    : R (option equation) :=
  let '(t, e) := i in
  b <- ask ;;
  let phases := phase_list (cfg_property_package b) in
  acc <- element_accumulation_term (cfg_dynamic b) t e ;;
  fin <- mapR (λ p, ref "elemental_flow_in" [INum t; IStr p; IStr e]) phases ;;
  fout <- mapR (λ p, ref "elemental_flow_out" [INum t; IStr p; IStr e])
               phases ;;
  trn <- element_transfer_term has_mass_transfer t e ;;
  ret (Some (acc == py_sum fin - py_sum fout + trn
                    + user_term custom_elemental_term [INum t; IStr e])%E).

Definition elemental_holdup_calculation (i : Q * string)
    : R (option equation) :=
  let '(t, e) := i in
  b <- ask ;;
  let pp := cfg_property_package b in
  h <- ref "element_holdup" [INum t; IStr e] ;;
  v <- ref "volume" [INum t] ;;
  terms <- mapR (λ pj,
      f <- ref "phase_fraction" [INum t; IStr (fst pj)] ;;
      d <- prop "properties_out" [INum t] "get_material_density_terms"
                [IStr (fst pj); IStr (snd pj)] ;;
      c <- prop "properties_out" [INum t] "element_comp"
                [IStr (snd pj); IStr e] ;;
      ret (f * d * c)%E) (list_prod (phase_list pp) (component_list pp)) ;;
  ret (Some (h == v * py_sum terms)%E).

(** [add_total_element_balances]. *)
Definition add_total_element_balances
    (has_rate_reactions has_equilibrium_reactions has_phase_equilibrium
       has_mass_transfer : bool)
    (custom_elemental_term : option (key → expr)) : M component :=
  b <- self ;;
  let dynamic := cfg_dynamic b in
  let has_holdup := cfg_has_holdup b in
  let pp := cfg_property_package b in
  (* Check that property package supports element balances *)
  when (negb (package_has (Some pp) element_list))
       (M_raise PropertyNotSupportedError) ;;
  (* Check for valid arguments to write total elemental balance *)
  when has_rate_reactions (M_raise ConfigurationError) ;;
  when has_equilibrium_reactions (M_raise ConfigurationError) ;;
  when has_phase_equilibrium (M_raise ConfigurationError) ;;
  (* Test for components that must exist prior to calling this method *)
  when has_holdup
    (v <- lift (hasattr "volume") ;;
     when (negb v) (M_raise ConfigurationError)) ;;
  els <- lift (attr_of (element_list pp)) ;;
  let t_e := list_prod (time b) els in
  let t_p_e := list_prod (time b) (list_prod (phase_list pp) els) in
  (* Add Material Balance terms *)
  when has_holdup (setattr "element_holdup" (CVar (map k_tj t_e) 1)) ;;
  when dynamic
    (DerivativeVar "element_accumulation" "element_holdup" "time") ;;
  Expression "elemental_flow_in" t_p_e k_tpe (elemental_flow "properties_in") ;;
  Expression "elemental_flow_out" t_p_e k_tpe
             (elemental_flow "properties_out") ;;
  (* Create material balance terms as needed *)
  when has_mass_transfer
    (setattr "elemental_mass_transfer_term" (CVar (map k_tj t_e) 0)) ;;
  (* Element balances *)
  Constraint "element_balances" t_e k_tj
             (element_balances has_mass_transfer custom_elemental_term) ;;
  (* Elemental Holdup *)
  when has_holdup
    (pf <- lift (hasattr "phase_fraction") ;;
     when (negb pf) _add_phase_fractions ;;
     Constraint "elemental_holdup_calculation" t_e k_tj
                elemental_holdup_calculation) ;;
  lift (getattr "element_balances").

(** *** Balance types the 0-D control volume does not support *)

Definition add_total_material_balances (args : list pyval)
    (kwargs : list (string * pyval)) : M component :=
  M_raise BalanceTypeNotSupportedError.

Definition add_phase_enthalpy_balances (args : list pyval)
    (kwargs : list (string * pyval)) : M component :=
  M_raise BalanceTypeNotSupportedError.

Definition add_phase_energy_balances (args : list pyval)
    (kwargs : list (string * pyval)) : M component :=
  M_raise BalanceTypeNotSupportedError.

Definition add_total_energy_balances (args : list pyval)
    (kwargs : list (string * pyval)) : M component :=
  M_raise BalanceTypeNotSupportedError.

Definition add_phase_pressure_balances (args : list pyval)
    (kwargs : list (string * pyval)) : M component :=
  M_raise BalanceTypeNotSupportedError.

Definition add_phase_momentum_balances (args : list pyval)
    (kwargs : list (string * pyval)) : M component :=
  M_raise BalanceTypeNotSupportedError.

Definition add_total_momentum_balances (args : list pyval)
    (kwargs : list (string * pyval)) : M component :=
  M_raise BalanceTypeNotSupportedError.

(** *** Enthalpy balances *)

Definition energy_accumulation_term (dynamic : bool) (t : Q) (p : string)
    : R expr :=
  if dynamic then ref "energy_accumulation" [INum t; IStr p]
  else ret (ENum 0).

Definition heat_term (has_heat_transfer : bool) (t : Q) : R expr :=
  if has_heat_transfer then ref "heat" [INum t] else ret (ENum 0).

Definition work_term (has_work_transfer : bool) (t : Q) : R expr :=
  if has_work_transfer then ref "work" [INum t] else ret (ENum 0).

Definition rxn_heat_term (has_heat_of_reaction : bool) (t : Q) : R expr :=
  if has_heat_of_reaction then ref "heat_of_reaction" [INum t]
  else ret (ENum 0).

(** Rule of the [heat_of_reaction] expression. *)
Definition heat_of_reaction (t : Q) : R expr :=
  b <- ask ;;
  let rp := cfg_reaction_package b in
  has_rate <- hasattr "rate_reaction_extent" ;;
  rate_heat <-
    (if has_rate : bool then
       rs <- package_attr rp rate_reaction_idx ;;
       terms <- mapR (λ r, x <- ref "rate_reaction_extent" [INum t; r] ;;
                           h <- prop "reactions" [INum t] "dh_rxn" [r] ;;
                           ret (x * h)%E) rs ;;
       ret (- py_sum terms)%E
     else ret (ENum 0)) ;;
  has_equil <- hasattr "equilibrium_reaction_extent" ;;
  equil_heat <-
    (if has_equil : bool then
       rs <- package_attr rp equilibrium_reaction_idx ;;
       terms <- mapR (λ r, x <- ref "equilibrium_reaction_extent" [INum t; r] ;;
                           h <- prop "reactions" [INum t] "dh_rxn" [r] ;;
                           ret (x * h)%E) rs ;;
       ret (- py_sum terms)%E
     else ret (ENum 0)) ;;
  ret (rate_heat + equil_heat)%E.

(** Rule of [enthalpy_balances]. *)
Definition enthalpy_balances
    (has_heat_of_reaction has_heat_transfer has_work_transfer : bool)
    (custom_term : option (key → expr)) (t : Q) : R (option equation) :=
  b <- ask ;;
  let phases := phase_list (cfg_property_package b) in
  acc <- mapR (λ p, energy_accumulation_term (cfg_dynamic b) t p) phases ;;
  sfe0 <- ref "scaling_factor_energy" [] ;;
  hin <- mapR (λ p, prop "properties_in" [INum t] "get_enthalpy_flow_terms"
                         [IStr p]) phases ;;
  sfe1 <- ref "scaling_factor_energy" [] ;;
  hout <- mapR (λ p, prop "properties_out" [INum t] "get_enthalpy_flow_terms"
                          [IStr p]) phases ;;
  sfe2 <- ref "scaling_factor_energy" [] ;;
  heat <- heat_term has_heat_transfer t ;;
  sfe3 <- ref "scaling_factor_energy" [] ;;
  work <- work_term has_work_transfer t ;;
  sfe4 <- ref "scaling_factor_energy" [] ;;
  rxn <- rxn_heat_term has_heat_of_reaction t ;;
  sfe5 <- ref "scaling_factor_energy" [] ;;
  sfe6 <- ref "scaling_factor_energy" [] ;;
  ret (Some (py_sum acc * sfe0 ==
             py_sum hin * sfe1 - py_sum hout * sfe2 + heat * sfe3
             + work * sfe4 + rxn * sfe5
             + user_term custom_term [INum t] * sfe6)%E).

Definition enthalpy_holdup_calculation (i : Q * string)
    : R (option equation) :=
  let '(t, p) := i in
  h <- ref "energy_holdup" [INum t; IStr p] ;;
  v <- ref "volume" [INum t] ;;
  f <- ref "phase_fraction" [INum t; IStr p] ;;
  d <- prop "properties_out" [INum t] "get_energy_density_terms" [IStr p] ;;
  ret (Some (h == v * f * d)%E).

(** [add_total_enthalpy_balances]. *)
Definition add_total_enthalpy_balances
    (has_heat_of_reaction has_heat_transfer has_work_transfer : bool)
    (custom_term : option (key → expr)) : M component :=
  b <- self ;;
  let dynamic := cfg_dynamic b in
  let has_holdup := cfg_has_holdup b in
  let pp := cfg_property_package b in
  (* Test for components that must exist prior to calling this method *)
  when has_holdup
    (v <- lift (hasattr "volume") ;;
     when (negb v) (M_raise ConfigurationError)) ;;
  when has_heat_of_reaction
    (r <- lift (hasattr "rate_reaction_extent") ;;
     e <- lift (hasattr "equilibrium_reaction_extent") ;;
     when (negb (r || e)) (M_raise ConfigurationError)) ;;
  (* Create variables *)
  when has_holdup
    (setattr "energy_holdup"
             (CVar (map k_tp (list_prod (time b) (phase_list pp))) 1)) ;;
  when dynamic (DerivativeVar "energy_accumulation" "energy_holdup" "time") ;;
  (* Create scaling factor *)
  setattr "scaling_factor_energy" (CParam (1 # 1000000) true) ;;
  (* Create energy balance terms as needed *)
  when has_heat_transfer (setattr "heat" (CVar (map k_t (time b)) 0)) ;;
  when has_work_transfer (setattr "work" (CVar (map k_t (time b)) 0)) ;;
  when has_heat_of_reaction
    (Expression "heat_of_reaction" (time b) k_t heat_of_reaction) ;;
  (* Energy balance equation *)
  Constraint "enthalpy_balances" (time b) k_t
    (enthalpy_balances has_heat_of_reaction has_heat_transfer
       has_work_transfer custom_term) ;;
  (* Energy Holdup *)
  when has_holdup
    (pf <- lift (hasattr "phase_fraction") ;;
     when (negb pf) _add_phase_fractions ;;
     Constraint "enthalpy_holdup_calculation"
                (list_prod (time b) (phase_list pp)) k_tp
                enthalpy_holdup_calculation) ;;
  lift (getattr "enthalpy_balances").

(** *** Pressure balances *)

Definition deltaP_term (has_pressure_change : bool) (t : Q) : R expr :=
  if has_pressure_change then ref "deltaP" [INum t] else ret (ENum 0).

(** Rule of [pressure_balance]. *)
Definition pressure_balance (has_pressure_change : bool)
    (custom_term : option (key → expr)) (t : Q) : R (option equation) :=
  pin <- prop "properties_in" [INum t] "pressure" [] ;;
  sfp0 <- ref "scaling_factor_pressure" [] ;;
  pout <- prop "properties_out" [INum t] "pressure" [] ;;
  sfp1 <- ref "scaling_factor_pressure" [] ;;
  dp <- deltaP_term has_pressure_change t ;;
  sfp2 <- ref "scaling_factor_pressure" [] ;;
  sfp3 <- ref "scaling_factor_pressure" [] ;;
  ret (Some (ENum 0 ==
             pin * sfp0 - pout * sfp1 + dp * sfp2
             + user_term custom_term [INum t] * sfp3)%E).

(** [add_total_pressure_balances]. *)
Definition add_total_pressure_balances (has_pressure_change : bool)
    (custom_term : option (key → expr)) : M component :=
  b <- self ;;
  (* Add Momentum Balance Variables as necessary *)
  when has_pressure_change (setattr "deltaP" (CVar (map k_t (time b)) 0)) ;;
  (* Create scaling factor *)
  setattr "scaling_factor_pressure" (CParam (1 # 10000) true) ;;
  (* Momentum balance equation *)
  Constraint "pressure_balance" (time b) k_t
             (pressure_balance has_pressure_change custom_term) ;;
  lift (getattr "pressure_balance").

(** *** Model checks *)

(** A call into a package whose outcome is given. *)
Definition package_call {A} (outcome : exn + A) : R A := λ _, outcome.

(** [try: blk.<block>[k].model_check() / except AttributeError:
    _log.warning(...)].  [check] is the call, the lookup of the block
    included; the result is the warning logged, if any, as the name and the
    index of the block it is about. *)
Definition try_model_check (check : R unit) (about : string * key)
    : R (list (string * key)) :=
  λ b, match check b with
       | inr _ => inr []
       | inl AttributeError => inr [about]
       | inl e => inl e
       end.

(** [model_check].  The [model_check] method of a state or reaction block
    belongs to its package: [outcome name k] is what that of [blk.name[k]]
    does.  Returns the warnings logged. *)
Definition model_check (outcome : string → key → exn + unit)
    : R (list (string * key)) :=
  b <- ask ;;
  ws <- mapR (λ t,
      w_in <- try_model_check
                (state_config "properties_in" [INum t] ;;
                 package_call (outcome "properties_in" [INum t]))
                ("properties_in", [INum t]) ;;
      w_out <- try_model_check
                 (state_config "properties_out" [INum t] ;;
                  package_call (outcome "properties_out" [INum t]))
                 ("properties_out", [INum t]) ;;
      w_rxn <- try_model_check
                 (reaction_config [INum t] ;;
                  package_call (outcome "reactions" [INum t]))
                 ("reactions", [INum t]) ;;
      ret (w_in ++ w_out ++ w_rxn)) (time b) ;;
  ret (concat ws).

End CV0D.

(** * The 1-D control volume (control_volume1d.py) *)

Module CV1D.

(** [self.length_domain], and [first()] and [last()] of an ordered set
    (a Pyomo ContinuousSet holds at least its two bounds; on an empty set
    both raise). *)
Definition length_domain : R (list Q) :=
  c <- getattr "length_domain" ;;
  match c with
  | CContinuousSet points => ret points
  | _ => R_raise AttributeError
  end.

Definition first (s : list Q) : R Q :=
  match s with
  | [] => R_raise KeyError
  | x :: _ => ret x
  end.

Definition last (s : list Q) : R Q :=
  match s with
  | [] => R_raise KeyError
  | x :: s' => ret (List.last s' x)
  end.

Definition scheme_is (name : string) (scheme : option string) : bool :=
  match scheme with
  | Some s => String.eqb s name
  | None => false
  end.

(** [self._flow_direction = d] and the [_flow_direction_term] that follows
    from it. *)
Definition set_flow_direction (d : FlowDirection) : M unit :=
  λ b, ({| cfg_dynamic := cfg_dynamic b;
           cfg_has_holdup := cfg_has_holdup b;
           cfg_property_package := cfg_property_package b;
           cfg_reaction_package := cfg_reaction_package b;
           cfg_transformation_scheme := cfg_transformation_scheme b;
           cfg_area_definition := cfg_area_definition b;
           time := time b;
           _flow_direction := Some d;
           _flow_direction_term :=
             Some (match d with forward => (-1)%Z | backward => 1%Z end);
           base_rxn_rate_conv := base_rxn_rate_conv b;
           components := components b |}, inr tt).

(** [add_geometry(length_domain, length_domain_set, flow_direction)].  A
    new ContinuousSet is bounded by 0 and 1, ordered, and holds its
    bounds; the points given are taken to be such a set. *)
Definition add_geometry (length_domain_arg : option component)
    (length_domain_set : list Q) (flow_direction : pyval) : M unit :=
  b <- self ;;
  match length_domain_arg with
  | Some (CContinuousSet points) =>
      setattr "length_domain" (CContinuousSet points)
  | Some _ => M_raise ConfigurationError
  | None => setattr "length_domain" (CContinuousSet length_domain_set)
  end ;;
  d <- match flow_direction with
       | PyFlow d => ret d
       | _ => M_raise ConfigurationError
       end ;;
  set_flow_direction d ;;
  ld <- lift length_domain ;;
  match cfg_area_definition b with
  | variant =>
      setattr "area" (CVar (map k_tx (list_prod (time b) ld)) 1)
  | uniform => setattr "area" (CVar [[]] 1)
  end ;;
  setattr "length" (CVar [[]] 1).

(** [add_state_blocks(information_flow, has_phase_equilibrium)]. *)
Definition add_state_blocks (information_flow has_phase_equilibrium : pyval)
    : M unit :=
  b <- self ;;
  (match has_phase_equilibrium with
   | PyNone => M_raise ConfigurationError
   | v => if negb (py_in v [PyBool true; PyBool false])
          then M_raise ConfigurationError
          else ret tt
   end) ;;
  when (negb (has_state_block_class (cfg_property_package b)))
       (M_raise AttributeError) ;;
  ld <- lift length_domain ;;
  blocks <- lift (mapR (λ i : Q * Q,
      (* idx_map *)
      c1 <- (if py_eq information_flow (PyFlow forward)
             then f <- first ld ;; ret (Qeq_bool (snd i) f)
             else ret false) ;;
      c2 <- (if c1 : bool then ret true
             else if py_eq information_flow (PyFlow backward)
             then l <- last ld ;; ret (Qeq_bool (snd i) l)
             else ret false) ;;
      ret (k_tx i,
           {| sb_has_phase_equilibrium := has_phase_equilibrium;
              sb_defined_state := c2 |})) (list_prod (time b) ld)) ;;
  setattr "properties" (CStateBlock blocks).

(** [add_reaction_blocks(has_equilibrium)]. *)
Definition add_reaction_blocks (has_equilibrium : pyval) : M unit :=
  b <- self ;;
  (match has_equilibrium with
   | PyNone => M_raise ConfigurationError
   | v => if negb (py_in v [PyBool true; PyBool false])
          then M_raise ConfigurationError
          else ret tt
   end) ;;
  lift (getattr "properties") ;;
  match cfg_reaction_package b with
  | Some rp =>
      if has_reaction_block_class rp then
        ld <- lift length_domain ;;
        setattr "reactions"
          (CReactionBlock (map (λ i, (k_tx i,
             {| rb_has_equilibrium := has_equilibrium |}))
             (list_prod (time b) ld)))
      else M_raise AttributeError
  | None => M_raise AttributeError
  end.

(** [_add_phase_fractions]. *)
Definition _add_phase_fractions : M unit :=
  b <- self ;;
  let phases := phase_list (cfg_property_package b) in
  ld <- lift length_domain ;;
  if (1 <? length phases)%nat then
    setattr "phase_fraction"
      (CVar (map k_txp (list_prod (list_prod (time b) ld) phases))
            (1 / inject_Z (Z.of_nat (length phases)))) ;;
    Constraint "sum_of_phase_fractions" (list_prod (time b) ld) k_tx
      (λ i, fs <- mapR (λ p, ref "phase_fraction"
                                 [INum (fst i); INum (snd i); IStr p])
                       phases ;;
            ret (Some (ENum 1 == py_sum fs)%E))
  else
    Expression "phase_fraction" (list_prod (list_prod (time b) ld) phases)
      k_txp (λ _, ret (ENum 1)).

(** [_area_func(t, x)]. *)
Definition _area_func (t x : Q) : R expr :=
  b <- ask ;;
  match cfg_area_definition b with
  | uniform => ref "area" []
  | variant => ref "area" [INum t; INum x]
  end.

(** [b._flow_direction_term]. *)
Definition flow_direction_term : R expr :=
  b <- ask ;;
  z <- attr_of (_flow_direction_term b) ;;
  ret (ENum (inject_Z z)).

(** The test that opens every balance rule:
    [(scheme != "FORWARD" and x == first()) or
     (scheme == "FORWARD" and x == last())]. *)
Definition at_skipped_boundary (x : Q) : R bool :=
  b <- ask ;;
  let scheme := cfg_transformation_scheme b in
  c1 <- (if negb (scheme_is "FORWARD" scheme)
         then ld <- length_domain ;; f <- first ld ;; ret (Qeq_bool x f)
         else ret false) ;;
  if c1 : bool then ret true
  else if scheme_is "FORWARD" scheme
  then ld <- length_domain ;; l <- last ld ;; ret (Qeq_bool x l)
  else ret false.

Definition reaction_config (k : key) : R ReactionBlockConfig :=
  c <- getattr "reactions" ;;
  match c with
  | CReactionBlock blocks =>
      match block_get blocks k with
      | Some cfg => ret cfg
      | None => R_raise KeyError
      end
  | _ => R_raise AttributeError
  end.

Definition state_config (k : key) : R StateBlockConfig :=
  c <- getattr "properties" ;;
  match c with
  | CStateBlock blocks =>
      match block_get blocks k with
      | Some cfg => ret cfg
      | None => R_raise KeyError
      end
  | _ => R_raise AttributeError
  end.

Definition _rxn_rate_conv (t x : Q) (j : string) (has_rate_reactions : bool)
    : R expr :=
  λ b, base_rxn_rate_conv b t (Some x) j has_rate_reactions.

(** *** Material balances *)

Definition accumulation_term (dynamic : bool) (t x : Q) (p j : string)
    : R expr :=
  if dynamic
  then ref "material_accumulation" [INum t; INum x; IStr p; IStr j]
  else ret (ENum 0).

Definition kinetic_term (has_rate_reactions : bool) (t x : Q) (p j : string)
    : R expr :=
  if has_rate_reactions
  then ref "rate_reaction_generation" [INum t; INum x; IStr p; IStr j]
  else ret (ENum 0).

Definition equilibrium_term (has_equilibrium_reactions : bool) (t x : Q)
    (p j : string) : R expr :=
  if has_equilibrium_reactions
  then ref "equilibrium_reaction_generation" [INum t; INum x; IStr p; IStr j]
  else ret (ENum 0).

Definition phase_equilibrium_term (has_phase_equilibrium : bool)
    (balance_type : MaterialBalanceType) (t x : Q) (p j : string) : R expr :=
  match has_phase_equilibrium, balance_type with
  | true, componentPhase =>
      b <- ask ;;
      let pp := cfg_property_package b in
      rs <- attr_of (phase_equilibrium_idx pp) ;;
      sd <- CV0D.fill_sd (phase_equilibrium_list pp) p j rs [] ;;
      rs' <- attr_of (phase_equilibrium_idx pp) ;;
      terms <- mapR (λ r,
          g <- ref "phase_equilibrium_generation" [INum t; INum x; r] ;;
          s <- dict_lookup sd r ;;
          ret (g * ENum (inject_Z s))%E) rs' ;;
      ret (py_sum terms)
  | _, _ => ret (ENum 0)
  end.

Definition transfer_term (has_mass_transfer : bool) (t x : Q) (p j : string)
    : R expr :=
  if has_mass_transfer
  then ref "mass_transfer_term" [INum t; INum x; IStr p; IStr j]
  else ret (ENum 0).

Definition user_term_mol (custom_molar_term : option (key → expr)) (t x : Q)
    (k : key) (j : string) : R expr :=
  match custom_molar_term with
  | Some term =>
      b <- ask ;;
      getattr "properties" ;;
      match get_material_flow_basis (cfg_property_package b) with
      | molar => ret (term k)
      | mass =>
          if has_mw (cfg_property_package b)
          then ret (term k
                    * EProp "properties" [INum t; INum x] "mw" [IStr j])%E
          else R_raise PropertyNotSupportedError
      | other => R_raise ConfigurationError
      end
  | None => ret (ENum 0)
  end.

Definition user_term_mass (custom_mass_term : option (key → expr)) (t x : Q)
    (k : key) (j : string) : R expr :=
  match custom_mass_term with
  | Some term =>
      b <- ask ;;
      getattr "properties" ;;
      match get_material_flow_basis (cfg_property_package b) with
      | mass => ret (term k)
      | molar =>
          if has_mw (cfg_property_package b)
          then ret (term k
                    / EProp "properties" [INum t; INum x] "mw" [IStr j])%E
          else R_raise PropertyNotSupportedError
      | other => R_raise ConfigurationError
      end
  | None => ret (ENum 0)
  end.

Definition k_txj (i : Q * Q * string) : key :=
  [INum (fst (fst i)); INum (snd (fst i)); IStr (snd i)].

Definition material_flow_linking_constraints (i : Q * Q * (string * string))
    : R (option equation) :=
  let '(t, x, (p, j)) := i in
  f <- ref "_flow_terms" [INum t; INum x; IStr p; IStr j] ;;
  g <- prop "properties" [INum t; INum x] "get_material_flow_terms"
            [IStr p; IStr j] ;;
  ret (Some (f == g)%E).

Definition material_holdup_calculation (i : Q * Q * (string * string))
    : R (option equation) :=
  let '(t, x, (p, j)) := i in
  b <- ask ;;
  if pc_mem p j (get_phase_component_set (cfg_property_package b)) then
    h <- ref "material_holdup" [INum t; INum x; IStr p; IStr j] ;;
    a <- _area_func t x ;;
    f <- ref "phase_fraction" [INum t; INum x; IStr p] ;;
    d <- prop "properties" [INum t; INum x] "get_material_density_terms"
              [IStr p; IStr j] ;;
    ret (Some (h == a * f * d)%E)
  else R_raise ValueError.

Definition rate_reaction_stoichiometry_constraint
    (i : Q * Q * (string * string)) : R (option equation) :=
  let '(t, x, (p, j)) := i in
  b <- ask ;;
  if pc_mem p j (get_phase_component_set (cfg_property_package b)) then
    reaction_config [INum t; INum x] ;;
    g <- ref "rate_reaction_generation" [INum t; INum x; IStr p; IStr j] ;;
    rs <- package_attr (cfg_reaction_package b) rate_reaction_idx ;;
    terms <- mapR (λ r,
        e <- ref "rate_reaction_extent" [INum t; INum x; r] ;;
        ret (EProp "reactions" [INum t; INum x] "rate_reaction_stoichiometry"
               [r; IStr p; IStr j] * e)%E) rs ;;
    ret (Some (g == py_sum terms)%E)
  else ret None.

Definition equilibrium_reaction_stoichiometry_constraint
    (i : Q * Q * (string * string)) : R (option equation) :=
  let '(t, x, (p, j)) := i in
  b <- ask ;;
  if pc_mem p j (get_phase_component_set (cfg_property_package b)) then
    g <- ref "equilibrium_reaction_generation"
             [INum t; INum x; IStr p; IStr j] ;;
    rs <- package_attr (cfg_reaction_package b) equilibrium_reaction_idx ;;
    terms <- mapR (λ r,
        reaction_config [INum t; INum x] ;;
        e <- ref "equilibrium_reaction_extent" [INum t; INum x; r] ;;
        ret (EProp "reactions" [INum t; INum x]
               "equilibrium_reaction_stoichiometry" [r; IStr p; IStr j]
             * e)%E) rs ;;
    ret (Some (g == py_sum terms)%E)
  else ret None.

(** Rule of [material_balances] for component-phase balances. *)
Definition material_balances_phase
    (has_rate_reactions has_equilibrium_reactions has_phase_equilibrium
       has_mass_transfer : bool)
    (custom_molar_term custom_mass_term : option (key → expr))
    (i : Q * Q * (string * string)) : R (option equation) :=
  let '(t, x, (p, j)) := i in
  b <- ask ;;
  skip <- at_skipped_boundary x ;;
  if skip : bool then ret None
  else if pc_mem p j (get_phase_component_set (cfg_property_package b)) then
    len <- ref "length" [] ;;
    acc <- accumulation_term (cfg_dynamic b) t x p j ;;
    fdt <- flow_direction_term ;;
    dx <- ref "material_flow_dx" [INum t; INum x; IStr p; IStr j] ;;
    kin <- kinetic_term has_rate_reactions t x p j ;;
    conv <- _rxn_rate_conv t x j has_rate_reactions ;;
    equ <- equilibrium_term has_equilibrium_reactions t x p j ;;
    peq <- phase_equilibrium_term has_phase_equilibrium componentPhase
                                  t x p j ;;
    trn <- transfer_term has_mass_transfer t x p j ;;
    umol <- user_term_mol custom_molar_term t x
                          [INum t; INum x; IStr p; IStr j] j ;;
    umass <- user_term_mass custom_mass_term t x
                            [INum t; INum x; IStr p; IStr j] j ;;
    ret (Some (len * acc ==
               fdt * dx + len * kin * conv + len * equ + len * peq
               + len * trn + len * umol + len * umass)%E)
  else ret None.

(** Rule of [material_balances] for component-total balances. *)
Definition material_balances_total
    (has_rate_reactions has_equilibrium_reactions has_mass_transfer : bool)
    (custom_molar_term custom_mass_term : option (key → expr))
    (i : Q * Q * string) : R (option equation) :=
  let '(t, x, j) := i in
  b <- ask ;;
  skip <- at_skipped_boundary x ;;
  if skip : bool then ret None
  else
    let pp := cfg_property_package b in
    let cplist :=
      List.filter (λ p, pc_mem p j (get_phase_component_set pp))
                  (phase_list pp) in
    len <- ref "length" [] ;;
    acc <- mapR (λ p, accumulation_term (cfg_dynamic b) t x p j) cplist ;;
    fdt <- flow_direction_term ;;
    dx <- mapR (λ p, ref "material_flow_dx" [INum t; INum x; IStr p; IStr j])
               cplist ;;
    kin <- mapR (λ p, kinetic_term has_rate_reactions t x p j) cplist ;;
    conv <- _rxn_rate_conv t x j has_rate_reactions ;;
    equ <- mapR (λ p, equilibrium_term has_equilibrium_reactions t x p j)
                cplist ;;
    trn <- mapR (λ p, transfer_term has_mass_transfer t x p j) cplist ;;
    umol <- user_term_mol custom_molar_term t x [INum t; INum x; IStr j] j ;;
    umass <- user_term_mass custom_mass_term t x [INum t; INum x; IStr j] j ;;
    ret (Some (len * py_sum acc ==
               fdt * py_sum dx + len * py_sum kin * conv + len * py_sum equ
               + len * py_sum trn + len * umol + len * umass)%E).

(** [_add_material_balance_common]. *)
Definition _add_material_balance_common (balance_type : MaterialBalanceType)
    (has_rate_reactions has_equilibrium_reactions has_phase_equilibrium
       has_mass_transfer : bool)
    (custom_molar_term custom_mass_term : option (key → expr)) : M unit :=
  b <- self ;;
  let dynamic := cfg_dynamic b in
  let has_holdup := cfg_has_holdup b in
  let pp := cfg_property_package b in
  let rp := cfg_reaction_package b in
  (* Check that reaction block exists if required *)
  when (has_rate_reactions || has_equilibrium_reactions)
    (lift (except_AttributeError (getattr "reactions") ConfigurationError) ;;
     ret tt) ;;
  (* Check that reaction block is set to calculate equilibrium *)
  when has_equilibrium_reactions
    (lift (for_ (time b) (λ t,
       ld <- length_domain ;;
       for_ ld (λ x,
         cfg <- reaction_config [INum t; INum x] ;;
         when (py_is_False (rb_has_equilibrium cfg))
              (R_raise ConfigurationError))))) ;;
  (* Check that state blocks are set to calculate equilibrium *)
  when has_phase_equilibrium
    (lift (for_ (time b) (λ t,
       ld <- length_domain ;;
       for_ ld (λ x,
         cfg <- state_config [INum t; INum x] ;;
         when (negb (py_truthy (sb_has_phase_equilibrium cfg)))
              (R_raise ConfigurationError))))) ;;
  let pc_set := get_phase_component_set pp in
  (* Material holdup and accumulation *)
  when has_holdup
    (ld <- lift length_domain ;;
     setattr "material_holdup"
       (CVar (map k_txpj (list_prod (list_prod (time b) ld) pc_set)) 1)) ;;
  when dynamic
    (DerivativeVar "material_accumulation" "material_holdup" "time") ;;
  (* Flow terms and derivatives *)
  ld <- lift length_domain ;;
  let tx := list_prod (time b) ld in
  let tx_pc := list_prod tx pc_set in
  setattr "_flow_terms" (CVar (map k_txpj tx_pc) 1) ;;
  Constraint "material_flow_linking_constraints" tx_pc k_txpj
             material_flow_linking_constraints ;;
  DerivativeVar "material_flow_dx" "_flow_terms" "length_domain" ;;
  (* Kinetic reaction generation *)
  when has_rate_reactions
    (when (negb (package_has rp rate_reaction_idx))
          (M_raise PropertyNotSupportedError) ;;
     setattr "rate_reaction_generation" (CVar (map k_txpj tx_pc) 0)) ;;
  (* Equilibrium reaction generation *)
  when has_equilibrium_reactions
    (when (negb (package_has rp equilibrium_reaction_idx))
          (M_raise PropertyNotSupportedError) ;;
     setattr "equilibrium_reaction_generation" (CVar (map k_txpj tx_pc) 0)) ;;
  (* Phase equilibrium generation *)
  when (has_phase_equilibrium && CV0D.is_componentPhase balance_type)
    (when (negb (package_has (Some pp) phase_equilibrium_idx))
          (M_raise PropertyNotSupportedError) ;;
     rs <- lift (attr_of (phase_equilibrium_idx pp)) ;;
     setattr "phase_equilibrium_generation"
             (CVar (map k_txr (list_prod tx rs)) 0)) ;;
  (* Material transfer term *)
  when has_mass_transfer
    (setattr "mass_transfer_term" (CVar (map k_txpj tx_pc) 0)) ;;
  (* Material Holdup *)
  when has_holdup
    (pf <- lift (hasattr "phase_fraction") ;;
     when (negb pf) _add_phase_fractions ;;
     Constraint "material_holdup_calculation" tx_pc k_txpj
                material_holdup_calculation) ;;
  when has_rate_reactions
    (rs <- lift (package_attr rp rate_reaction_idx) ;;
     setattr "rate_reaction_extent" (CVar (map k_txr (list_prod tx rs)) 0) ;;
     Constraint "rate_reaction_stoichiometry_constraint" tx_pc k_txpj
                rate_reaction_stoichiometry_constraint) ;;
  when has_equilibrium_reactions
    (rs <- lift (package_attr rp equilibrium_reaction_idx) ;;
     setattr "equilibrium_reaction_extent"
             (CVar (map k_txr (list_prod tx rs)) 0) ;;
     Constraint "equilibrium_reaction_stoichiometry_constraint" tx_pc k_txpj
                equilibrium_reaction_stoichiometry_constraint) ;;
  (* Add custom terms and material balances *)
  match balance_type with
  | componentPhase =>
      Constraint "material_balances" tx_pc k_txpj
        (material_balances_phase has_rate_reactions has_equilibrium_reactions
           has_phase_equilibrium has_mass_transfer custom_molar_term
           custom_mass_term)
  | componentTotal =>
      Constraint "material_balances" (list_prod tx (component_list pp)) k_txj
        (material_balances_total has_rate_reactions has_equilibrium_reactions
           has_mass_transfer custom_molar_term custom_mass_term)
  | _ => ret tt
  end.

Definition add_phase_component_balances
    (has_rate_reactions has_equilibrium_reactions has_phase_equilibrium
       has_mass_transfer : bool)
    (custom_molar_term custom_mass_term : option (key → expr))
    : M component :=
  _add_material_balance_common componentPhase has_rate_reactions
    has_equilibrium_reactions has_phase_equilibrium has_mass_transfer
    custom_molar_term custom_mass_term ;;
  lift (getattr "material_balances").

Definition add_total_component_balances
    (has_rate_reactions has_equilibrium_reactions has_phase_equilibrium
       has_mass_transfer : bool)
    (custom_molar_term custom_mass_term : option (key → expr))
    : M component :=
  _add_material_balance_common componentTotal has_rate_reactions
    has_equilibrium_reactions has_phase_equilibrium has_mass_transfer
    custom_molar_term custom_mass_term ;;
  lift (getattr "material_balances").

(** *** Element balances *)

Definition k_txe (i : Q * Q * string) : key :=
  [INum (fst (fst i)); INum (snd (fst i)); IStr (snd i)].

Definition element_accumulation_term (dynamic : bool) (t x : Q) (e : string)
    : R expr :=
  if dynamic then ref "element_accumulation" [INum t; INum x; IStr e]
  else ret (ENum 0).

Definition element_transfer_term (has_mass_transfer : bool) (t x : Q)
    (e : string) : R expr :=
  if has_mass_transfer
  then ref "elemental_mass_transfer_term" [INum t; INum x; IStr e]
  else ret (ENum 0).

Definition elemental_flow_constraint (i : Q * Q * string)
    : R (option equation) :=
  let '(t, x, e) := i in
  b <- ask ;;
  let pp := cfg_property_package b in
  f <- ref "elemental_flow_term" [INum t; INum x; IStr e] ;;
  per_phase <- mapR (λ p,
      terms <- mapR (λ j,
          g <- prop "properties" [INum t; INum x] "get_material_flow_terms"
                    [IStr p; IStr j] ;;
          c <- prop "properties" [INum t; INum x] "element_comp"
                    [IStr j; IStr e] ;;
          ret (g * c)%E) (component_list pp) ;;
      ret (py_sum terms)) (phase_list pp) ;;
  ret (Some (f == py_sum per_phase)%E).

(** Rule of [element_balances]. *)
Definition element_balances (has_mass_transfer : bool)
    (custom_elemental_term : option (key → expr)) (i : Q * Q * string)
    : R (option equation) :=
  let '(t, x, e) := i in
  b <- ask ;;
  skip <- at_skipped_boundary x ;;
  if skip : bool then ret None
  else
    len <- ref "length" [] ;;
    acc <- element_accumulation_term (cfg_dynamic b) t x e ;;
    fdt <- flow_direction_term ;;
    dx <- ref "elemental_flow_dx" [INum t; INum x; IStr e] ;;
    trn <- element_transfer_term has_mass_transfer t x e ;;
    ret (Some (len * acc ==
               fdt * dx + len * trn
               + len * CV0D.user_term custom_elemental_term
                         [INum t; INum x; IStr e])%E).

Definition elemental_holdup_calculation (i : Q * Q * string)
    : R (option equation) :=
  let '(t, x, e) := i in
  b <- ask ;;
  let pp := cfg_property_package b in
  h <- ref "element_holdup" [INum t; INum x; IStr e] ;;
  a <- _area_func t x ;;
  terms <- mapR (λ pj,
      f <- ref "phase_fraction" [INum t; INum x; IStr (fst pj)] ;;
      d <- prop "properties" [INum t; INum x] "get_material_density_terms"
                [IStr (fst pj); IStr (snd pj)] ;;
      c <- prop "properties" [INum t; INum x] "element_comp"
                [IStr (snd pj); IStr e] ;;
      ret (f * d * c)%E) (list_prod (phase_list pp) (component_list pp)) ;;
  ret (Some (h == a * py_sum terms)%E).

(** [add_total_element_balances]. *)
Definition add_total_element_balances
    (has_rate_reactions has_equilibrium_reactions has_phase_equilibrium
       has_mass_transfer : bool)
    (custom_elemental_term : option (key → expr)) : M component :=
  b <- self ;;
  let dynamic := cfg_dynamic b in
  let has_holdup := cfg_has_holdup b in
  let pp := cfg_property_package b in
  (* Check that property package supports element balances *)
  when (negb (package_has (Some pp) element_list))
       (M_raise PropertyNotSupportedError) ;;
  (* Check validity of arguments to write the total elemental balance *)
  when has_rate_reactions (M_raise ConfigurationError) ;;
  when has_equilibrium_reactions (M_raise ConfigurationError) ;;
  when has_phase_equilibrium (M_raise ConfigurationError) ;;
  (* Add Material Balance terms *)
  when has_holdup
    (ld <- lift length_domain ;;
     els <- lift (attr_of (element_list pp)) ;;
     setattr "element_holdup"
             (CVar (map k_txe (list_prod (list_prod (time b) ld) els)) 1)) ;;
  when dynamic
    (DerivativeVar "element_accumulation" "element_holdup" "time") ;;
  ld <- lift length_domain ;;
  els <- lift (attr_of (element_list pp)) ;;
  let tx_e := list_prod (list_prod (time b) ld) els in
  setattr "elemental_flow_term" (CVar (map k_txe tx_e) 1) ;;
  Constraint "elemental_flow_constraint" tx_e k_txe
             elemental_flow_constraint ;;
  DerivativeVar "elemental_flow_dx" "elemental_flow_term" "length_domain" ;;
  (* Create material balance terms as needed *)
  when has_mass_transfer
    (setattr "elemental_mass_transfer_term" (CVar (map k_txe tx_e) 0)) ;;
  (* Element balances *)
  Constraint "element_balances" tx_e k_txe
             (element_balances has_mass_transfer custom_elemental_term) ;;
  (* Elemental Holdup *)
  when has_holdup
    (pf <- lift (hasattr "phase_fraction") ;;
     when (negb pf) _add_phase_fractions ;;
     Constraint "elemental_holdup_calculation" tx_e k_txe
                elemental_holdup_calculation) ;;
  lift (getattr "element_balances").

(** *** Balance types the 1-D control volume does not support *)

Definition add_total_material_balances (args : list pyval)
    (kwargs : list (string * pyval)) : M component :=
  M_raise BalanceTypeNotSupportedError.

Definition add_phase_enthalpy_balances (args : list pyval)
    (kwargs : list (string * pyval)) : M component :=
  M_raise BalanceTypeNotSupportedError.

Definition add_phase_energy_balances (args : list pyval)
    (kwargs : list (string * pyval)) : M component :=
  M_raise BalanceTypeNotSupportedError.

Definition add_total_energy_balances (args : list pyval)
    (kwargs : list (string * pyval)) : M component :=
  M_raise BalanceTypeNotSupportedError.

Definition add_phase_pressure_balances (args : list pyval)
    (kwargs : list (string * pyval)) : M component :=
  M_raise BalanceTypeNotSupportedError.

Definition add_phase_momentum_balances (args : list pyval)
    (kwargs : list (string * pyval)) : M component :=
  M_raise BalanceTypeNotSupportedError.

Definition add_total_momentum_balances (args : list pyval)
    (kwargs : list (string * pyval)) : M component :=
  M_raise BalanceTypeNotSupportedError.

(** *** Enthalpy balances *)

Definition energy_accumulation_term (dynamic : bool) (t x : Q) (p : string)
    : R expr :=
  if dynamic then ref "energy_accumulation" [INum t; INum x; IStr p]
  else ret (ENum 0).

Definition heat_term (has_heat_transfer : bool) (t x : Q) : R expr :=
  if has_heat_transfer then ref "heat" [INum t; INum x] else ret (ENum 0).

Definition work_term (has_work_transfer : bool) (t x : Q) : R expr :=
  if has_work_transfer then ref "work" [INum t; INum x] else ret (ENum 0).

Definition rxn_heat_term (has_heat_of_reaction : bool) (t x : Q) : R expr :=
  if has_heat_of_reaction then ref "heat_of_reaction" [INum t; INum x]
  else ret (ENum 0).

Definition enthalpy_flow_linking_constraint (i : Q * Q * string)
    : R (option equation) :=
  let '(t, x, p) := i in
  f <- ref "_enthalpy_flow" [INum t; INum x; IStr p] ;;
  g <- prop "properties" [INum t; INum x] "get_enthalpy_flow_terms" [IStr p] ;;
  ret (Some (f == g)%E).

(** Rule of the [heat_of_reaction] expression. *)
Definition heat_of_reaction (i : Q * Q) : R expr :=
  let '(t, x) := i in
  b <- ask ;;
  let rp := cfg_reaction_package b in
  has_rate <- hasattr "rate_reaction_extent" ;;
  rate_heat <-
    (if has_rate : bool then
       rs <- package_attr rp rate_reaction_idx ;;
       terms <- mapR (λ r,
           e <- ref "rate_reaction_extent" [INum t; INum x; r] ;;
           h <- prop "reactions" [INum t; INum x] "dh_rxn" [r] ;;
           ret (e * h)%E) rs ;;
       ret (- py_sum terms)%E
     else ret (ENum 0)) ;;
  has_equil <- hasattr "equilibrium_reaction_extent" ;;
  equil_heat <-
    (if has_equil : bool then
       rs <- package_attr rp equilibrium_reaction_idx ;;
       terms <- mapR (λ r,
           e <- ref "equilibrium_reaction_extent" [INum t; INum x; r] ;;
           h <- prop "reactions" [INum t; INum x] "dh_rxn" [r] ;;
           ret (e * h)%E) rs ;;
       ret (- py_sum terms)%E
     else ret (ENum 0)) ;;
  ret (rate_heat + equil_heat)%E.

(** Rule of [enthalpy_balances]. *)
Definition enthalpy_balances
    (has_heat_of_reaction has_heat_transfer has_work_transfer : bool)
    (custom_term : option (key → expr)) (i : Q * Q) : R (option equation) :=
  let '(t, x) := i in
  b <- ask ;;
  skip <- at_skipped_boundary x ;;
  if skip : bool then ret None
  else
    let phases := phase_list (cfg_property_package b) in
    len <- ref "length" [] ;;
    acc <- mapR (λ p, energy_accumulation_term (cfg_dynamic b) t x p) phases ;;
    sfe <- ref "scaling_factor_energy" [] ;;
    fdt <- flow_direction_term ;;
    dx <- mapR (λ p, ref "enthalpy_flow_dx" [INum t; INum x; IStr p]) phases ;;
    heat <- heat_term has_heat_transfer t x ;;
    work <- work_term has_work_transfer t x ;;
    rxn <- rxn_heat_term has_heat_of_reaction t x ;;
    ret (Some (len * py_sum acc * sfe ==
               fdt * py_sum dx * sfe + len * heat * sfe + len * work * sfe
               + len * rxn * sfe
               + len * CV0D.user_term custom_term [INum t; INum x] * sfe)%E).

Definition enthalpy_holdup_calculation (i : Q * Q * string)
    : R (option equation) :=
  let '(t, x, p) := i in
  h <- ref "energy_holdup" [INum t; INum x; IStr p] ;;
  a <- _area_func t x ;;
  f <- ref "phase_fraction" [INum t; INum x; IStr p] ;;
  d <- prop "properties" [INum t; INum x] "get_energy_density_terms"
            [IStr p] ;;
  ret (Some (h == a * f * d)%E).

(** [add_total_enthalpy_balances]. *)
Definition add_total_enthalpy_balances
    (has_heat_of_reaction has_heat_transfer has_work_transfer : bool)
    (custom_term : option (key → expr)) : M component :=
  b <- self ;;
  let dynamic := cfg_dynamic b in
  let has_holdup := cfg_has_holdup b in
  let pp := cfg_property_package b in
  (* Test for components that must exist prior to calling this method *)
  when has_heat_of_reaction
    (r <- lift (hasattr "rate_reaction_extent") ;;
     e <- lift (hasattr "equilibrium_reaction_extent") ;;
     when (negb (r || e)) (M_raise ConfigurationError)) ;;
  (* Create variables *)
  ld <- lift length_domain ;;
  let tx := list_prod (time b) ld in
  let tx_p := list_prod tx (phase_list pp) in
  setattr "_enthalpy_flow" (CVar (map k_txp tx_p) 1) ;;
  Constraint "enthalpy_flow_linking_constraint" tx_p k_txp
             enthalpy_flow_linking_constraint ;;
  DerivativeVar "enthalpy_flow_dx" "_enthalpy_flow" "length_domain" ;;
  when has_holdup (setattr "energy_holdup" (CVar (map k_txp tx_p) 1)) ;;
  when dynamic (DerivativeVar "energy_accumulation" "energy_holdup" "time") ;;
  (* Create scaling factor *)
  setattr "scaling_factor_energy" (CParam (1 # 1000000) true) ;;
  (* Create energy balance terms as needed *)
  when has_heat_transfer (setattr "heat" (CVar (map k_tx tx) 0)) ;;
  when has_work_transfer (setattr "work" (CVar (map k_tx tx) 0)) ;;
  when has_heat_of_reaction
    (Expression "heat_of_reaction" tx k_tx heat_of_reaction) ;;
  (* Energy balance equation *)
  Constraint "enthalpy_balances" tx k_tx
    (enthalpy_balances has_heat_of_reaction has_heat_transfer
       has_work_transfer custom_term) ;;
  (* Energy Holdup *)
  when has_holdup
    (pf <- lift (hasattr "phase_fraction") ;;
     when (negb pf) _add_phase_fractions ;;
     Constraint "enthalpy_holdup_calculation" tx_p k_txp
                enthalpy_holdup_calculation) ;;
  lift (getattr "enthalpy_balances").

(** *** Pressure balances *)

Definition deltaP_term (has_pressure_change : bool) (t x : Q) : R expr :=
  if has_pressure_change then ref "deltaP" [INum t; INum x]
  else ret (ENum 0).

Definition pressure_linking_constraint (i : Q * Q) : R (option equation) :=
  let '(t, x) := i in
  p <- ref "pressure" [INum t; INum x] ;;
  q <- prop "properties" [INum t; INum x] "pressure" [] ;;
  ret (Some (p == q)%E).

(** Rule of [pressure_balance]. *)
Definition pressure_balance (has_pressure_change : bool)
    (custom_term : option (key → expr)) (i : Q * Q) : R (option equation) :=
  let '(t, x) := i in
  skip <- at_skipped_boundary x ;;
  if skip : bool then ret None
  else
    fdt <- flow_direction_term ;;
    dx <- ref "pressure_dx" [INum t; INum x] ;;
    sfp <- ref "scaling_factor_pressure" [] ;;
    len <- ref "length" [] ;;
    dp <- deltaP_term has_pressure_change t x ;;
    ret (Some (ENum 0 ==
               fdt * dx * sfp + len * dp * sfp
               + len * CV0D.user_term custom_term [INum t; INum x] * sfp)%E).

(** [add_total_pressure_balances]. *)
Definition add_total_pressure_balances (has_pressure_change : bool)
    (custom_term : option (key → expr)) : M component :=
  b <- self ;;
  (* Create dP/dx terms *)
  ld <- lift length_domain ;;
  let tx := list_prod (time b) ld in
  setattr "pressure" (CVar (map k_tx tx) 100000) ;;
  Constraint "pressure_linking_constraint" tx k_tx
             pressure_linking_constraint ;;
  DerivativeVar "pressure_dx" "pressure" "length_domain" ;;
  (* Add Momentum Balance Variables as necessary *)
  when has_pressure_change (setattr "deltaP" (CVar (map k_tx tx) 0)) ;;
  (* Create scaling factor *)
  setattr "scaling_factor_pressure" (CParam (1 # 10000) true) ;;
  (* Momentum balance equation *)
  Constraint "pressure_balance" tx k_tx
             (pressure_balance has_pressure_change custom_term) ;;
  lift (getattr "pressure_balance").

(** *** Discretization arguments *)

(** The DAE arguments of the configuration block that only
    [_validate_config_args] and [apply_transformation] read;
    [transformation_scheme] is a field of the control volume. *)
Record DAEConfig : Type := {
  transformation_method : option string;
  finite_elements : option Z;
  collocation_points : option Z
}.

(** [s in names], for a list of strings. *)
Definition str_in (s : string) (names : list string) : bool :=
  existsb (String.eqb s) names.

(** [self.config.transformation_method == name]. *)
Definition method_is (name : string) (c : DAEConfig) : bool :=
  match transformation_method c with
  | Some m => String.eqb m name
  | None => false
  end.

(** [_validate_config_args], which [build] calls. *)
Definition _validate_config_args (c : DAEConfig) : R unit :=
  b <- ask ;;
  match transformation_method c with
  | None => R_raise ConfigurationError
  | Some _ =>
      match cfg_transformation_scheme b with
      | None => R_raise ConfigurationError
      | Some scheme =>
          if (method_is "dae.finite_difference" c
              && negb (str_in scheme ["BACKWARD"; "FORWARD"]))
             || (method_is "dae.collocation" c
                 && negb (str_in scheme
                            ["LAGRANGE-LEGENDRE"; "LAGRANGE-RADAU"]))
          then R_raise ConfigurationError
          else ret tt
      end
  end.

(** The call [apply_transformation] makes on the discretizer it gets from
    Pyomo's TransformationFactory:
    [discretizer.apply_to(self, nfe=..., ncp=..., wrt=self.length_domain,
    scheme=...)].  The transformation itself is Pyomo's. *)
Record Transformation : Type := {
  tf_method : string;
  tf_nfe : Z;
  tf_ncp : option Z;
  tf_scheme : option string
}.

(** [apply_transformation].  [local_domain] tells whether
    [self.length_domain.parent_block()] is the control volume itself: it is
    for a domain that [add_geometry] created, and is not for one that was
    handed to it. *)
Definition apply_transformation (c : DAEConfig) (local_domain : bool)
    : R Transformation :=
  b <- ask ;;
  getattr "length_domain" ;;
  if negb local_domain then R_raise ConfigurationError
  else
    match finite_elements c with
    | None => R_raise ConfigurationError
    | Some nfe =>
        if match collocation_points c with None => true | Some _ => false end
           && method_is "dae.collocation" c
        then R_raise ConfigurationError
        else if method_is "dae.finite_difference" c then
          ret {| tf_method := "dae.finite_difference";
                 tf_nfe := nfe;
                 tf_ncp := None;
                 tf_scheme := cfg_transformation_scheme b |}
        else if method_is "dae.collocation" c then
          ret {| tf_method := "dae.collocation";
                 tf_nfe := nfe;
                 tf_ncp := collocation_points c;
                 tf_scheme := cfg_transformation_scheme b |}
        else R_raise ConfigurationError
    end.

(** *** Model checks *)

(** [model_check]; see the 0-D one. *)
Definition model_check (outcome : string → key → exn + unit)
    : R (list (string * key)) :=
  b <- ask ;;
  ws <- mapR (λ t,
      ld <- length_domain ;;
      wx <- mapR (λ x,
          w_state <- CV0D.try_model_check
                       (state_config [INum t; INum x] ;;
                        CV0D.package_call
                          (outcome "properties" [INum t; INum x]))
                       ("properties", [INum t; INum x]) ;;
          w_rxn <- CV0D.try_model_check
                     (reaction_config [INum t; INum x] ;;
                      CV0D.package_call
                        (outcome "reactions" [INum t; INum x]))
                     ("reactions", [INum t; INum x]) ;;
          ret (w_state ++ w_rxn)) ld ;;
      ret (concat wx)) (time b) ;;
  ret (concat ws).

End CV1D.

(** * Initialization and release of state (both control volumes)

    [initialize] and [release_state] touch the state blocks only through
    their state variables (value and fixed flag) and through the
    [initialize] / [release_state] methods of the state-block and
    reaction-block collections, which belong to the property and reaction
    packages. *)

Module Init.

Record StateVar : Type := { value : option Q; fixed : bool }.

(** A member of [define_port_members()]: a scalar or an indexed variable. *)
Inductive PortMember : Type :=
| Scalar (v : StateVar)
| Indexed (members : list (idx * StateVar)).

(** One state block: its port members, in dictionary order. *)
Definition StateBlock : Type := list (string * PortMember).

(** An indexed collection of state blocks. *)
Definition Collection : Type := list (key * StateBlock).

Inductive StateArg : Type :=
| ArgScalar (v : option Q)
| ArgIndexed (vs : list (idx * option Q)).

Definition StateArgs : Type := list (string * StateArg).

Inductive Flag : Type :=
| FlagScalar (f : bool)
| FlagIndexed (fs : list (idx * bool)).

Definition Flags : Type := list (string * Flag).

(** The flags a collection hands back from [initialize(hold_state=True)]. *)
Definition CollFlags : Type := list (key * Flags).

(** The methods of the packages' block collections, as the control volume
    calls them.  [rb_initialize] is the outcome of
    [reactions.initialize(state_vars_fixed=True)]. *)
Record Package : Type := {
  sb_initialize :
    StateArgs → bool → Collection → Collection * (exn + option CollFlags);
  sb_release_state :
    option CollFlags → Collection → Collection * (exn + unit);
  rb_initialize : exn + unit
}.

Record World : Type := {
  w_time : list Q;
  w_length_domain : option (list Q);
  w_flow_direction : option FlowDirection;
  w_has_reactions : bool;
  w_blocks : gmap string Collection
}.

Definition with_blocks (f : gmap string Collection → gmap string Collection)
    (w : World) : World :=
  {| w_time := w_time w;
     w_length_domain := w_length_domain w;
     w_flow_direction := w_flow_direction w;
     w_has_reactions := w_has_reactions w;
     w_blocks := f (w_blocks w) |}.

Definition I (A : Type) : Type := World → World * (exn + A).

Definition I_ret {A} (a : A) : I A := λ w, (w, inr a).
Definition I_bind {A B} (m : I A) (f : A → I B) : I B :=
  λ w, match m w with
       | (w', inl e) => (w', inl e)
       | (w', inr a) => f a w'
       end.
#[global] Instance I_monad : Monad I := {| ret := @I_ret; bind := @I_bind |}.

Definition I_raise {A} (e : exn) : I A := λ w, (w, inl e).
Definition world : I World := λ w, (w, inr w).

(** [blk.<name>]. *)
Definition get_collection (name : string) : I Collection :=
  λ w, match w_blocks w !! name with
       | Some c => (w, inr c)
       | None => (w, inl AttributeError)
       end.

Definition set_collection (name : string) (c : Collection) : I unit :=
  λ w, (with_blocks <[name := c]> w, inr tt).

Definition first_of (s : list Q) : I Q :=
  match s with
  | [] => I_raise KeyError
  | x :: _ => ret x
  end.

Definition last_of (s : list Q) : I Q :=
  match s with
  | [] => I_raise KeyError
  | x :: s' => ret (List.last s' x)
  end.

(** [collection[k]]. *)
Definition block_at (c : Collection) (k : key) : I StateBlock :=
  match block_get c k with
  | Some sb => ret sb
  | None => I_raise KeyError
  end.

(** [name.initialize(state_args=..., hold_state=...)]. *)
Definition call_initialize (pkg : Package) (name : string)
    (state_args : StateArgs) (hold_state : bool) : I (option CollFlags) :=
  c <- get_collection name ;;
  match sb_initialize pkg state_args hold_state c with
  | (c', r) => set_collection name c' ;;
               match r with
               | inl e => I_raise e
               | inr flags => ret flags
               end
  end.

(** [name.release_state(flags)]. *)
Definition call_release_state (pkg : Package) (name : string)
    (flags : option CollFlags) : I unit :=
  c <- get_collection name ;;
  match sb_release_state pkg flags c with
  | (c', r) => set_collection name c' ;;
               match r with
               | inl e => I_raise e
               | inr _ => ret tt
               end
  end.

(** [try: blk.reactions.initialize(...) / except AttributeError: pass]. *)
Definition try_initialize_reactions (pkg : Package) : I unit :=
  w <- world ;;
  if w_has_reactions w then
    match rb_initialize pkg with
    | inl AttributeError => ret tt
    | inl e => I_raise e
    | inr _ => ret tt
    end
  else ret tt.

(** The values read off the port members when no [state_args] is given
    (0-D). *)
Definition read_state_args (state_dict : StateBlock) : StateArgs :=
  map (λ km, (fst km,
              match snd km with
              | Indexed members =>
                  ArgIndexed (map (λ mv, (fst mv, value (snd mv))) members)
              | Scalar v => ArgScalar (value v)
              end)) state_dict.

(** ** 0-D *)

(** [ControlVolume0DBlockData.initialize(state_args, hold_state)]. *)
Definition initialize0 (pkg : Package) (state_args : option StateArgs)
    (hold_state : bool) : I (option CollFlags) :=
  w <- world ;;
  (* Get inlet state if not provided *)
  state_args <-
    match state_args with
    | None =>
        pin <- get_collection "properties_in" ;;
        t0 <- first_of (w_time w) ;;
        state_dict <- block_at pin [INum t0] ;;
        ret (read_state_args state_dict)
    | Some a => ret a
    end ;;
  (* Initialize state blocks *)
  in_flags <- call_initialize pkg "properties_in" state_args hold_state ;;
  out_flags <- call_initialize pkg "properties_out" state_args true ;;
  try_initialize_reactions pkg ;;
  (* Unfix outlet properties *)
  call_release_state pkg "properties_out" out_flags ;;
  ret in_flags.

(** [ControlVolume0DBlockData.release_state(flags)]. *)
Definition release_state0 (pkg : Package) (flags : option CollFlags)
    : I unit :=
  call_release_state pkg "properties_in" flags.

(** ** 1-D *)

(** The source block: first or last point of the length domain, by flow
    direction, at the first time point. *)
Definition source_key : I key :=
  w <- world ;;
  d <- match w_flow_direction w with
       | Some d => ret d
       | None => I_raise AttributeError
       end ;;
  ld <- match w_length_domain w with
        | Some ld => ret ld
        | None => I_raise AttributeError
        end ;;
  source_idx <- match d with
                | forward => first_of ld
                | backward => last_of ld
                end ;;
  t0 <- first_of (w_time w) ;;
  ret [INum t0; INum source_idx].

Fixpoint block_set {V} (d : list (key * V)) (k : key) (v : V)
    : list (key * V) :=
  match d with
  | [] => []
  | (k', v') :: d' =>
      if key_eqb k' k then (k', v) :: d' else (k', v') :: block_set d' k v
  end.

Definition fix_var (v : StateVar) : StateVar :=
  {| value := value v; fixed := true |}.

Definition fix_var_to (v : StateVar) (x : option Q) : StateVar :=
  {| value := x; fixed := true |}.

(** The inner loop over the members of an indexed variable when no
    [state_args] is given: record the flag, then fix the member if it has a
    value and raise otherwise.  Returns the members as the loop leaves
    them, whether it ran to its end or raised. *)
Fixpoint fix_members (members : list (idx * StateVar))
    : list (idx * StateVar)
      * (exn + (list (idx * option Q) * list (idx * bool))) :=
  match members with
  | [] => ([], inr ([], []))
  | (m, v) :: rest =>
      match value v with
      | Some x =>
          match fix_members rest with
          | (rest', inr (args, flags)) =>
              ((m, fix_var v) :: rest',
               inr ((m, Some x) :: args, (m, fixed v) :: flags))
          | (rest', inl e) => ((m, fix_var v) :: rest', inl e)
          end
      | None => ((m, v) :: rest, inl PyException)
      end
  end.

(** The outer loop over [state_dict.keys()]. *)
Fixpoint fix_source (state_dict : StateBlock)
    : StateBlock * (exn + (StateArgs * Flags)) :=
  match state_dict with
  | [] => ([], inr ([], []))
  | (k, Indexed members) :: rest =>
      match fix_members members with
      | (members', inr (margs, mflags)) =>
          match fix_source rest with
          | (rest', inr (args, flags)) =>
              ((k, Indexed members') :: rest',
               inr ((k, ArgIndexed margs) :: args,
                    (k, FlagIndexed mflags) :: flags))
          | (rest', inl e) => ((k, Indexed members') :: rest', inl e)
          end
      | (members', inl e) => ((k, Indexed members') :: rest, inl e)
      end
  | (k, Scalar v) :: rest =>
      match value v with
      | Some x =>
          match fix_source rest with
          | (rest', inr (args, flags)) =>
              ((k, Scalar (fix_var v)) :: rest',
               inr ((k, ArgScalar (Some x)) :: args,
                    (k, FlagScalar (fixed v)) :: flags))
          | (rest', inl e) => ((k, Scalar (fix_var v)) :: rest', inl e)
          end
      | None => ((k, Scalar v) :: rest, inl PyException)
      end
  end.

Fixpoint args_get (a : StateArgs) (k : string) : option StateArg :=
  match a with
  | [] => None
  | (k', v) :: a' => if String.eqb k' k then Some v else args_get a' k
  end.

(** The loops of the branch taken when [state_args] is given. *)
Fixpoint fix_members_to (members : list (idx * StateVar))
    (arg : option StateArg)
    : list (idx * StateVar) * (exn + list (idx * bool)) :=
  match members with
  | [] => ([], inr [])
  | (m, v) :: rest =>
      let step (v' : StateVar) :=
        match fix_members_to rest arg with
        | (rest', inr flags) => ((m, v') :: rest', inr ((m, fixed v) :: flags))
        | (rest', inl e) => ((m, v') :: rest', inl e)
        end in
      if fixed v then step v
      else
        match arg with
        | Some (ArgIndexed vs) =>
            match dict_get vs m with
            | Some x => step (fix_var_to v x)
            | None => ((m, v) :: rest, inl KeyError)
            end
        | _ => ((m, v) :: rest, inl KeyError)
        end
  end.

Fixpoint fix_source_to (state_dict : StateBlock) (state_args : StateArgs)
    : StateBlock * (exn + Flags) :=
  match state_dict with
  | [] => ([], inr [])
  | (k, Indexed members) :: rest =>
      match fix_members_to members (args_get state_args k) with
      | (members', inr mflags) =>
          match fix_source_to rest state_args with
          | (rest', inr flags) =>
              ((k, Indexed members') :: rest',
               inr ((k, FlagIndexed mflags) :: flags))
          | (rest', inl e) => ((k, Indexed members') :: rest', inl e)
          end
      | (members', inl e) => ((k, Indexed members') :: rest, inl e)
      end
  | (k, Scalar v) :: rest =>
      (* [if value is not None: fix(); if not fixed: fix(state_args[k])]:
         the inner test follows the fix and is never true *)
      let v' := match value v with Some _ => fix_var v | None => v end in
      match fix_source_to rest state_args with
      | (rest', inr flags) =>
          ((k, Scalar v') :: rest', inr ((k, FlagScalar (fixed v)) :: flags))
      | (rest', inl e) => ((k, Scalar v') :: rest', inl e)
      end
  end.

Fixpoint flags_get (f : Flags) (k : string) : option Flag :=
  match f with
  | [] => None
  | (k', v) :: f' => if String.eqb k' k then Some v else flags_get f' k
  end.

(** The loops of the 1-D [release_state]: [var.fixed = flags[k][m]]. *)
Fixpoint restore_members (members : list (idx * StateVar))
    (flag : option Flag) : list (idx * StateVar) * (exn + unit) :=
  match members with
  | [] => ([], inr tt)
  | (m, v) :: rest =>
      match flag with
      | Some (FlagIndexed fs) =>
          match dict_get fs m with
          | Some f =>
              match restore_members rest flag with
              | (rest', r) =>
                  ((m, {| value := value v; fixed := f |}) :: rest', r)
              end
          | None => ((m, v) :: rest, inl KeyError)
          end
      | _ => ((m, v) :: rest, inl KeyError)
      end
  end.

Fixpoint restore_source (state_dict : StateBlock) (flags : Flags)
    : StateBlock * (exn + unit) :=
  match state_dict with
  | [] => ([], inr tt)
  | (k, Indexed members) :: rest =>
      match restore_members members (flags_get flags k) with
      | (members', inr _) =>
          match restore_source rest flags with
          | (rest', r) => ((k, Indexed members') :: rest', r)
          end
      | (members', inl e) => ((k, Indexed members') :: rest, inl e)
      end
  | (k, Scalar v) :: rest =>
      match flags_get flags k with
      | Some (FlagScalar f) =>
          match restore_source rest flags with
          | (rest', r) =>
              ((k, Scalar {| value := value v; fixed := f |}) :: rest', r)
          end
      | _ => ((k, Scalar v) :: rest, inl KeyError)
      end
  end.

(** Run a loop over the port members of the source block, in place. *)
Definition on_source {A} (loop : StateBlock → StateBlock * (exn + A))
    : I A :=
  k <- source_key ;;
  props <- get_collection "properties" ;;
  source <- block_at props k ;;
  match loop source with
  | (source', r) =>
      set_collection "properties" (block_set props k source') ;;
      match r with
      | inl e => I_raise e
      | inr a => ret a
      end
  end.

(** [ControlVolume1DBlockData.release_state(flags)]. *)
Definition release_state1 (flags : Flags) : I unit :=
  on_source (λ sd, restore_source sd flags).

(** [ControlVolume1DBlockData.initialize(state_args, hold_state)]. *)
Definition initialize1 (pkg : Package) (state_args : option StateArgs)
    (hold_state : bool) : I (option Flags) :=
  (* Fix source state and get state_args if not provided *)
  sa_sf <-
    match state_args with
    | None => on_source fix_source
    | Some a => sf <- on_source (λ sd, fix_source_to sd a) ;; ret (a, sf)
    end ;;
  let '(state_args, source_flags) := sa_sf in
  (* Initialize state blocks *)
  flags <- call_initialize pkg "properties" state_args true ;;
  try_initialize_reactions pkg ;;
  (* Unfix state variables except for source block *)
  call_release_state pkg "properties" flags ;;
  if hold_state then ret (Some source_flags)
  else release_state1 source_flags ;; ret None.

(** ** A reference state-block collection

    The [initialize] and [release_state] methods of a state-block
    collection belong to the property package; the definitions below are a
    reference implementation of their protocol, used where a property needs
    a concrete collection. *)

(** Modelled from the spec: the flags structure a state-block collection
    records, one fixed flag per state variable. *)
Definition std_flags_of (sb : StateBlock) : Flags :=
  map (λ km, (fst km,
              match snd km with
              | Scalar v => FlagScalar (fixed v)
              | Indexed ms => FlagIndexed (map (λ mv, (fst mv, fixed (snd mv))) ms)
              end)) sb.

(** Modelled from the spec: fixing one state variable during a state
    block's initialization; a variable already fixed is left alone, another
    is fixed, to the value in [state_args] where one is given. *)
Definition std_fix_var (v : StateVar) (x : option (option Q)) : StateVar :=
  if fixed v then v
  else match x with
       | Some x' => fix_var_to v x'
       | None => fix_var v
       end.

(** Modelled from the spec: fixing the state variables of one state
    block. *)
Definition std_fix (state_args : StateArgs) (sb : StateBlock) : StateBlock :=
  map (λ km, (fst km,
              match snd km, args_get state_args (fst km) with
              | Scalar v, Some (ArgScalar x) => Scalar (std_fix_var v (Some x))
              | Scalar v, _ => Scalar (std_fix_var v None)
              | Indexed ms, Some (ArgIndexed xs) =>
                  Indexed (map (λ mv, (fst mv,
                     std_fix_var (snd mv) (dict_get xs (fst mv)))) ms)
              | Indexed ms, _ =>
                  Indexed (map (λ mv, (fst mv, std_fix_var (snd mv) None)) ms)
              end)) sb.

(** Modelled from the spec: putting recorded fixed flags back, for the
    members of an indexed variable, a state block and a collection. *)
Fixpoint std_restore_members (ms : list (idx * StateVar))
    (fs : list (idx * bool)) : list (idx * StateVar) :=
  match ms, fs with
  | (m, v) :: ms', (_, f) :: fs' =>
      (m, {| value := value v; fixed := f |}) :: std_restore_members ms' fs'
  | _, _ => ms
  end.

Fixpoint std_restore (sb : StateBlock) (flags : Flags) : StateBlock :=
  match sb, flags with
  | (k, Scalar v) :: sb', (_, FlagScalar f) :: flags' =>
      (k, Scalar {| value := value v; fixed := f |}) :: std_restore sb' flags'
  | (k, Indexed ms) :: sb', (_, FlagIndexed fs) :: flags' =>
      (k, Indexed (std_restore_members ms fs)) :: std_restore sb' flags'
  | _, _ => sb
  end.

Fixpoint std_restore_all (c : Collection) (flags : CollFlags) : Collection :=
  match c, flags with
  | (k, sb) :: c', (_, f) :: flags' =>
      (k, std_restore sb f) :: std_restore_all c' flags'
  | _, _ => c
  end.

(** Modelled from the spec: the state-block collection's
    [initialize(state_args, hold_state)], which belongs to the property
    package: record which state variables are fixed, fix them all, and
    either return the record ([hold_state=True]) or release at once. *)
Definition std_initialize (state_args : StateArgs) (hold_state : bool)
    (c : Collection) : Collection * (exn + option CollFlags) :=
  let flags := map (λ ksb, (fst ksb, std_flags_of (snd ksb))) c in
  let c' := map (λ ksb, (fst ksb, std_fix state_args (snd ksb))) c in
  if hold_state then (c', inr (Some flags))
  else (std_restore_all c' flags, inr None).

(** Modelled from the spec: the state-block collection's
    [release_state(flags)], which belongs to the property package: put the
    recorded fixed flags back. *)
Definition std_release_state (flags : option CollFlags) (c : Collection)
    : Collection * (exn + unit) :=
  match flags with
  | Some f => (std_restore_all c f, inr tt)
  | None => (c, inr tt)
  end.

(** The reference collections together with a reaction block whose
    initialization has the given outcome. *)
Definition std_package (reactions_outcome : exn + unit) : Package :=
  {| sb_initialize := std_initialize;
     sb_release_state := std_release_state;
     rb_initialize := reactions_outcome |}.

(** The fixed flags of a collection. *)
Definition fixed_flags (c : Collection) : CollFlags :=
  map (λ ksb, (fst ksb, std_flags_of (snd ksb))) c.

(** Some state variable of the block has no value. *)
Definition member_has_None (pm : PortMember) : bool :=
  match pm with
  | Scalar v => match value v with None => true | Some _ => false end
  | Indexed ms =>
      existsb (λ mv, match value (snd mv) with
                     | None => true
                     | Some _ => false
                     end) ms
  end.

Definition has_None (sb : StateBlock) : bool :=
  existsb (λ km, member_has_None (snd km)) sb.

End Init.

(** * Uniform views of the two variants *)

Inductive variant_ : Type := ZeroD | OneD.

(** The balance-adding methods that only raise. *)
Inductive unsupported_balance : Type :=
| total_material | phase_enthalpy | phase_energy | total_energy
| phase_pressure | phase_momentum | total_momentum.

Definition add_unsupported (v : variant_) (m : unsupported_balance)
    (args : list pyval) (kwargs : list (string * pyval)) : M component :=
  match v, m with
  | ZeroD, total_material => CV0D.add_total_material_balances args kwargs
  | ZeroD, phase_enthalpy => CV0D.add_phase_enthalpy_balances args kwargs
  | ZeroD, phase_energy => CV0D.add_phase_energy_balances args kwargs
  | ZeroD, total_energy => CV0D.add_total_energy_balances args kwargs
  | ZeroD, phase_pressure => CV0D.add_phase_pressure_balances args kwargs
  | ZeroD, phase_momentum => CV0D.add_phase_momentum_balances args kwargs
  | ZeroD, total_momentum => CV0D.add_total_momentum_balances args kwargs
  | OneD, total_material => CV1D.add_total_material_balances args kwargs
  | OneD, phase_enthalpy => CV1D.add_phase_enthalpy_balances args kwargs
  | OneD, phase_energy => CV1D.add_phase_energy_balances args kwargs
  | OneD, total_energy => CV1D.add_total_energy_balances args kwargs
  | OneD, phase_pressure => CV1D.add_phase_pressure_balances args kwargs
  | OneD, phase_momentum => CV1D.add_phase_momentum_balances args kwargs
  | OneD, total_momentum => CV1D.add_total_momentum_balances args kwargs
  end.

Definition add_total_element_balances (v : variant_)
    (has_rate_reactions has_equilibrium_reactions has_phase_equilibrium
       has_mass_transfer : bool)
    (custom_elemental_term : option (key → expr)) : M component :=
  match v with
  | ZeroD => CV0D.add_total_element_balances has_rate_reactions
               has_equilibrium_reactions has_phase_equilibrium
               has_mass_transfer custom_elemental_term
  | OneD => CV1D.add_total_element_balances has_rate_reactions
              has_equilibrium_reactions has_phase_equilibrium
              has_mass_transfer custom_elemental_term
  end.

Definition add_state_blocks (v : variant_)
    (information_flow has_phase_equilibrium : pyval) : M unit :=
  match v with
  | ZeroD => CV0D.add_state_blocks information_flow has_phase_equilibrium
  | OneD => CV1D.add_state_blocks information_flow has_phase_equilibrium
  end.

Definition add_reaction_blocks (v : variant_) (has_equilibrium : pyval)
    : M unit :=
  match v with
  | ZeroD => CV0D.add_reaction_blocks has_equilibrium
  | OneD => CV1D.add_reaction_blocks has_equilibrium
  end.

(** A block with nothing attached, for a given configuration. *)
Definition empty_block (dynamic has_holdup : bool) (pp : PropertyPackage)
    (rp : option ReactionPackage) (scheme : option string) (T : list Q)
    : ControlVolume :=
  {| cfg_dynamic := dynamic;
     cfg_has_holdup := has_holdup;
     cfg_property_package := pp;
     cfg_reaction_package := rp;
     cfg_transformation_scheme := scheme;
     cfg_area_definition := uniform;
     time := T;
     _flow_direction := None;
     _flow_direction_term := None;
     base_rxn_rate_conv := λ _ _ _ _, inr (ENum 1);
     components := ∅ |}.

(** A two-phase, two-component package with one phase-equilibrium
    reaction, and one without the optional attributes. *)
Definition pp_vle : PropertyPackage :=
  {| phase_list := ["Liq"; "Vap"];
     component_list := ["a"; "b"];
     get_phase_component_set :=
       [("Liq", "a"); ("Liq", "b"); ("Vap", "a"); ("Vap", "b")];
     phase_equilibrium_idx := Some [IStr "PE1"; IStr "PE2"];
     phase_equilibrium_list :=
       [(IStr "PE1", ("a", ("Liq", "Vap")));
        (IStr "PE2", ("b", ("Liq", "Vap")))];
     element_list := Some ["H"; "O"];
     has_state_block_class := true;
     get_material_flow_basis := molar;
     has_mw := true |}.

Definition pp_plain : PropertyPackage :=
  {| phase_list := ["Liq"];
     component_list := ["a"; "b"];
     get_phase_component_set := [("Liq", "a"); ("Liq", "b")];
     phase_equilibrium_idx := None;
     phase_equilibrium_list := [];
     element_list := None;
     has_state_block_class := true;
     get_material_flow_basis := molar;
     has_mw := false |}.

Definition rp_std : ReactionPackage :=
  {| rate_reaction_idx := Some [IStr "R1"];
     equilibrium_reaction_idx := Some [IStr "E1"];
     has_reaction_block_class := true |}.

Definition block_vle : ControlVolume :=
  empty_block false false pp_vle (Some rp_std) (Some "BACKWARD") [0%Q].

Definition block_plain : ControlVolume :=
  empty_block false false pp_plain None (Some "BACKWARD") [0%Q].

(** ** Example worlds for the initialization routines *)

Definition sv (x : option Q) (f : bool) : Init.StateVar :=
  {| Init.value := x; Init.fixed := f |}.

(** A state block with a scalar flow, an indexed composition and a
    temperature, all unfixed. *)
Definition sb_valued : Init.StateBlock :=
  [("flow_mol", Init.Scalar (sv (Some 5%Q) false));
   ("mole_frac", Init.Indexed [(IStr "a", sv (Some (1 # 2)) false);
                               (IStr "b", sv (Some (1 # 2)) false)]);
   ("temperature", Init.Scalar (sv (Some 300%Q) false))].

(** The same block with no value for the temperature. *)
Definition sb_unvalued : Init.StateBlock :=
  [("flow_mol", Init.Scalar (sv (Some 5%Q) false));
   ("mole_frac", Init.Indexed [(IStr "a", sv (Some (1 # 2)) false);
                               (IStr "b", sv (Some (1 # 2)) false)]);
   ("temperature", Init.Scalar (sv None false))].

Definition world0 (inlet : Init.StateBlock) (reactions : bool) : Init.World :=
  {| Init.w_time := [0%Q];
     Init.w_length_domain := None;
     Init.w_flow_direction := None;
     Init.w_has_reactions := reactions;
     Init.w_blocks :=
       <["properties_in" := [([INum 0], inlet)]]>
         (<["properties_out" := [([INum 0], sb_valued)]]> ∅) |}.

Definition world1 (source : Init.StateBlock) : Init.World :=
  {| Init.w_time := [0%Q];
     Init.w_length_domain := Some [0%Q; 1%Q];
     Init.w_flow_direction := Some forward;
     Init.w_has_reactions := false;
     Init.w_blocks :=
       <["properties" := [([INum 0; INum 0], source);
                          ([INum 0; INum 1], sb_valued)]]> ∅ |}.

(** The collection attached under [name], empty when there is none. *)
Definition collection_of (w : Init.World) (name : string) : Init.Collection :=
  default [] (Init.w_blocks w !! name).

(** The state variables without a value, each with its fixed flag. *)
Definition unvalued_members (ms : list (idx * Init.StateVar))
    : list (idx * bool) :=
  omap (λ mv, match Init.value (snd mv) with
              | None => Some (fst mv, Init.fixed (snd mv))
              | Some _ => None
              end) ms.

Definition unvalued (sb : Init.StateBlock)
    : list (string * list (idx * bool)) :=
  map (λ km, (fst km,
              match snd km with
              | Init.Scalar v => unvalued_members [(IStr "", v)]
              | Init.Indexed ms => unvalued_members ms
              end)) sb.

(** Some entry of the state arguments is None. *)
Definition args_have_None (a : Init.StateArgs) : bool :=
  existsb (λ ka, match snd ka with
                 | Init.ArgScalar None => true
                 | Init.ArgScalar (Some _) => false
                 | Init.ArgIndexed vs =>
                     existsb (λ mv, match snd mv with
                                    | None => true
                                    | Some _ => false
                                    end) vs
                 end) a.

(** ** The signed indicator of a phase-equilibrium reaction

    Written from the specification, to be compared with the dictionary
    [sd] that [phase_equilibrium_term] fills: +1 when the reaction's
    component is [j] and [p] is the first phase of its pair, -1 when [p] is
    the second phase, 0 otherwise. *)
Definition signed_indicator (pp : PropertyPackage) (r : idx) (p j : string)
    : Z :=
  match dict_get (phase_equilibrium_list pp) r with
  | Some (component, (phase_a, phase_b)) =>
      if String.eqb component j then
        if String.eqb phase_a p then 1
        else if String.eqb phase_b p then -1
        else 0
      else 0
  | None => 0
  end.

(** ** Phase fractions, for either variant *)

Definition add_phase_fractions (v : variant_) : M unit :=
  match v with
  | ZeroD => CV0D._add_phase_fractions
  | OneD => CV1D._add_phase_fractions
  end.

(** The domain points of a control volume: its time points (0-D), or the
    pairs of a time point and a point of the length domain [ld] (1-D). *)
Definition domain_points (v : variant_) (b : ControlVolume) (ld : list Q)
    : list key :=
  match v with
  | ZeroD => map k_t (time b)
  | OneD => map k_tx (list_prod (time b) ld)
  end.

(** A 1-D block on which [add_geometry] has run. *)
Definition block_1d (dynamic has_holdup : bool) (pp : PropertyPackage)
    (scheme : string) : ControlVolume :=
  fst (CV1D.add_geometry None [0%Q; (1 # 2)%Q; 1%Q] (PyFlow forward)
         (empty_block dynamic has_holdup pp (Some rp_std) (Some scheme)
                      [0%Q])).

(** ** Additive structure of an expression *)

(** The terms an expression adds or subtracts at its top level. *)
Fixpoint additive_terms (e : expr) : list expr :=
  match e with
  | EAdd a b => additive_terms a ++ additive_terms b
  | ESub a b => additive_terms a ++ additive_terms b
  | _ => [e]
  end.

(** [e] is some expression times the parameter [sf]. *)
Definition scaled_by (sf : string) (e : expr) : Prop :=
  ∃ e', e = (e' * ERef sf [])%E.

(** A 0-D block with its volume and state blocks in place. *)
Definition block_0d (dynamic has_holdup : bool) (pp : PropertyPackage)
    : ControlVolume :=
  fst (CV0D.add_state_blocks (PyFlow forward) (PyBool true)
         (fst (CV0D.add_geometry
                 (empty_block dynamic has_holdup pp (Some rp_std) None
                              [0%Q; 1%Q])))).

(** ** The five balance families of the 1-D control volume *)

Inductive balance_family : Type :=
| MaterialPhase | MaterialTotal | ElementTotal | Enthalpy | Pressure.

(** The keyword arguments of the balance-adding methods. *)
Record balance_args : Type := {
  has_rate_reactions : bool;
  has_equilibrium_reactions : bool;
  has_phase_equilibrium : bool;
  has_mass_transfer : bool;
  has_heat_of_reaction : bool;
  has_heat_transfer : bool;
  has_work_transfer : bool;
  has_pressure_change : bool;
  custom_molar_term : option (key → expr);
  custom_mass_term : option (key → expr);
  custom_term : option (key → expr)   (* custom_elemental_term, custom_term *)
}.

Definition add_balance_1d (fam : balance_family) (a : balance_args)
    : M component :=
  match fam with
  | MaterialPhase =>
      CV1D.add_phase_component_balances (has_rate_reactions a)
        (has_equilibrium_reactions a) (has_phase_equilibrium a)
        (has_mass_transfer a) (custom_molar_term a) (custom_mass_term a)
  | MaterialTotal =>
      CV1D.add_total_component_balances (has_rate_reactions a)
        (has_equilibrium_reactions a) (has_phase_equilibrium a)
        (has_mass_transfer a) (custom_molar_term a) (custom_mass_term a)
  | ElementTotal =>
      CV1D.add_total_element_balances (has_rate_reactions a)
        (has_equilibrium_reactions a) (has_phase_equilibrium a)
        (has_mass_transfer a) (custom_term a)
  | Enthalpy =>
      CV1D.add_total_enthalpy_balances (has_heat_of_reaction a)
        (has_heat_transfer a) (has_work_transfer a) (custom_term a)
  | Pressure =>
      CV1D.add_total_pressure_balances (has_pressure_change a)
        (custom_term a)
  end.

Definition add_balance_0d (fam : balance_family) (a : balance_args)
    : M component :=
  match fam with
  | MaterialPhase =>
      CV0D.add_phase_component_balances (has_rate_reactions a)
        (has_equilibrium_reactions a) (has_phase_equilibrium a)
        (has_mass_transfer a) (custom_molar_term a) (custom_mass_term a)
  | MaterialTotal =>
      CV0D.add_total_component_balances (has_rate_reactions a)
        (has_equilibrium_reactions a) (has_phase_equilibrium a)
        (has_mass_transfer a) (custom_molar_term a) (custom_mass_term a)
  | ElementTotal =>
      CV0D.add_total_element_balances (has_rate_reactions a)
        (has_equilibrium_reactions a) (has_phase_equilibrium a)
        (has_mass_transfer a) (custom_term a)
  | Enthalpy =>
      CV0D.add_total_enthalpy_balances (has_heat_of_reaction a)
        (has_heat_transfer a) (has_work_transfer a) (custom_term a)
  | Pressure =>
      CV0D.add_total_pressure_balances (has_pressure_change a)
        (custom_term a)
  end.

Definition add_balance (v : variant_) : balance_family → balance_args →
    M component :=
  match v with ZeroD => add_balance_0d | OneD => add_balance_1d end.

(** The balance constraint each family declares. *)
Definition balance_name (fam : balance_family) : string :=
  match fam with
  | MaterialPhase | MaterialTotal => "material_balances"
  | ElementTotal => "element_balances"
  | Enthalpy => "enthalpy_balances"
  | Pressure => "pressure_balance"
  end.

(** What indexes a family's balance besides the domain point. *)
Definition balance_suffixes (fam : balance_family) (b : ControlVolume)
    : list key :=
  let pp := cfg_property_package b in
  match fam with
  | MaterialPhase =>
      map (λ pj, [IStr (fst pj); IStr (snd pj)]) (get_phase_component_set pp)
  | MaterialTotal => map (λ j, [IStr j]) (component_list pp)
  | ElementTotal => map (λ e, [IStr e]) (default [] (element_list pp))
  | Enthalpy | Pressure => [[]]
  end.

(** The point of the length domain at which the discretization scheme
    takes the boundary condition: the last point for "FORWARD", the first
    otherwise. *)
Definition skipped_point (scheme : option string) (ld : list Q) : Q :=
  if CV1D.scheme_is "FORWARD" scheme then List.last ld 0%Q else hd 0%Q ld.

Definition no_terms : balance_args :=
  {| has_rate_reactions := false;
     has_equilibrium_reactions := false;
     has_phase_equilibrium := false;
     has_mass_transfer := false;
     has_heat_of_reaction := false;
     has_heat_transfer := false;
     has_work_transfer := false;
     has_pressure_change := false;
     custom_molar_term := None;
     custom_mass_term := None;
     custom_term := None |}.

(** The balance declared for family [fam] has an equation at exactly
    those of its indices whose point of the length domain [ld] is not the
    skipped one. *)
Definition skips_only_boundary (fam : balance_family) (b : ControlVolume)
    (ld : list Q) (body : list (key * equation)) : Prop :=
  ∀ (t x : Q) (rest : key),
    In t (time b) → In x ld → In rest (balance_suffixes fam b) →
    (In ([INum t; INum x] ++ rest) (map fst body)
     ↔ Qeq_bool x (skipped_point (cfg_transformation_scheme b) ld) = false).

(** ** Toggleable balance terms *)

Inductive balance_term : Type :=
| Holdup | Accumulation | RateGeneration | EquilibriumGeneration
| PhaseEquilibriumGeneration | MassTransfer.

(** The variable that carries a term in a balance family, for the families
    that have the term. *)
Definition term_variable (fam : balance_family) (tm : balance_term)
    : option string :=
  match fam, tm with
  | (MaterialPhase | MaterialTotal), Holdup => Some "material_holdup"
  | (MaterialPhase | MaterialTotal), Accumulation =>
      Some "material_accumulation"
  | (MaterialPhase | MaterialTotal), RateGeneration =>
      Some "rate_reaction_generation"
  | (MaterialPhase | MaterialTotal), EquilibriumGeneration =>
      Some "equilibrium_reaction_generation"
  | (MaterialPhase | MaterialTotal), PhaseEquilibriumGeneration =>
      Some "phase_equilibrium_generation"
  | (MaterialPhase | MaterialTotal), MassTransfer => Some "mass_transfer_term"
  | ElementTotal, Holdup => Some "element_holdup"
  | ElementTotal, Accumulation => Some "element_accumulation"
  | ElementTotal, MassTransfer => Some "elemental_mass_transfer_term"
  | Enthalpy, Holdup => Some "energy_holdup"
  | Enthalpy, Accumulation => Some "energy_accumulation"
  | _, _ => None
  end.

(** The boolean flag of a term: a configuration option of the control
    volume for holdup and accumulation, an argument of the call for the
    others. *)
Definition term_flag (a : balance_args) (b : ControlVolume)
    (tm : balance_term) : bool :=
  match tm with
  | Holdup => cfg_has_holdup b
  | Accumulation => cfg_dynamic b
  | RateGeneration => has_rate_reactions a
  | EquilibriumGeneration => has_equilibrium_reactions a
  | PhaseEquilibriumGeneration => has_phase_equilibrium a
  | MassTransfer => has_mass_transfer a
  end.

(** What the code tests before it creates the variable: the flag, and for
    phase-equilibrium generation also that the balance is
    component-phase. *)
Definition term_switch (fam : balance_family) (a : balance_args)
    (b : ControlVolume) (tm : balance_term) : bool :=
  match tm, fam with
  | PhaseEquilibriumGeneration, MaterialPhase => has_phase_equilibrium a
  | PhaseEquilibriumGeneration, _ => false
  | _, _ => term_flag a b tm
  end.

(** The rule that substitutes a term in the balance equation of a family,
    for a given value of its switch; [None] where the equation has no such
    term. *)
Definition term_rule (v : variant_) (fam : balance_family)
    (tm : balance_term) (switch : bool) (t x : Q) (p j : string)
    : option (R expr) :=
  match v, fam, tm with
  | ZeroD, (MaterialPhase | MaterialTotal), Accumulation =>
      Some (CV0D.accumulation_term switch t p j)
  | ZeroD, (MaterialPhase | MaterialTotal), RateGeneration =>
      Some (CV0D.kinetic_term switch t p j)
  | ZeroD, (MaterialPhase | MaterialTotal), EquilibriumGeneration =>
      Some (CV0D.equilibrium_term switch t p j)
  | ZeroD, MaterialPhase, PhaseEquilibriumGeneration =>
      Some (CV0D.phase_equilibrium_term switch componentPhase t p j)
  | ZeroD, (MaterialPhase | MaterialTotal), MassTransfer =>
      Some (CV0D.transfer_term switch t p j)
  | ZeroD, ElementTotal, Accumulation =>
      Some (CV0D.element_accumulation_term switch t j)
  | ZeroD, ElementTotal, MassTransfer =>
      Some (CV0D.element_transfer_term switch t j)
  | ZeroD, Enthalpy, Accumulation =>
      Some (CV0D.energy_accumulation_term switch t p)
  | OneD, (MaterialPhase | MaterialTotal), Accumulation =>
      Some (CV1D.accumulation_term switch t x p j)
  | OneD, (MaterialPhase | MaterialTotal), RateGeneration =>
      Some (CV1D.kinetic_term switch t x p j)
  | OneD, (MaterialPhase | MaterialTotal), EquilibriumGeneration =>
      Some (CV1D.equilibrium_term switch t x p j)
  | OneD, MaterialPhase, PhaseEquilibriumGeneration =>
      Some (CV1D.phase_equilibrium_term switch componentPhase t x p j)
  | OneD, (MaterialPhase | MaterialTotal), MassTransfer =>
      Some (CV1D.transfer_term switch t x p j)
  | OneD, ElementTotal, Accumulation =>
      Some (CV1D.element_accumulation_term switch t x j)
  | OneD, ElementTotal, MassTransfer =>
      Some (CV1D.element_transfer_term switch t x j)
  | OneD, Enthalpy, Accumulation =>
      Some (CV1D.energy_accumulation_term switch t x p)
  | _, _, _ => None
  end.

Definition is_variable (c : component) : bool :=
  match c with
  | CVar _ _ | CDerivativeVar _ _ _ => true
  | _ => false
  end.

(** A 1-D block with geometry and state blocks in place. *)
Definition block_1d_ready (dynamic has_holdup : bool) (pp : PropertyPackage)
    (scheme : string) : ControlVolume :=
  fst (CV1D.add_state_blocks (PyFlow forward) (PyBool true)
         (block_1d dynamic has_holdup pp scheme)).

(** ** Framing of methods *)

(** [b'] has the configuration of [b], agrees with it on every component
    name outside [N], and has lost no component. *)
Record extends (N : list string) (b b' : ControlVolume) : Prop := {
  ext_config : with_components (λ _, ∅) b' = with_components (λ _, ∅) b;
  ext_frame : ∀ n, ¬ In n N → components b' !! n = components b !! n;
  ext_grow : ∀ n, is_Some (components b !! n) →
                  is_Some (components b' !! n)
}.

(** Whatever its outcome, [m] run on [b] only attaches names in [N]. *)
Definition modifies {A} (N : list string) (m : M A) (b : ControlVolume)
    : Prop :=
  ∀ b' r, m b = (b', r) → extends N b b'.

(** Each balance rule returns [Constraint.Skip] exactly when the test
    holds. *)
Definition skips_at {I} (rule : I → R (option equation)) (x_of : I → Q)
    (ok : I → Prop) (b : ControlVolume) : Prop :=
  ∀ i r, ok i → rule i b = inr r →
    ∃ skip, CV1D.at_skipped_boundary (x_of i) b = inr skip
            ∧ (r = None ↔ skip = true).

(** When [m] returns, a variable named [n] is attached. *)
Definition attaches {A} (n : string) (m : M A) (b : ControlVolume) : Prop :=
  ∀ b' a, m b = (b', inr a) →
    ∃ var, components b' !! n = Some var ∧ is_variable var = true.

(** ** Example calls *)

(** The VLE block with a phase-equilibrium generation variable attached. *)
Definition block_pe : ControlVolume :=
  with_components
    <["phase_equilibrium_generation" :=
        CVar [[INum 0; IStr "PE1"]; [INum 0; IStr "PE2"]] 0]> block_vle.

Definition with_mass_transfer : balance_args :=
  {| has_rate_reactions := false;
     has_equilibrium_reactions := false;
     has_phase_equilibrium := false;
     has_mass_transfer := true;
     has_heat_of_reaction := false;
     has_heat_transfer := true;
     has_work_transfer := false;
     has_pressure_change := true;
     custom_molar_term := None;
     custom_mass_term := None;
     custom_term := None |}.

(** ** What a balance-adding method may attach *)

(** The names a balance family assigns on the control volume, over all
    settings of its switches. *)
Definition balance_components (v : variant_) (fam : balance_family)
    : list string :=
  match fam with
  | MaterialPhase | MaterialTotal =>
      ["material_holdup"; "material_accumulation";
       "rate_reaction_generation"; "equilibrium_reaction_generation";
       "phase_equilibrium_generation"; "mass_transfer_term";
       "phase_fraction"; "sum_of_phase_fractions";
       "material_holdup_calculation"; "rate_reaction_extent";
       "rate_reaction_stoichiometry_constraint";
       "equilibrium_reaction_extent";
       "equilibrium_reaction_stoichiometry_constraint"; "material_balances"]
      ++ match v with
         | ZeroD => []
         | OneD => ["_flow_terms"; "material_flow_linking_constraints";
                    "material_flow_dx"]
         end
  | ElementTotal =>
      ["element_holdup"; "element_accumulation";
       "elemental_mass_transfer_term"; "element_balances"; "phase_fraction";
       "sum_of_phase_fractions"; "elemental_holdup_calculation"]
      ++ match v with
         | ZeroD => ["elemental_flow_in"; "elemental_flow_out"]
         | OneD => ["elemental_flow_term"; "elemental_flow_constraint";
                    "elemental_flow_dx"]
         end
  | Enthalpy =>
      ["energy_holdup"; "energy_accumulation"; "scaling_factor_energy";
       "heat"; "work"; "heat_of_reaction"; "enthalpy_balances";
       "phase_fraction"; "sum_of_phase_fractions";
       "enthalpy_holdup_calculation"]
      ++ match v with
         | ZeroD => []
         | OneD => ["_enthalpy_flow"; "enthalpy_flow_linking_constraint";
                    "enthalpy_flow_dx"]
         end
  | Pressure =>
      ["deltaP"; "scaling_factor_pressure"; "pressure_balance"]
      ++ match v with
         | ZeroD => []
         | OneD => ["pressure"; "pressure_linking_constraint"; "pressure_dx"]
         end
  end.

(** The state blocks, the reaction blocks and the geometry of a control
    volume. *)
Definition blocks_and_geometry : list string :=
  ["properties_in"; "properties_out"; "properties"; "reactions"; "volume";
   "area"; "length"; "length_domain"].

(** ** Further example calls *)

Definition with_phase_equilibrium : balance_args :=
  {| has_rate_reactions := false;
     has_equilibrium_reactions := false;
     has_phase_equilibrium := true;
     has_mass_transfer := false;
     has_heat_of_reaction := false;
     has_heat_transfer := false;
     has_work_transfer := false;
     has_pressure_change := false;
     custom_molar_term := None;
     custom_mass_term := None;
     custom_term := None |}.

Definition with_rate_reactions : balance_args :=
  {| has_rate_reactions := true;
     has_equilibrium_reactions := false;
     has_phase_equilibrium := false;
     has_mass_transfer := false;
     has_heat_of_reaction := false;
     has_heat_transfer := false;
     has_work_transfer := false;
     has_pressure_change := false;
     custom_molar_term := None;
     custom_mass_term := None;
     custom_term := None |}.

(** The VLE block after [add_state_blocks(has_phase_equilibrium=0)]. *)
Definition block_no_equilibrium : ControlVolume :=
  fst (CV0D.add_state_blocks (PyFlow forward) (PyInt 0) block_vle).

(** A 0-D block configured for holdup on which [add_geometry] has not been
    called. *)
Definition block_no_volume : ControlVolume :=
  empty_block false true pp_vle (Some rp_std) None [0%Q].

(** ** The flow variables of the 1-D balances *)

(** The variable that carries the flow of a balance family along the
    length domain, the constraint that links it to the state blocks, the
    derivative of the variable, and the value the variable is initialized
    to. *)
Definition flow_linking (fam : balance_family)
    : string * string * string * Q :=
  match fam with
  | MaterialPhase | MaterialTotal =>
      ("_flow_terms", "material_flow_linking_constraints",
       "material_flow_dx", 1%Q)
  | ElementTotal =>
      ("elemental_flow_term", "elemental_flow_constraint",
       "elemental_flow_dx", 1%Q)
  | Enthalpy =>
      ("_enthalpy_flow", "enthalpy_flow_linking_constraint",
       "enthalpy_flow_dx", 1%Q)
  | Pressure =>
      ("pressure", "pressure_linking_constraint", "pressure_dx", 100000%Q)
  end.

(** What indexes the flow variable of a family besides the domain point. *)
Definition flow_suffixes (fam : balance_family) (b : ControlVolume)
    : list key :=
  let pp := cfg_property_package b in
  match fam with
  | MaterialPhase | MaterialTotal =>
      map (λ pj, [IStr (fst pj); IStr (snd pj)]) (get_phase_component_set pp)
  | ElementTotal => map (λ e, [IStr e]) (default [] (element_list pp))
  | Enthalpy => map (λ p, [IStr p]) (phase_list pp)
  | Pressure => [[]]
  end.

(** ** Fixed flags of the state variables *)

(** The fixed flag of every state variable of a state block, and of every
    block of a collection. *)
Definition fixed_of (sb : Init.StateBlock) : Init.Flags :=
  map (λ km, (fst km,
              match snd km with
              | Init.Scalar v => Init.FlagScalar (Init.fixed v)
              | Init.Indexed ms =>
                  Init.FlagIndexed
                    (map (λ mv, (fst mv, Init.fixed (snd mv))) ms)
              end)) sb.

Definition fixed_of_collection (c : Init.Collection) : Init.CollFlags :=
  map (λ ksb, (fst ksb, fixed_of (snd ksb))) c.

(** The variables a state block holds, without their state. *)
Definition shape (sb : Init.StateBlock) : list (string * option (list idx)) :=
  map (λ km, (fst km,
              match snd km with
              | Init.Scalar _ => None
              | Init.Indexed ms => Some (map fst ms)
              end)) sb.

(** The keys of a Python dictionary are distinct: the names of the port
    members, and the indices of each indexed member. *)
Fixpoint distinct_idx (ks : list idx) : bool :=
  match ks with
  | [] => true
  | k :: ks' => negb (existsb (idx_eqb k) ks') && distinct_idx ks'
  end.

Definition distinct_keys (sb : Init.StateBlock) : Prop :=
  NoDup (map fst sb)
  ∧ ∀ k ms, In (k, Init.Indexed ms) sb → distinct_idx (map fst ms) = true.

(** A property package whose [release_state] undoes the fixing of its
    [initialize]: after [initialize(hold_state=True)] and
    [release_state(flags)] every state variable of the collection is in
    place with the fixed flag it had before. *)
Definition restores_fixed (pkg : Init.Package) : Prop :=
  ∀ state_args c c1 flags c2 u,
    Init.sb_initialize pkg state_args true c = (c1, inr flags) →
    Init.sb_release_state pkg flags c1 = (c2, inr u) →
    fixed_of_collection c2 = fixed_of_collection c.

(** ** The source state as [initialize] leaves it when [state_args] is given *)

(** What the loops of the branch taken for a given [state_args] make of a
    port member when they run to their end: an indexed member that is not
    fixed is fixed to its entry of [state_args]; a scalar is fixed where it
    stands if it has a value and is left alone otherwise. *)
Definition fixed_with (a : Init.StateArgs) (km : string * Init.PortMember)
    : string * Init.PortMember :=
  (fst km,
   match snd km with
   | Init.Scalar v =>
       Init.Scalar (match Init.value v with
                    | Some _ => Init.fix_var v
                    | None => v
                    end)
   | Init.Indexed ms =>
       Init.Indexed
         (map (λ mv,
            (fst mv,
             if Init.fixed (snd mv) then snd mv
             else Init.fix_var_to (snd mv)
                    (match Init.args_get a (fst km) with
                     | Some (Init.ArgIndexed vs) =>
                         default None (dict_get vs (fst mv))
                     | _ => None
                     end))) ms)
   end).

(** The scalar state variables of a state block. *)
Definition scalars (sb : Init.StateBlock) : list (string * Init.StateVar) :=
  omap (λ km, match snd km with
              | Init.Scalar v => Some (fst km, v)
              | Init.Indexed _ => None
              end) sb.


(** ** Transfer terms of the energy and pressure balances *)

(** The variables that the enthalpy and pressure balances declare on
    request. *)
Inductive transfer_term : Type :=
| HeatTransfer | WorkTransfer | PressureChange.

Definition transfer_variable (tm : transfer_term) : string :=
  match tm with
  | HeatTransfer => "heat"
  | WorkTransfer => "work"
  | PressureChange => "deltaP"
  end.

Definition transfer_family (tm : transfer_term) : balance_family :=
  match tm with
  | HeatTransfer | WorkTransfer => Enthalpy
  | PressureChange => Pressure
  end.

Definition transfer_flag (a : balance_args) (tm : transfer_term) : bool :=
  match tm with
  | HeatTransfer => has_heat_transfer a
  | WorkTransfer => has_work_transfer a
  | PressureChange => has_pressure_change a
  end.

(** The index of a variable declared over the domain of a control volume:
    the time points, paired in the 1-D one with the points [ld] of the
    length domain. *)
Definition domain_keys (v : variant_) (b : ControlVolume) (ld : list Q)
    : list key :=
  match v with
  | ZeroD => map k_t (time b)
  | OneD => map k_tx (list_prod (time b) ld)
  end.

(** When [m] returns, the component [c] is attached under [n]. *)
Definition declares {A} (n : string) (c : component) (m : M A)
    (b : ControlVolume) : Prop :=
  ∀ b' a, m b = (b', inr a) → components b' !! n = Some c.

Definition with_pressure_change : balance_args :=
  {| has_rate_reactions := false;
     has_equilibrium_reactions := false;
     has_phase_equilibrium := false;
     has_mass_transfer := false;
     has_heat_of_reaction := false;
     has_heat_transfer := false;
     has_work_transfer := false;
     has_pressure_change := true;
     custom_molar_term := None;
     custom_mass_term := None;
     custom_term := None |}.

(** * Properties *)

(** ** Sanity checks on concrete inputs *)

Example py_in_accepts_one :
  py_in (PyInt 1) [PyBool true; PyBool false] = true
  ∧ py_in (PyStr "True") [PyBool true; PyBool false] = false
  ∧ py_in PyNone [PyBool true; PyBool false] = false.
Proof. repeat split. Qed.

Example py_sum_three :
  py_sum [ENum 1; ENum 2; ENum 3] = (ENum 0 + ENum 1 + ENum 2 + ENum 3)%E.
Proof. reflexivity. Qed.

Example skipped_boundary_backward :
  CV1D.at_skipped_boundary 0 (block_1d false false pp_vle "BACKWARD")
    = inr true
  ∧ CV1D.at_skipped_boundary 1 (block_1d false false pp_vle "BACKWARD")
    = inr false.
Proof. split; reflexivity. Qed.

Example skipped_boundary_forward :
  CV1D.at_skipped_boundary 0 (block_1d false false pp_vle "FORWARD")
    = inr false
  ∧ CV1D.at_skipped_boundary 1 (block_1d false false pp_vle "FORWARD")
    = inr true.
Proof. split; reflexivity. Qed.

Example pressure_balance_0d_equation :
  let b := fst (CV0D.add_total_pressure_balances true None
                  (block_0d false false pp_vle)) in
  components b !! "pressure_balance"
  = Some (CConstraint
      (map (λ t : Q,
         ([INum t],
          (ENum 0 ==
           EProp "properties_in" [INum t] "pressure" []
             * ERef "scaling_factor_pressure" []
           - EProp "properties_out" [INum t] "pressure" []
             * ERef "scaling_factor_pressure" []
           + ERef "deltaP" [INum t] * ERef "scaling_factor_pressure" []
           + ENum 0 * ERef "scaling_factor_pressure" [])%E))
         [0%Q; 1%Q])).
Proof. vm_compute. reflexivity. Qed.

Example element_balance_1d_keys :
  let b := fst (CV1D.add_total_element_balances false false false false None
                  (block_1d_ready false false pp_vle "BACKWARD")) in
  component_index (default (CVar [] 0) (components b !! "element_balances"))
  = [[INum 0; INum (1 # 2); IStr "H"]; [INum 0; INum (1 # 2); IStr "O"];
     [INum 0; INum 1; IStr "H"]; [INum 0; INum 1; IStr "O"]].
Proof. vm_compute. reflexivity. Qed.

(** ** Unsupported balance types *)

(** C2: on both control-volume variants, each of the seven unsupported
    balance methods, whatever its arguments, raises
    BalanceTypeNotSupportedError at once and leaves the block exactly as it
    was: nothing is attached. *)
Theorem unsupported_balances_raise (v : variant_) (m : unsupported_balance)
    (args : list pyval) (kwargs : list (string * pyval)) (b : ControlVolume) :
  add_unsupported v m args kwargs b = (b, inl BalanceTypeNotSupportedError).
Proof. destruct v, m; reflexivity. Qed.

(** ** Element balances reject reaction terms *)

(** C7, as stated, fails: with a property package that has no
    [element_list], the call with [has_rate_reactions=True] raises
    PropertyNotSupportedError, not a configuration error. *)
Lemma element_balances_rate_not_configuration_error :
  CV0D.add_total_element_balances true false false false None block_plain
    = (block_plain, inl PropertyNotSupportedError)
  ∧ snd (CV0D.add_total_element_balances true false false false None
           block_plain) ≠ inl ConfigurationError.
Proof. split; [reflexivity | discriminate]. Qed.

(** C7, amended: on both variants, [add_total_element_balances] called with
    any of [has_rate_reactions], [has_equilibrium_reactions],
    [has_phase_equilibrium] set raises before anything is attached to the
    block; the error is ConfigurationError when the property package has an
    [element_list], and PropertyNotSupportedError when it has none. *)
Theorem element_balances_reject_reactions (v : variant_)
    (has_rate_reactions has_equilibrium_reactions has_phase_equilibrium
       has_mass_transfer : bool)
    (custom_elemental_term : option (key → expr)) (b : ControlVolume) :
  has_rate_reactions || has_equilibrium_reactions || has_phase_equilibrium
    = true →
  add_total_element_balances v has_rate_reactions has_equilibrium_reactions
    has_phase_equilibrium has_mass_transfer custom_elemental_term b
  = (b, inl (if package_has (Some (cfg_property_package b)) element_list
             then ConfigurationError else PropertyNotSupportedError)).
Proof.
  intros Hflag.
  destruct v; cbn;
    unfold CV0D.add_total_element_balances, CV1D.add_total_element_balances;
    cbn; unfold M_bind, self; cbn;
    destruct (element_list (cfg_property_package b)); cbn; try reflexivity;
    destruct has_rate_reactions; cbn; try reflexivity;
    destruct has_equilibrium_reactions; cbn; try reflexivity;
    destruct has_phase_equilibrium; cbn; try reflexivity;
    discriminate.
Qed.

Lemma element_balances_reject_reactions_witness :
  add_total_element_balances OneD true false false false None block_vle
  = (block_vle, inl ConfigurationError).
Proof.
  exact (element_balances_reject_reactions OneD true false false false None
           block_vle eq_refl).
Defined.

(** ** Validation of the equilibrium arguments *)

(** C10, as stated, fails: the integer 1 is not one of the booleans, yet
    [add_state_blocks] accepts it ([1 in [True, False]] holds in Python) and
    builds the state blocks. *)
Lemma add_state_blocks_accepts_int_one :
  PyInt 1 ≠ PyBool true ∧ PyInt 1 ≠ PyBool false
  ∧ snd (CV0D.add_state_blocks (PyFlow forward) (PyInt 1) block_vle) = inr tt
  ∧ is_Some (components
               (fst (CV0D.add_state_blocks (PyFlow forward) (PyInt 1)
                       block_vle)) !! "properties_in").
Proof.
  split; [discriminate |]. split; [discriminate |].
  split; [reflexivity |]. vm_compute. eexists; reflexivity.
Qed.

(** C10, amended: on both variants, [add_state_blocks] raises
    ConfigurationError and attaches nothing when [has_phase_equilibrium] is
    None or compares unequal (Python [==]) to both True and False, and
    [add_reaction_blocks] does the same for [has_equilibrium]; a value equal
    to True or False, such as the integer 1 or 0, passes this check. *)
Theorem equilibrium_argument_validated (v : variant_)
    (information_flow arg : pyval) (b : ControlVolume) :
  arg = PyNone
  ∨ (py_eq arg (PyBool true) = false ∧ py_eq arg (PyBool false) = false) →
  add_state_blocks v information_flow arg b = (b, inl ConfigurationError)
  ∧ add_reaction_blocks v arg b = (b, inl ConfigurationError).
Proof.
  intros [-> | [Ht Hf]].
  - destruct v; split; reflexivity.
  - assert (Hin : negb (py_in arg [PyBool true; PyBool false]) = true).
    { unfold py_in; cbn [existsb]. rewrite Ht, Hf. reflexivity. }
    destruct v; split;
      unfold add_state_blocks, add_reaction_blocks,
             CV0D.add_state_blocks, CV1D.add_state_blocks,
             CV0D.add_reaction_blocks, CV1D.add_reaction_blocks;
      cbn [bind ret M_monad]; unfold M_bind at 1; cbn [self];
      unfold M_bind at 1;
      destruct arg; try reflexivity; rewrite Hin; reflexivity.
Qed.

Lemma equilibrium_argument_validated_witness :
  add_state_blocks ZeroD (PyFlow forward) (PyStr "yes") block_vle
    = (block_vle, inl ConfigurationError)
  ∧ add_reaction_blocks ZeroD (PyStr "yes") block_vle
    = (block_vle, inl ConfigurationError).
Proof.
  apply (equilibrium_argument_validated ZeroD (PyFlow forward) (PyStr "yes")
           block_vle).
  right. split; reflexivity.
Defined.

(** ** Initialization: release of the outlet state *)

Lemma std_restore_members_fix2 (ms : list (idx * Init.StateVar))
    (f : idx → Init.StateVar → Init.StateVar) :
  map (λ mv, (fst mv, Init.fixed (snd mv)))
      (Init.std_restore_members (map (λ mv, (fst mv, f (fst mv) (snd mv))) ms)
         (map (λ mv, (fst mv, Init.fixed (snd mv))) ms))
  = map (λ mv, (fst mv, Init.fixed (snd mv))) ms.
Proof.
  induction ms as [| [m v] ms IH]; [reflexivity |].
  cbn. f_equal. exact IH.
Qed.

Lemma std_restore_fix (a : Init.StateArgs) (sb : Init.StateBlock) :
  Init.std_flags_of
    (Init.std_restore (Init.std_fix a sb) (Init.std_flags_of sb))
  = Init.std_flags_of sb.
Proof.
  induction sb as [| [k pm] sb IH]; [reflexivity |].
  destruct pm as [v | ms]; cbn.
  - destruct (Init.args_get a k) as [[x | xs] |]; cbn; f_equal; exact IH.
  - destruct (Init.args_get a k) as [[x | xs] |]; cbn; f_equal;
      try exact IH; f_equal; f_equal;
      [ apply (std_restore_members_fix2 ms (λ _ v, Init.std_fix_var v None))
      | apply (std_restore_members_fix2 ms
                 (λ m v, Init.std_fix_var v (dict_get xs m)))
      | apply (std_restore_members_fix2 ms
                 (λ _ v, Init.std_fix_var v None)) ].
Qed.

Lemma std_restore_all_fix (a : Init.StateArgs) (c : Init.Collection) :
  Init.fixed_flags
    (Init.std_restore_all
       (map (λ ksb, (fst ksb, Init.std_fix a (snd ksb))) c)
       (Init.fixed_flags c))
  = Init.fixed_flags c.
Proof.
  induction c as [| [k sb] c IH]; [reflexivity |].
  cbn. f_equal; [| exact IH]. f_equal. apply std_restore_fix.
Qed.

Lemma get_collection_ok (w : Init.World) (name : string)
    (c : Init.Collection) :
  Init.w_blocks w !! name = Some c →
  Init.get_collection name w = (w, inr c).
Proof. intros H. unfold Init.get_collection. rewrite H. reflexivity. Qed.

Lemma blocks_with_blocks f w :
  Init.w_blocks (Init.with_blocks f w) = f (Init.w_blocks w).
Proof. reflexivity. Qed.

Lemma I_bind_ok {A B} (m : Init.I A) (f : A → Init.I B) w w1 a :
  m w = (w1, inr a) → (x <- m ;; f x) w = f a w1.
Proof.
  intros H. cbn [bind Init.I_monad]. unfold Init.I_bind. rewrite H.
  reflexivity.
Qed.

Lemma I_bind_raise {A B} (m : Init.I A) (f : A → Init.I B) w w1 e :
  m w = (w1, inl e) → (x <- m ;; f x) w = (w1, inl e).
Proof.
  intros H. cbn [bind Init.I_monad]. unfold Init.I_bind. rewrite H.
  reflexivity.
Qed.

Lemma call_initialize_std (o : exn + unit) (name : string)
    (a : Init.StateArgs) (hold_state : bool) (w : Init.World)
    (c : Init.Collection) :
  Init.w_blocks w !! name = Some c →
  Init.call_initialize (Init.std_package o) name a hold_state w
  = (Init.with_blocks
       <[name := fst (Init.std_initialize a hold_state c)]> w,
     inr (if hold_state then Some (Init.fixed_flags c) else None)).
Proof.
  intros H. unfold Init.call_initialize.
  rewrite (I_bind_ok _ _ _ _ _ (get_collection_ok _ _ _ H)).
  cbn [Init.sb_initialize Init.std_package]. unfold Init.std_initialize.
  destruct hold_state; reflexivity.
Qed.

Lemma call_release_state_std (o : exn + unit) (name : string)
    (flags : Init.CollFlags) (w : Init.World) (c : Init.Collection) :
  Init.w_blocks w !! name = Some c →
  Init.call_release_state (Init.std_package o) name (Some flags) w
  = (Init.with_blocks <[name := Init.std_restore_all c flags]> w, inr tt).
Proof.
  intros H. unfold Init.call_release_state.
  rewrite (I_bind_ok _ _ _ _ _ (get_collection_ok _ _ _ H)).
  reflexivity.
Qed.

Lemma try_initialize_reactions_ok (o : exn + unit) (w : Init.World) :
  Init.w_has_reactions w = false ∨ o = inr tt ∨ o = inl AttributeError →
  Init.try_initialize_reactions (Init.std_package o) w = (w, inr tt).
Proof.
  intros H. unfold Init.try_initialize_reactions.
  cbn [bind Init.I_monad]. unfold Init.I_bind. cbn [Init.world].
  destruct H as [-> | [-> | ->]]; [reflexivity | |];
    destruct (Init.w_has_reactions w); reflexivity.
Qed.

(** Whatever the package, when the reaction-block initialization raises
    an error other than AttributeError after both state-block
    initializations have returned, [initialize] raises that error from the
    state the outlet initialization left: the release is not reached. *)
Lemma initialize0_propagates_failure (pkg : Init.Package)
    (a : Init.StateArgs) (hold_state : bool) (w w1 w2 : Init.World)
    (in_flags out_flags : option Init.CollFlags) (e : exn) :
  Init.call_initialize pkg "properties_in" a hold_state w
    = (w1, inr in_flags) →
  Init.call_initialize pkg "properties_out" a true w1
    = (w2, inr out_flags) →
  Init.w_has_reactions w2 = true →
  Init.rb_initialize pkg = inl e → e ≠ AttributeError →
  Init.initialize0 pkg (Some a) hold_state w = (w2, inl e).
Proof.
  intros Hin Hout Hrx He Hne. unfold Init.initialize0.
  erewrite I_bind_ok by reflexivity.
  erewrite I_bind_ok by reflexivity.
  rewrite (I_bind_ok _ _ _ _ _ Hin), (I_bind_ok _ _ _ _ _ Hout).
  apply I_bind_raise. unfold Init.try_initialize_reactions.
  erewrite I_bind_ok by reflexivity. rewrite Hrx, He.
  destruct e; try reflexivity. contradiction.
Qed.

(** C8, as stated, fails: when the reaction block's initialization raises
    anything but AttributeError, [initialize] raises too and the outlet
    state variables, fixed by the outlet's own initialization, stay
    fixed. *)
Lemma initialize0_failure_leaves_outlet_fixed :
  let r := Init.initialize0 (Init.std_package (inl SolverError)) None true
             (world0 sb_valued true) in
  snd r = inl SolverError
  ∧ Init.fixed_flags (collection_of (world0 sb_valued true) "properties_out")
    = [([INum 0], [("flow_mol", Init.FlagScalar false);
                   ("mole_frac", Init.FlagIndexed [(IStr "a", false);
                                                   (IStr "b", false)]);
                   ("temperature", Init.FlagScalar false)])]
  ∧ Init.fixed_flags (collection_of (fst r) "properties_out")
    = [([INum 0], [("flow_mol", Init.FlagScalar true);
                   ("mole_frac", Init.FlagIndexed [(IStr "a", true);
                                                   (IStr "b", true)]);
                   ("temperature", Init.FlagScalar true)])].
Proof. vm_compute. repeat split. Qed.

(** C8, amended: with state-block collections that follow the fix / record
    / restore protocol, whenever the reaction-block initialization returns,
    raises AttributeError, or there is no reaction block, the 0-D
    [initialize] returns and the outlet state variables have the fixed flags
    they had before the call; the inlet stays fixed only under
    [hold_state=True], in which case the flags to hand to [release_state]
    are returned.  (When another step raises, [initialize] raises without
    reaching the release.) *)
Theorem initialize0_releases_outlet (args : option Init.StateArgs)
    (hold_state : bool) (outcome : exn + unit) (w : Init.World)
    (pin pout : Init.Collection) :
  Init.w_blocks w !! "properties_in" = Some pin →
  Init.w_blocks w !! "properties_out" = Some pout →
  (args = None →
   ∃ t0 T sb, Init.w_time w = t0 :: T ∧ block_get pin [INum t0] = Some sb) →
  Init.w_has_reactions w = false ∨ outcome = inr tt
    ∨ outcome = inl AttributeError →
  ∃ w' flags,
    Init.initialize0 (Init.std_package outcome) args hold_state w
      = (w', inr flags)
    ∧ Init.fixed_flags (collection_of w' "properties_out")
      = Init.fixed_flags pout
    ∧ (if hold_state then flags = Some (Init.fixed_flags pin)
       else Init.fixed_flags (collection_of w' "properties_in")
            = Init.fixed_flags pin).
Proof.
  intros Hin Hout Hargs Hrx.
  assert (Hread : ∃ a,
    (match args with
     | None =>
         pin <- Init.get_collection "properties_in" ;;
         t0 <- Init.first_of (Init.w_time w) ;;
         state_dict <- Init.block_at pin [INum t0] ;;
         ret (Init.read_state_args state_dict)
     | Some a => ret a
     end : Init.I Init.StateArgs) w = (w, inr a)).
  { destruct args as [a |]; [eexists; reflexivity |].
    destruct (Hargs eq_refl) as (t0 & T & sb & HT & Hsb).
    exists (Init.read_state_args sb).
    rewrite (I_bind_ok _ _ _ _ _ (get_collection_ok _ _ _ Hin)), HT.
    cbn [Init.first_of]. erewrite I_bind_ok by reflexivity.
    unfold Init.block_at. rewrite Hsb.
    erewrite I_bind_ok by reflexivity. reflexivity. }
  destruct Hread as [a Hread].
  unfold Init.initialize0.
  erewrite I_bind_ok by reflexivity.
  rewrite (I_bind_ok _ _ _ _ _ Hread).
  rewrite (I_bind_ok _ _ _ _ _
             (call_initialize_std outcome _ a hold_state _ _ Hin)).
  set (w1 := Init.with_blocks _ w).
  assert (Hout1 : Init.w_blocks w1 !! "properties_out" = Some pout).
  { subst w1. rewrite blocks_with_blocks, lookup_insert_ne by discriminate.
    exact Hout. }
  rewrite (I_bind_ok _ _ _ _ _
             (call_initialize_std outcome _ a true _ _ Hout1)).
  set (w2 := Init.with_blocks _ w1).
  rewrite (I_bind_ok _ _ _ _ _ (try_initialize_reactions_ok outcome w2 Hrx)).
  assert (Hout2 : Init.w_blocks w2 !! "properties_out"
                  = Some (fst (Init.std_initialize a true pout))).
  { subst w2. rewrite blocks_with_blocks. apply lookup_insert_eq. }
  rewrite (I_bind_ok _ _ _ _ _
             (call_release_state_std outcome _ _ _ _ Hout2)).
  eexists _, _. split; [reflexivity |]. split.
  - unfold collection_of. rewrite blocks_with_blocks, lookup_insert_eq.
    cbn [default]. apply std_restore_all_fix.
  - destruct hold_state; [reflexivity |].
    unfold collection_of.
    rewrite blocks_with_blocks, lookup_insert_ne by discriminate.
    subst w2. rewrite blocks_with_blocks, lookup_insert_ne by discriminate.
    subst w1. rewrite blocks_with_blocks, lookup_insert_eq.
    cbn [default]. apply std_restore_all_fix.
Qed.

Lemma initialize0_releases_outlet_witness :
  ∃ w' flags,
    Init.initialize0 (Init.std_package (inl AttributeError)) None false
      (world0 sb_valued true) = (w', inr flags)
    ∧ Init.fixed_flags (collection_of w' "properties_out")
      = Init.fixed_flags [([INum 0], sb_valued)]
    ∧ Init.fixed_flags (collection_of w' "properties_in")
      = Init.fixed_flags [([INum 0], sb_valued)].
Proof.
  apply (initialize0_releases_outlet None false (inl AttributeError)
           (world0 sb_valued true) [([INum 0], sb_valued)]
           [([INum 0], sb_valued)]).
  - reflexivity.
  - reflexivity.
  - intros _. exists 0%Q, [], sb_valued. split; reflexivity.
  - right; right; reflexivity.
Defined.

(** ** Initialization without [state_args] *)

Lemma fix_members_outcome (ms : list (idx * Init.StateVar)) :
  if existsb (λ mv, match Init.value (snd mv) with
                    | None => true
                    | Some _ => false
                    end) ms
  then snd (Init.fix_members ms) = inl PyException
  else ∃ r, snd (Init.fix_members ms) = inr r.
Proof.
  induction ms as [| [m v] ms IH]; cbn; [eexists; reflexivity |].
  destruct (Init.value v) as [x |]; cbn; [| reflexivity].
  destruct (Init.fix_members ms) as [ms' [e | [args flags]]]; cbn in *.
  - destruct (existsb _ ms); [exact IH |].
    destruct IH as [r Hr]; discriminate.
  - destruct (existsb _ ms); [discriminate | eexists; reflexivity].
Qed.

Lemma fix_source_raises (sb : Init.StateBlock) :
  Init.has_None sb = true → snd (Init.fix_source sb) = inl PyException.
Proof.
  unfold Init.has_None.
  induction sb as [| [k pm] sb IH]; cbn; [discriminate |].
  destruct pm as [v | ms]; cbn.
  - destruct (Init.value v) as [x |]; cbn; [| reflexivity].
    intros H. specialize (IH H).
    destruct (Init.fix_source sb) as [sb' [e | [args flags]]]; cbn in *;
      [exact IH | discriminate].
  - pose proof (fix_members_outcome ms) as Hms.
    destruct (existsb _ ms); cbn.
    + intros _.
      destruct (Init.fix_members ms) as [ms' [e | [args flags]]]; cbn in *;
        [congruence | discriminate].
    + intros H. specialize (IH H). destruct Hms as [r Hr].
      destruct (Init.fix_members ms) as [ms' [e | [args flags]]]; cbn in *;
        [discriminate |].
      destruct (Init.fix_source sb) as [sb' [e | [args' flags']]]; cbn in *;
        [exact IH | discriminate].
Qed.

Lemma fix_members_unvalued (ms : list (idx * Init.StateVar)) :
  unvalued_members (fst (Init.fix_members ms)) = unvalued_members ms.
Proof.
  induction ms as [| [m v] ms IH]; [reflexivity |]. cbn.
  destruct (Init.value v) as [x |] eqn:Hv; cbn.
  - destruct (Init.fix_members ms) as [ms' [e | [args flags]]]; cbn in *;
      rewrite Hv; exact IH.
  - rewrite Hv. reflexivity.
Qed.

Lemma fix_source_unvalued (sb : Init.StateBlock) :
  unvalued (fst (Init.fix_source sb)) = unvalued sb.
Proof.
  induction sb as [| [k pm] sb IH]; [reflexivity |].
  destruct pm as [v | ms]; cbn.
  - destruct (Init.value v) as [x |] eqn:Hv; cbn.
    + destruct (Init.fix_source sb) as [sb' [e | [args flags]]]; cbn in *;
        rewrite Hv; f_equal; exact IH.
    + rewrite Hv. reflexivity.
  - pose proof (fix_members_unvalued ms) as Hms.
    destruct (Init.fix_members ms) as [ms' [e | [args flags]]];
      change (unvalued_members ms' = unvalued_members ms) in Hms.
    + cbn. rewrite Hms. reflexivity.
    + destruct (Init.fix_source sb) as [sb' [e | [args' flags']]];
        change (unvalued sb' = unvalued sb) in IH;
        cbn; rewrite Hms; f_equal; exact IH.
Qed.

Lemma block_get_set {V} (d : list (key * V)) (k : key) (v v' : V) :
  block_get d k = Some v → block_get (Init.block_set d k v') k = Some v'.
Proof.
  induction d as [| [k0 v0] d IH]; cbn; [discriminate |].
  destruct (key_eqb k0 k) eqn:Hk; cbn; rewrite Hk; [reflexivity | exact IH].
Qed.

Lemma read_state_args_None (sb : Init.StateBlock) :
  args_have_None (Init.read_state_args sb) = Init.has_None sb.
Proof.
  unfold args_have_None, Init.has_None, Init.read_state_args.
  induction sb as [| [k pm] sb IH]; [reflexivity |].
  cbn. rewrite IH. f_equal.
  destruct pm as [v | ms]; cbn.
  - destruct (Init.value v); reflexivity.
  - induction ms as [| [m v] ms IHm]; [reflexivity |].
    cbn. rewrite IHm. reflexivity.
Qed.

(** C9, as stated, fails for the 0-D control volume: with an inlet state
    variable that has no value and no [state_args], [initialize] raises
    nothing at the read; it passes the None on and returns. *)
Lemma initialize0_accepts_missing_value :
  Init.has_None sb_unvalued = true
  ∧ ∃ w' flags,
      Init.initialize0 (Init.std_package (inr tt)) None true
        (world0 sb_unvalued false) = (w', inr flags).
Proof. split; [reflexivity |]. vm_compute. eexists _, _. reflexivity. Qed.

(** C9, amended: called without [state_args], the 1-D [initialize] raises
    an Exception as soon as it meets a source state variable with no value,
    before any package routine runs, and leaves every such variable's fixed
    flag as it was; the 0-D [initialize] has no such check: it behaves
    exactly as if it had been given the values read off the inlet state
    variables, None included, as [state_args]. *)
Theorem initialize_without_state_args (pkg : Init.Package) (hold_state : bool) :
  (∀ (w : Init.World) (k : key) (props : Init.Collection)
     (source : Init.StateBlock),
     Init.source_key w = (w, inr k) →
     Init.w_blocks w !! "properties" = Some props →
     block_get props k = Some source →
     Init.has_None source = true →
     ∃ w' source',
       Init.initialize1 pkg None hold_state w = (w', inl PyException)
       ∧ block_get (collection_of w' "properties") k = Some source'
       ∧ unvalued source' = unvalued source)
  ∧ (∀ (w : Init.World) (pin : Init.Collection) (t0 : Q) (T : list Q)
       (inlet : Init.StateBlock),
       Init.w_blocks w !! "properties_in" = Some pin →
       Init.w_time w = t0 :: T →
       block_get pin [INum t0] = Some inlet →
       Init.initialize0 pkg None hold_state w
       = Init.initialize0 pkg (Some (Init.read_state_args inlet))
           hold_state w
       ∧ args_have_None (Init.read_state_args inlet) = Init.has_None inlet).
Proof.
  split.
  - intros w k props source Hk Hprops Hsrc Hnone.
    exists (Init.with_blocks
              <["properties" :=
                  Init.block_set props k (fst (Init.fix_source source))]> w),
           (fst (Init.fix_source source)).
    split; [| split].
    + unfold Init.initialize1.
      apply I_bind_raise. unfold Init.on_source.
      rewrite (I_bind_ok _ _ _ _ _ Hk).
      rewrite (I_bind_ok _ _ _ _ _ (get_collection_ok _ _ _ Hprops)).
      unfold Init.block_at. rewrite Hsrc.
      erewrite I_bind_ok by reflexivity.
      pose proof (fix_source_raises source Hnone) as Hr.
      destruct (Init.fix_source source) as [source' r]; cbn in Hr |- *.
      subst r. reflexivity.
    + unfold collection_of. rewrite blocks_with_blocks, lookup_insert_eq.
      cbn [default]. exact (block_get_set _ _ _ _ Hsrc).
    + apply fix_source_unvalued.
  - intros w pin t0 T inlet Hin HT Hsb. split.
    + assert (Hread :
        (pin <- Init.get_collection "properties_in" ;;
         t0 <- Init.first_of (Init.w_time w) ;;
         state_dict <- Init.block_at pin [INum t0] ;;
         ret (Init.read_state_args state_dict) : Init.I Init.StateArgs) w
        = (w, inr (Init.read_state_args inlet))).
      { rewrite (I_bind_ok _ _ _ _ _ (get_collection_ok _ _ _ Hin)), HT.
        cbn [Init.first_of]. erewrite I_bind_ok by reflexivity.
        unfold Init.block_at. rewrite Hsb.
        erewrite I_bind_ok by reflexivity. reflexivity. }
      unfold Init.initialize0.
      rewrite !(I_bind_ok Init.world _ w w w eq_refl).
      rewrite (I_bind_ok _ _ _ _ _ Hread).
      symmetry. erewrite I_bind_ok by reflexivity. reflexivity.
    + apply read_state_args_None.
Qed.

Lemma initialize_without_state_args_witness :
  (∃ w' source',
     Init.initialize1 (Init.std_package (inr tt)) None true
       (world1 sb_unvalued) = (w', inl PyException)
     ∧ block_get (collection_of w' "properties") [INum 0; INum 0]
       = Some source'
     ∧ unvalued source' = unvalued sb_unvalued)
  ∧ Init.initialize0 (Init.std_package (inr tt)) None true
      (world0 sb_unvalued false)
    = Init.initialize0 (Init.std_package (inr tt))
        (Some (Init.read_state_args sb_unvalued)) true
        (world0 sb_unvalued false).
Proof.
  destruct (initialize_without_state_args (Init.std_package (inr tt)) true)
    as [H1 H0].
  split.
  - apply (H1 (world1 sb_unvalued) [INum 0; INum 0]
              [([INum 0; INum 0], sb_unvalued); ([INum 0; INum 1], sb_valued)]
              sb_unvalued); reflexivity.
  - apply (H0 (world0 sb_unvalued false) [([INum 0], sb_unvalued)] 0%Q []
              sb_unvalued); reflexivity.
Defined.

(** ** Rules: evaluation lemmas *)

Lemma R_bind_ok {A B} (m : R A) (f : A → R B) b a :
  m b = inr a → (x <- m ;; f x) b = f a b.
Proof.
  intros H. cbn [bind R_monad]. unfold R_bind. rewrite H. reflexivity.
Qed.

Lemma R_bind_raise {A B} (m : R A) (f : A → R B) b e :
  m b = inl e → (x <- m ;; f x) b = inl e.
Proof.
  intros H. cbn [bind R_monad]. unfold R_bind. rewrite H. reflexivity.
Qed.

Lemma R_bind_inv {A B} (m : R A) (f : A → R B) b r :
  (x <- m ;; f x) b = inr r → ∃ a, m b = inr a ∧ f a b = inr r.
Proof.
  cbn [bind R_monad]. unfold R_bind.
  destruct (m b) as [e | a]; [discriminate | eauto].
Qed.

Lemma mapR_ok {I A} (f : I → R A) (g : I → A) (l : list I) b :
  (∀ i, In i l → f i b = inr (g i)) → mapR f l b = inr (map g l).
Proof.
  induction l as [| i l IH]; intros H; [reflexivity |].
  cbn [mapR map].
  rewrite (R_bind_ok _ _ _ _ (H i (or_introl eq_refl))).
  rewrite (R_bind_ok _ _ _ _ (IH (λ i' Hi', H i' (or_intror Hi')))).
  reflexivity.
Qed.

Lemma ref_ok (comp : string) (k : key) b :
  is_Some (components b !! comp) → ref comp k b = inr (ERef comp k).
Proof.
  intros [c Hc]. unfold ref, getattr. cbn [bind R_monad]. unfold R_bind.
  rewrite Hc. reflexivity.
Qed.

Lemma ref_inv (comp : string) (k : key) b e :
  ref comp k b = inr e → e = ERef comp k ∧ is_Some (components b !! comp).
Proof.
  unfold ref, getattr. cbn [bind R_monad]. unfold R_bind.
  destruct (components b !! comp) as [c |]; [| discriminate].
  cbn. intros [= <-]. eauto.
Qed.

(** ** Dictionaries keyed by an index coordinate *)

Lemma idx_eqb_refl (a : idx) : idx_eqb a a = true.
Proof.
  destruct a as [q | s]; cbn; [apply Qeq_bool_refl | apply String.eqb_refl].
Qed.

Lemma idx_eqb_sym (a b : idx) : idx_eqb a b = idx_eqb b a.
Proof.
  destruct a as [q | s], b as [q' | s']; cbn; try reflexivity.
  - destruct (Qeq_bool q q') eqn:H1, (Qeq_bool q' q) eqn:H2; try reflexivity.
    + apply Qeq_bool_sym in H1. congruence.
    + apply Qeq_bool_sym in H2. congruence.
  - apply String.eqb_sym.
Qed.

Lemma idx_eqb_trans (a b c : idx) :
  idx_eqb a b = true → idx_eqb b c = true → idx_eqb a c = true.
Proof.
  destruct a as [q | s], b as [q' | s'], c as [q'' | s'']; cbn;
    try discriminate.
  - apply Qeq_bool_trans.
  - intros H1%String.eqb_eq H2%String.eqb_eq. subst. apply String.eqb_refl.
Qed.

Lemma idx_eqb_cong (a b c : idx) :
  idx_eqb a b = true → idx_eqb a c = idx_eqb b c.
Proof.
  intros Hab.
  destruct (idx_eqb a c) eqn:Hac, (idx_eqb b c) eqn:Hbc; try reflexivity.
  - rewrite idx_eqb_sym in Hab.
    rewrite (idx_eqb_trans _ _ _ Hab Hac) in Hbc. discriminate.
  - rewrite (idx_eqb_trans _ _ _ Hab Hbc) in Hac. discriminate.
Qed.

Lemma dict_get_proper {V} (d : list (idx * V)) (a b : idx) :
  idx_eqb a b = true → dict_get d a = dict_get d b.
Proof.
  intros Hab. induction d as [| [k v] d IH]; [reflexivity |].
  cbn. rewrite (idx_eqb_sym k a), (idx_eqb_sym k b),
    (idx_eqb_cong _ _ _ Hab), IH.
  reflexivity.
Qed.

Lemma dict_get_set {V} (d : list (idx * V)) (k q : idx) (v : V) :
  dict_get (dict_set d k v) q
  = if idx_eqb k q then Some v else dict_get d q.
Proof.
  induction d as [| [k' v'] d IH]; cbn; [reflexivity |].
  destruct (idx_eqb k' k) eqn:Hk; cbn.
  - rewrite (idx_eqb_cong _ _ q Hk). destruct (idx_eqb k q); reflexivity.
  - rewrite IH. destruct (idx_eqb k' q) eqn:Hq; [| reflexivity].
    destruct (idx_eqb k q) eqn:Hkq; [| reflexivity].
    rewrite (idx_eqb_sym k q) in Hkq.
    rewrite (idx_eqb_trans _ _ _ Hq Hkq) in Hk. discriminate.
Qed.

Lemma signed_indicator_proper (pp : PropertyPackage) (a b : idx)
    (p j : string) :
  idx_eqb a b = true → signed_indicator pp a p j = signed_indicator pp b p j.
Proof.
  intros H. unfold signed_indicator. rewrite (dict_get_proper _ _ _ H).
  reflexivity.
Qed.

(** The loop that fills [sd] returns, and leaves at every reaction index it
    visited the signed indicator of that reaction. *)
Lemma fill_sd_spec (pp : PropertyPackage) (p j : string) (rs : list idx)
    (sd : list (idx * Z)) (b : ControlVolume) :
  (∀ r, In r rs → is_Some (dict_get (phase_equilibrium_list pp) r)) →
  ∃ sd', CV0D.fill_sd (phase_equilibrium_list pp) p j rs sd b = inr sd'
    ∧ ∀ q, dict_get sd' q
           = if existsb (λ r, idx_eqb r q) rs
             then Some (signed_indicator pp q p j)
             else dict_get sd q.
Proof.
  revert sd. induction rs as [| r rs IH]; intros sd Hrs.
  - exists sd. split; reflexivity.
  - destruct (Hrs r (or_introl eq_refl)) as [[c [pa pb]] Hr].
    cbn [CV0D.fill_sd]. unfold dict_lookup at 1. rewrite Hr.
    erewrite R_bind_ok by reflexivity. cbn [fst snd].
    destruct (IH (dict_set sd r
                    (if String.eqb c j
                     then if String.eqb pa p then 1%Z
                          else if String.eqb pb p then (-1)%Z else 0%Z
                     else 0%Z))
                 (λ r' Hr', Hrs r' (or_intror Hr'))) as (sd' & Hsd' & Hget).
    exists sd'. split; [exact Hsd' |].
    intros q. rewrite Hget. cbn [existsb].
    destruct (existsb (λ r0, idx_eqb r0 q) rs);
      [rewrite orb_true_r; reflexivity |].
    rewrite orb_false_r, dict_get_set.
    destruct (idx_eqb r q) eqn:Hq; [| reflexivity].
    rewrite <- (signed_indicator_proper pp r q p j Hq).
    unfold signed_indicator. rewrite Hr. reflexivity.
Qed.

Lemma existsb_idx_eqb_In (rs : list idx) (r : idx) :
  In r rs → existsb (λ r0, idx_eqb r0 r) rs = true.
Proof.
  intros H. apply existsb_exists. exists r. split; [exact H |].
  apply idx_eqb_refl.
Qed.

(** ** The phase-equilibrium generation term *)

(** C5: in component-phase material balances with phase equilibrium
    enabled, the phase-equilibrium term for phase [p] and component [j] at a
    domain point is the sum, over all phase-equilibrium reaction indices
    [r], of [phase_equilibrium_generation] at that point and [r] times the
    signed indicator of [r] (+1 when the reaction's component is [j] and
    [p] is the first phase of its pair, -1 when [p] is the second, 0
    otherwise); this holds for the 0-D and the 1-D control volume. *)
Theorem phase_equilibrium_term_signed_sum (b : ControlVolume)
    (rs : list idx) (t x : Q) (p j : string) :
  let pp := cfg_property_package b in
  phase_equilibrium_idx pp = Some rs →
  (∀ r, In r rs → is_Some (dict_get (phase_equilibrium_list pp) r)) →
  is_Some (components b !! "phase_equilibrium_generation") →
  CV0D.phase_equilibrium_term true componentPhase t p j b
  = inr (py_sum (map (λ r, ERef "phase_equilibrium_generation" [INum t; r]
                           * ENum (inject_Z (signed_indicator pp r p j)))%E
                     rs))
  ∧ CV1D.phase_equilibrium_term true componentPhase t x p j b
    = inr (py_sum (map (λ r, ERef "phase_equilibrium_generation"
                               [INum t; INum x; r]
                             * ENum (inject_Z (signed_indicator pp r p j)))%E
                       rs)).
Proof.
  intros pp Hidx Hlist Hvar.
  destruct (fill_sd_spec pp p j rs [] b Hlist) as (sd & Hsd & Hget).
  assert (Hlookup : ∀ r, In r rs →
            dict_lookup sd r b = inr (signed_indicator pp r p j)).
  { intros r Hr. unfold dict_lookup.
    rewrite Hget, (existsb_idx_eqb_In _ _ Hr). reflexivity. }
  split.
  - unfold CV0D.phase_equilibrium_term.
    erewrite R_bind_ok by reflexivity. fold pp. rewrite Hidx.
    erewrite R_bind_ok by reflexivity.
    rewrite (R_bind_ok _ _ _ _ Hsd).
    erewrite R_bind_ok by reflexivity.
    erewrite R_bind_ok; [reflexivity |].
    apply mapR_ok. intros r Hr.
    rewrite (R_bind_ok _ _ _ _ (ref_ok _ _ _ Hvar)).
    rewrite (R_bind_ok _ _ _ _ (Hlookup r Hr)). reflexivity.
  - unfold CV1D.phase_equilibrium_term.
    erewrite R_bind_ok by reflexivity. fold pp. rewrite Hidx.
    erewrite R_bind_ok by reflexivity.
    rewrite (R_bind_ok _ _ _ _ Hsd).
    erewrite R_bind_ok by reflexivity.
    erewrite R_bind_ok; [reflexivity |].
    apply mapR_ok. intros r Hr.
    rewrite (R_bind_ok _ _ _ _ (ref_ok _ _ _ Hvar)).
    rewrite (R_bind_ok _ _ _ _ (Hlookup r Hr)). reflexivity.
Qed.

Lemma phase_equilibrium_term_signed_sum_witness :
  CV0D.phase_equilibrium_term true componentPhase 0 "Vap" "a" block_pe
  = inr (ENum 0
         + ERef "phase_equilibrium_generation" [INum 0; IStr "PE1"]
           * ENum (inject_Z (-1))
         + ERef "phase_equilibrium_generation" [INum 0; IStr "PE2"]
           * ENum (inject_Z 0))%E
  ∧ CV1D.phase_equilibrium_term true componentPhase 0 1 "Liq" "b" block_pe
    = inr (ENum 0
           + ERef "phase_equilibrium_generation" [INum 0; INum 1; IStr "PE1"]
             * ENum (inject_Z 0)
           + ERef "phase_equilibrium_generation" [INum 0; INum 1; IStr "PE2"]
             * ENum (inject_Z 1))%E.
Proof.
  assert (Hlist : ∀ r, In r [IStr "PE1"; IStr "PE2"] →
            is_Some (dict_get (phase_equilibrium_list
                                 (cfg_property_package block_pe)) r)).
  { intros r [<- | [<- | []]]; eexists; reflexivity. }
  assert (Hvar : is_Some (components block_pe
                            !! "phase_equilibrium_generation")).
  { eexists. reflexivity. }
  split.
  - exact (proj1 (phase_equilibrium_term_signed_sum block_pe
                    [IStr "PE1"; IStr "PE2"] 0 0 "Vap" "a" eq_refl Hlist
                    Hvar)).
  - exact (proj2 (phase_equilibrium_term_signed_sum block_pe
                    [IStr "PE1"; IStr "PE2"] 0 1 "Liq" "b" eq_refl Hlist
                    Hvar)).
Defined.


(** ** Methods: evaluation and framing lemmas *)

Lemma M_bind_ok {A B} (m : M A) (f : A → M B) b b1 a :
  m b = (b1, inr a) → (x <- m ;; f x) b = f a b1.
Proof.
  intros H. cbn [bind M_monad]. unfold M_bind. rewrite H. reflexivity.
Qed.

Lemma M_bind_inv {A B} (m : M A) (f : A → M B) b b' r :
  (x <- m ;; f x) b = (b', inr r) →
  ∃ a b1, m b = (b1, inr a) ∧ f a b1 = (b', inr r).
Proof.
  cbn [bind M_monad]. unfold M_bind.
  destruct (m b) as [b1 [e | a]]; [discriminate | eauto].
Qed.

Lemma lift_inv {A} (r : R A) b b' a :
  lift r b = (b', inr a) → b' = b ∧ r b = inr a.
Proof. unfold lift. intros [= <- H]. auto. Qed.

Lemma setattr_inv (n : string) (c : component) b b' u :
  setattr n c b = (b', inr u) → b' = with_components <[n := c]> b.
Proof. unfold setattr. intros [= <-]. reflexivity. Qed.

Lemma extends_refl N b : extends N b b.
Proof. split; auto. Qed.

Lemma extends_trans N1 N2 b b1 b2 :
  extends N1 b b1 → extends N2 b1 b2 → extends (N1 ++ N2) b b2.
Proof.
  intros [C1 F1 G1] [C2 F2 G2]. split.
  - congruence.
  - intros n Hn. rewrite F2, F1; [reflexivity | |];
      intros Hin; apply Hn, in_app_iff; auto.
  - auto.
Qed.

Lemma extends_weaken N N' b b' :
  (∀ n, In n N → In n N') → extends N b b' → extends N' b b'.
Proof. intros Hi [C F G]. split; auto. Qed.

Lemma extends_insert n c b :
  extends [n] b (with_components <[n := c]> b).
Proof.
  split.
  - reflexivity.
  - intros n' Hn. cbn. apply lookup_insert_ne. intros ->. apply Hn. left.
    reflexivity.
  - intros n' Hs. cbn. rewrite lookup_insert. case_decide; eauto.
Qed.

Lemma modifies_weaken {A} N N' (m : M A) b :
  (∀ n, In n N → In n N') → modifies N m b → modifies N' m b.
Proof. intros Hi Hm b' r H. eapply extends_weaken; eauto. Qed.

Lemma modifies_ret {A} (a : A) b : modifies [] (ret a : M A) b.
Proof. intros b' r [= <- _]. apply extends_refl. Qed.

Lemma modifies_raise {A} (e : exn) b : modifies [] (M_raise e : M A) b.
Proof. intros b' r [= <- _]. apply extends_refl. Qed.

Lemma modifies_lift {A} (m : R A) b : modifies [] (lift m) b.
Proof. intros b' r [= <- _]. apply extends_refl. Qed.

Lemma modifies_setattr n c b : modifies [n] (setattr n c) b.
Proof. intros b' r [= <- _]. apply extends_insert. Qed.

Lemma modifies_bind {A B} N1 N2 (m : M A) (f : A → M B) b :
  modifies N1 m b →
  (∀ a b1, m b = (b1, inr a) → modifies N2 (f a) b1) →
  modifies (N1 ++ N2) (x <- m ;; f x) b.
Proof.
  intros Hm Hf b' r. cbn [bind M_monad]. unfold M_bind.
  destruct (m b) as [b1 [e | a]] eqn:Hmb.
  - intros [= <- _]. eapply extends_weaken; [| exact (Hm _ _ Hmb)].
    intros n Hn. apply in_app_iff. auto.
  - intros H. eapply extends_trans; [exact (Hm _ _ Hmb) |].
    exact (Hf a b1 eq_refl _ _ H).
Qed.

Lemma modifies_bind_self {B} N (f : ControlVolume → M B) b :
  modifies N (f b) b → modifies N (x <- self ;; f x) b.
Proof. intros Hf b' r H. exact (Hf _ _ H). Qed.

Lemma modifies_when N (c : bool) (body : M unit) b :
  modifies N body b → modifies (if c then N else []) (when c body) b.
Proof.
  intros Hb. destruct c; [exact Hb |]. apply (modifies_ret tt).
Qed.

Lemma modifies_when_weak N (c : bool) (body : M unit) b :
  modifies N body b → modifies N (when c body) b.
Proof.
  intros Hb. destruct c; [exact Hb |].
  eapply modifies_weaken; [| apply (modifies_ret tt)]. intros n [].
Qed.

Lemma modifies_Constraint {I} n (index : list I) to_key rule b :
  modifies [n] (Constraint n index to_key rule) b.
Proof.
  unfold Constraint.
  apply (modifies_bind [] [n]); [apply modifies_lift |].
  intros. apply modifies_setattr.
Qed.

Lemma modifies_Expression {I} n (index : list I) to_key rule b :
  modifies [n] (Expression n index to_key rule) b.
Proof.
  unfold Expression.
  apply (modifies_bind [] [n]); [apply modifies_lift |].
  intros. apply modifies_setattr.
Qed.

Lemma modifies_DerivativeVar n sVar wrt b :
  modifies [n] (DerivativeVar n sVar wrt) b.
Proof.
  unfold DerivativeVar.
  apply (modifies_bind [] [n]); [apply modifies_lift |].
  intros. apply modifies_setattr.
Qed.

Lemma modifies_0d_add_phase_fractions b :
  modifies ["phase_fraction"; "sum_of_phase_fractions"]
           CV0D._add_phase_fractions b.
Proof.
  unfold CV0D._add_phase_fractions. apply modifies_bind_self. cbv zeta.
  destruct (1 <? length (phase_list (cfg_property_package b)))%nat.
  - apply (modifies_bind ["phase_fraction"] ["sum_of_phase_fractions"]);
      [apply modifies_setattr |].
    intros. apply modifies_Constraint.
  - eapply modifies_weaken; [| apply modifies_Expression].
    intros n [<- | []]. left. reflexivity.
Qed.

Lemma modifies_1d_add_phase_fractions b :
  modifies ["phase_fraction"; "sum_of_phase_fractions"]
           CV1D._add_phase_fractions b.
Proof.
  unfold CV1D._add_phase_fractions. apply modifies_bind_self. cbv zeta.
  apply (modifies_bind [] ["phase_fraction"; "sum_of_phase_fractions"]);
    [apply modifies_lift |].
  intros ld b1 _.
  destruct (1 <? length (phase_list (cfg_property_package b)))%nat.
  - apply (modifies_bind ["phase_fraction"] ["sum_of_phase_fractions"]);
      [apply modifies_setattr |].
    intros. apply modifies_Constraint.
  - eapply modifies_weaken; [| apply modifies_Expression].
    intros n [<- | []]. left. reflexivity.
Qed.

(** Derive [modifies ?N m b] by following the structure of [m]. *)
Ltac solve_modifies :=
  lazymatch goal with
  | |- modifies _ (bind self _) _ =>
      apply modifies_bind_self; cbv beta zeta; solve_modifies
  | |- modifies _ (bind _ _) _ =>
      eapply modifies_bind; [solve_modifies | intros ? ? _; solve_modifies]
  | |- modifies _ (when (negb _) _) _ =>
      apply modifies_when_weak; solve_modifies
  | |- modifies _ (when _ _) _ => apply modifies_when; solve_modifies
  | |- modifies _ (ret _) _ => apply modifies_ret
  | |- modifies _ (M_raise _) _ => apply modifies_raise
  | |- modifies _ (lift _) _ => apply modifies_lift
  | |- modifies _ (setattr _ _) _ => apply modifies_setattr
  | |- modifies _ (Constraint _ _ _ _) _ => apply modifies_Constraint
  | |- modifies _ (Expression _ _ _ _) _ => apply modifies_Expression
  | |- modifies _ (DerivativeVar _ _ _) _ => apply modifies_DerivativeVar
  | |- modifies _ CV0D._add_phase_fractions _ =>
      apply modifies_0d_add_phase_fractions
  | |- modifies _ CV1D._add_phase_fractions _ =>
      apply modifies_1d_add_phase_fractions
  end.

(** One step along a method that returned: split off the first command of
    [H], and extend the frame fact [E] over it. *)
Ltac walk H E :=
  let a := fresh "a" in
  let b1 := fresh "b" in
  let Hs := fresh "Hs" in
  let E1 := fresh "E" in
  apply M_bind_inv in H as (a & b1 & Hs & H);
  cbv beta in H;
  match type of Hs with
  | ?m ?b0 = _ =>
      assert (E1 : extends _ b0 b1)
        by (refine ((_ : modifies _ m b0) _ _ Hs); solve_modifies)
  end;
  let E2 := fresh "E" in
  pose proof (extends_trans _ _ _ _ _ E E1) as E2;
  clear E E1; rename E2 into E.

(** ** Declarations *)

Lemma omap_all_Some {I B} (to_key : I → key) (g : I → B) (l : list I) :
  omap (λ kr : key * option B, pair (fst kr) <$> snd kr)
       (map (λ i, (to_key i, Some (g i))) l)
  = map (λ i, (to_key i, g i)) l.
Proof.
  induction l as [| i l IH]; [reflexivity |]. cbn. rewrite IH. reflexivity.
Qed.

Lemma build_indexed_total {I B} (index : list I) (to_key : I → key)
    (rule : I → R (option B)) (g : I → B) b :
  (∀ i, In i index → rule i b = inr (Some (g i))) →
  build_indexed index to_key rule b
  = inr (map (λ i, (to_key i, g i)) index).
Proof.
  intros H. unfold build_indexed.
  erewrite R_bind_ok.
  2:{ apply (mapR_ok _ (λ i, (to_key i, Some (g i)))).
      intros i Hi. rewrite (R_bind_ok _ _ _ _ (H i Hi)). reflexivity. }
  cbn [ret R_monad]. unfold R_ret. rewrite omap_all_Some. reflexivity.
Qed.

Lemma Constraint_total {I} n (index : list I) (to_key : I → key) rule g b :
  (∀ i, In i index → rule i b = inr (Some (g i))) →
  Constraint n index to_key rule b
  = (with_components
       <[n := CConstraint (map (λ i, (to_key i, g i)) index)]> b, inr tt).
Proof.
  intros H. unfold Constraint.
  erewrite M_bind_ok; [reflexivity |].
  unfold lift. rewrite (build_indexed_total _ _ _ _ _ H). reflexivity.
Qed.

Lemma Expression_total {I} n (index : list I) (to_key : I → key) rule g b :
  (∀ i, In i index → rule i b = inr (g i)) →
  Expression n index to_key rule b
  = (with_components
       <[n := CExpression (map (λ i, (to_key i, g i)) index)]> b, inr tt).
Proof.
  intros H. unfold Expression.
  erewrite M_bind_ok; [reflexivity |].
  unfold lift. erewrite build_indexed_total; [reflexivity |].
  intros i Hi. rewrite (R_bind_ok _ _ _ _ (H i Hi)). reflexivity.
Qed.

Lemma index_with_phase {I} (L : list I) (P : list string) (kI : I → key) :
  map (λ i : I * string, kI (fst i) ++ [IStr (snd i)]) (list_prod L P)
  = flat_map (λ pt, map (λ p, pt ++ [IStr p]) P) (map kI L).
Proof.
  induction L as [| i L IH]; [reflexivity |].
  cbn [list_prod map flat_map]. rewrite map_app, IH, map_map. reflexivity.
Qed.

Lemma map_with_phase {I B} (L : list I) (P : list string) (kI : I → key)
    (g : key → B) :
  map (λ i : I * string, (kI (fst i) ++ [IStr (snd i)],
                          g (kI (fst i) ++ [IStr (snd i)])))
      (list_prod L P)
  = flat_map (λ pt, map (λ p, (pt ++ [IStr p], g (pt ++ [IStr p]))) P)
             (map kI L).
Proof.
  induction L as [| i L IH]; [reflexivity |].
  cbn [list_prod map flat_map]. rewrite map_app, IH, map_map. reflexivity.
Qed.

Lemma lookup_setattr n c b :
  components (with_components <[n := c]> b) !! n = Some c.
Proof. cbn. apply lookup_insert_eq. Qed.

Lemma length_domain_lift b ld :
  CV1D.length_domain b = inr ld → lift CV1D.length_domain b = (b, inr ld).
Proof. intros H. unfold lift. rewrite H. reflexivity. Qed.

(** ** Phase fractions *)

(** C4: with exactly one phase, the phase-fraction routine attaches
    [phase_fraction] as a named expression whose value is the constant 1 at
    every domain point and phase, and nothing else (no variable, no
    constraint); with more than one phase it attaches a variable indexed by
    domain point and phase, initialized to 1/(number of phases), and a
    constraint with exactly one equation per domain point,
    [1 == sum of the phase fractions at that point].  The same holds for the
    0-D and the 1-D control volume. *)
Theorem phase_fractions_by_phase_count (v : variant_) (b : ControlVolume)
    (ld : list Q) :
  (v = OneD → CV1D.length_domain b = inr ld) →
  let phases := phase_list (cfg_property_package b) in
  let pts := domain_points v b ld in
  (length phases = 1%nat →
   add_phase_fractions v b
   = (with_components
        <["phase_fraction" :=
            CExpression
              (flat_map (λ pt, map (λ p, (pt ++ [IStr p], ENum 1)) phases)
                        pts)]> b,
      inr tt))
  ∧ ((1 < length phases)%nat →
     add_phase_fractions v b
     = (with_components
          (λ cs,
             <["sum_of_phase_fractions" :=
                 CConstraint
                   (map (λ pt,
                      (pt, (ENum 1 ==
                            py_sum (map (λ p, ERef "phase_fraction"
                                                   (pt ++ [IStr p]))
                                        phases))%E)) pts)]>
               (<["phase_fraction" :=
                    CVar (flat_map (λ pt, map (λ p, pt ++ [IStr p]) phases)
                                   pts)
                         (1 / inject_Z (Z.of_nat (length phases)))]> cs))
          b,
        inr tt)).
Proof.
  intros Hld phases pts. split; intros Hn.
  - assert (Hlt : (1 <? length phases)%nat = false)
      by (apply Nat.ltb_ge; lia).
    destruct v; cbn [add_phase_fractions domain_points] in *.
    + unfold CV0D._add_phase_fractions.
      erewrite M_bind_ok by reflexivity. cbv zeta. fold phases.
      rewrite Hlt.
      rewrite (Expression_total _ _ _ _ (λ _, ENum 1))
        by (intros; reflexivity).
      subst pts.
      rewrite <- (map_with_phase (time b) phases k_t (λ _, ENum 1)).
      reflexivity.
    + unfold CV1D._add_phase_fractions.
      erewrite M_bind_ok by reflexivity. cbv zeta. fold phases.
      rewrite (M_bind_ok _ _ _ _ _ (length_domain_lift _ _ (Hld eq_refl))).
      rewrite Hlt.
      rewrite (Expression_total _ _ _ _ (λ _, ENum 1))
        by (intros; reflexivity).
      subst pts.
      rewrite <- (map_with_phase (list_prod (time b) ld) phases k_tx
                    (λ _, ENum 1)).
      reflexivity.
  - assert (Hlt : (1 <? length phases)%nat = true)
      by (apply Nat.ltb_lt; lia).
    destruct v; cbn [add_phase_fractions domain_points] in *.
    + unfold CV0D._add_phase_fractions.
      erewrite M_bind_ok by reflexivity. cbv zeta. fold phases.
      rewrite Hlt.
      erewrite M_bind_ok by reflexivity.
      rewrite (Constraint_total _ _ _ _
                 (λ t, (ENum 1 ==
                        py_sum (map (λ p, ERef "phase_fraction"
                                               (k_t t ++ [IStr p]))
                                    phases))%E)).
      2:{ intros t _.
          erewrite R_bind_ok; [reflexivity |].
          apply mapR_ok. intros p _. apply ref_ok.
          rewrite lookup_setattr. eauto. }
      subst pts. rewrite map_map.
      rewrite <- (index_with_phase (time b) phases k_t).
      reflexivity.
    + unfold CV1D._add_phase_fractions.
      erewrite M_bind_ok by reflexivity. cbv zeta. fold phases.
      rewrite (M_bind_ok _ _ _ _ _ (length_domain_lift _ _ (Hld eq_refl))).
      rewrite Hlt.
      erewrite M_bind_ok by reflexivity.
      rewrite (Constraint_total _ _ _ _
                 (λ i, (ENum 1 ==
                        py_sum (map (λ p, ERef "phase_fraction"
                                               (k_tx i ++ [IStr p]))
                                    phases))%E)).
      2:{ intros i _.
          erewrite R_bind_ok; [reflexivity |].
          apply mapR_ok. intros p _. apply ref_ok.
          rewrite lookup_setattr. eauto. }
      subst pts. rewrite map_map.
      rewrite <- (index_with_phase (list_prod (time b) ld) phases k_tx).
      reflexivity.
Qed.

Lemma phase_fractions_by_phase_count_witness :
  ∃ b', add_phase_fractions OneD (block_1d false false pp_vle "BACKWARD")
        = (b', inr tt)
        ∧ components b' !! "phase_fraction"
          = Some (CVar
                    (flat_map (λ pt, [pt ++ [IStr "Liq"]; pt ++ [IStr "Vap"]])
                       [[INum 0; INum 0]; [INum 0; INum (1 # 2)];
                        [INum 0; INum 1]])
                    (1 / 2)).
Proof.
  pose proof (proj2 (phase_fractions_by_phase_count OneD
                       (block_1d false false pp_vle "BACKWARD")
                       [0%Q; (1 # 2)%Q; 1%Q] (λ _, eq_refl))
                    ltac:(vm_compute; lia)) as H.
  eexists. split; [exact H |]. reflexivity.
Defined.


(** ** Inversion of declarations *)

Lemma mapR_inv {I A} (f : I → R A) (l : list I) b rs :
  mapR f l b = inr rs → Forall2 (λ i r, f i b = inr r) l rs.
Proof.
  revert rs. induction l as [| i l IH]; intros rs H.
  - injection H as <-. constructor.
  - cbn [mapR] in H.
    apply R_bind_inv in H as (a & Ha & H).
    apply R_bind_inv in H as (r & Hr & H).
    injection H as <-. constructor; auto.
Qed.

Lemma build_indexed_inv {I B} (index : list I) (to_key : I → key)
    (rule : I → R (option B)) b body :
  build_indexed index to_key rule b = inr body →
  ∃ rs, Forall2 (λ i r, rule i b = inr r) index rs
        ∧ body = omap (λ ir : I * option B, pair (to_key (fst ir)) <$> snd ir)
                      (combine index rs).
Proof.
  unfold build_indexed. intros H.
  apply R_bind_inv in H as (krs & Hk & H). injection H as <-.
  apply mapR_inv in Hk.
  revert krs Hk. induction index as [| i index IH]; intros krs Hk.
  - inversion Hk; subst. exists []. split; [constructor | reflexivity].
  - inversion Hk as [| ? kr ? krs' Hi Hrest]; subst.
    apply R_bind_inv in Hi as (r & Hr & Hi). injection Hi as <-.
    destruct (IH _ Hrest) as (rs & Hrs & Hbody).
    exists (r :: rs). split; [constructor; assumption |].
    cbn. rewrite Hbody. reflexivity.
Qed.

Lemma Constraint_inv {I} n (index : list I) (to_key : I → key) rule b b' u :
  Constraint n index to_key rule b = (b', inr u) →
  ∃ body, build_indexed index to_key rule b = inr body
          ∧ b' = with_components <[n := CConstraint body]> b.
Proof.
  unfold Constraint. intros H.
  apply M_bind_inv in H as (body & b1 & Hb & H).
  apply lift_inv in Hb as [-> Hb]. apply setattr_inv in H.
  eauto.
Qed.

(** An equation of the declared body comes from the rule at some index. *)
Lemma body_In_inv {I B} (index : list I) (to_key : I → key)
    (rule : I → R (option B)) b rs k e :
  Forall2 (λ i r, rule i b = inr r) index rs →
  In (k, e) (omap (λ ir : I * option B, pair (to_key (fst ir)) <$> snd ir)
                  (combine index rs)) →
  ∃ i, In i index ∧ to_key i = k ∧ rule i b = inr (Some e).
Proof.
  induction 1 as [| i r index rs Hi Hrest IH]; cbn; [intros [] |].
  destruct r as [e' |]; cbn.
  - intros [[= <- <-] | Hin]; [exists i; auto |].
    destruct (IH Hin) as (i' & ? & ? & ?). exists i'; auto.
  - intros Hin. destruct (IH Hin) as (i' & ? & ? & ?). exists i'; auto.
Qed.

(** An index at which the rule returned an equation is in the body. *)
Lemma body_In_intro {I B} (index : list I) (to_key : I → key)
    (rule : I → R (option B)) b rs i e :
  Forall2 (λ i r, rule i b = inr r) index rs →
  In i index → rule i b = inr (Some e) →
  In (to_key i, e)
     (omap (λ ir : I * option B, pair (to_key (fst ir)) <$> snd ir)
           (combine index rs)).
Proof.
  induction 1 as [| i' r index rs Hi Hrest IH]; cbn; [intros [] |].
  intros [-> | Hin] He.
  - rewrite He in Hi. injection Hi as <-. cbn. left. reflexivity.
  - destruct r as [e' |]; cbn; [right |]; auto.
Qed.

(** When the rule never skips, the body has one entry per index. *)
Lemma body_keys_total {I B} (index : list I) (to_key : I → key)
    (rule : I → R (option B)) b rs :
  Forall2 (λ i r, rule i b = inr r) index rs →
  (∀ i, In i index → rule i b ≠ inr None) →
  map fst (omap (λ ir : I * option B, pair (to_key (fst ir)) <$> snd ir)
                (combine index rs))
  = map to_key index.
Proof.
  induction 1 as [| i r index rs Hi Hrest IH]; intros Hne; [reflexivity |].
  cbn. destruct r as [e |]; cbn.
  - f_equal. apply IH. intros i' Hi'. apply Hne. right. exact Hi'.
  - exfalso. apply (Hne i); [left; reflexivity | exact Hi].
Qed.

Lemma getattr_lift_inv n b b' c :
  lift (getattr n) b = (b', inr c) → b' = b ∧ components b !! n = Some c.
Proof.
  intros H. apply lift_inv in H as [-> H]. split; [reflexivity |].
  unfold getattr in H. destruct (components b !! n); congruence.
Qed.

(** Split the commands of a rule that returned. *)
Ltac rule_inv H :=
  repeat (let a := fresh "e" in
          let Ha := fresh "He" in
          apply R_bind_inv in H as (a & Ha & H); cbv beta in H).

Ltac refs_inv :=
  repeat match goal with
         | H : ref _ _ _ = inr _ |- _ => apply ref_inv in H as [-> _]
         end.

Lemma not_in_cons (n m : string) (N : list string) :
  n ≠ m → ¬ In n N → ¬ In n (m :: N).
Proof. intros Hne Hn [-> | Hin]; auto. Qed.


Ltac notin_hyp Hin :=
  lazymatch type of Hin with
  | In _ (_ ++ _) => apply in_app_or in Hin as [Hin | Hin]; notin_hyp Hin
  | In _ (if ?c then _ else _) => destruct c; notin_hyp Hin
  | In _ (_ :: _) =>
      destruct Hin as [Hin | Hin]; [discriminate Hin | notin_hyp Hin]
  | In _ [] => destruct Hin
  end.

(** A literal name is not among the names a method attaches. *)
Ltac solve_notin := let Hin := fresh "Hin" in intros Hin; notin_hyp Hin.

(** ** Scaling of the 0-D energy and pressure balances *)

Lemma enthalpy_rule_scaled hr ht hw custom t b r :
  CV0D.enthalpy_balances hr ht hw custom t b = inr r →
  ∃ eq, r = Some eq
        ∧ Forall (scaled_by "scaling_factor_energy")
                 (additive_terms (eq_lhs eq) ++ additive_terms (eq_rhs eq)).
Proof.
  unfold CV0D.enthalpy_balances. intros H. rule_inv H. refs_inv.
  injection H as <-. eexists. split; [reflexivity |].
  cbn [eq_lhs eq_rhs additive_terms app].
  repeat constructor; eexists; reflexivity.
Qed.

Lemma pressure_rule_scaled hp custom t b r :
  CV0D.pressure_balance hp custom t b = inr r →
  ∃ eq, r = Some eq
        ∧ eq_lhs eq = ENum 0
        ∧ Forall (scaled_by "scaling_factor_pressure")
                 (additive_terms (eq_rhs eq)).
Proof.
  unfold CV0D.pressure_balance. intros H. rule_inv H. refs_inv.
  injection H as <-. eexists. split; [reflexivity |].
  split; [reflexivity |].
  cbn [eq_lhs eq_rhs additive_terms app].
  repeat constructor; eexists; reflexivity.
Qed.

(** C6: in the 0-D control volume, every additive term of the enthalpy
    balance, the accumulation term on the left-hand side included, is a
    product with the mutable parameter [scaling_factor_energy], whose
    default is 1e-6; the pressure balance has the literal 0 on its left and
    every additive term on its right is a product with the mutable
    parameter [scaling_factor_pressure], whose default is 1e-4.  Each
    balance has one equation per time point. *)
Theorem balances_0d_scaled :
  (∀ has_heat_of_reaction has_heat_transfer has_work_transfer custom_term
     b b' c,
     CV0D.add_total_enthalpy_balances has_heat_of_reaction has_heat_transfer
       has_work_transfer custom_term b = (b', inr c) →
     components b' !! "scaling_factor_energy"
       = Some (CParam (1 # 1000000) true)
     ∧ components b' !! "enthalpy_balances" = Some c
     ∧ ∃ body, c = CConstraint body
         ∧ map fst body = map k_t (time b)
         ∧ ∀ k eq, In (k, eq) body →
             Forall (scaled_by "scaling_factor_energy")
                    (additive_terms (eq_lhs eq)
                     ++ additive_terms (eq_rhs eq)))
  ∧ (∀ has_pressure_change custom_term b b' c,
       CV0D.add_total_pressure_balances has_pressure_change custom_term b
         = (b', inr c) →
       components b' !! "scaling_factor_pressure"
         = Some (CParam (1 # 10000) true)
       ∧ components b' !! "pressure_balance" = Some c
       ∧ ∃ body, c = CConstraint body
           ∧ map fst body = map k_t (time b)
           ∧ ∀ k eq, In (k, eq) body →
               eq_lhs eq = ENum 0
               ∧ Forall (scaled_by "scaling_factor_pressure")
                        (additive_terms (eq_rhs eq))).
Proof.
  split.
  - intros hr ht hw custom b b' c H.
    unfold CV0D.add_total_enthalpy_balances in H.
    rewrite (M_bind_ok self _ b b b eq_refl) in H. cbv zeta in H.
    pose proof (extends_refl [] b) as E.
    do 4 walk H E.
    apply M_bind_inv in H as (u5 & b5 & H5 & H). apply setattr_inv in H5.
    pose proof (extends_refl [] b5) as E5.
    do 3 walk H E5.
    apply M_bind_inv in H as (u9 & b9 & H9 & H).
    apply Constraint_inv in H9 as (body & Hbody & H9).
    pose proof (extends_refl [] b9) as E9.
    walk H E9.
    apply getattr_lift_inv in H as [-> Hc].
    assert (Hsf9 : components b9 !! "scaling_factor_energy"
                   = Some (CParam (1 # 1000000) true)).
    { rewrite H9. cbn. rewrite lookup_insert_ne by discriminate.
      rewrite (ext_frame _ _ _ E5) by solve_notin.
      rewrite H5. apply lookup_setattr. }
    assert (Hc9 : components b9 !! "enthalpy_balances"
                  = Some (CConstraint body)).
    { rewrite H9. apply lookup_setattr. }
    rewrite (ext_frame _ _ _ E9) in Hc by solve_notin.
    rewrite Hc9 in Hc. injection Hc as <-.
    split; [| split].
    + rewrite (ext_frame _ _ _ E9) by solve_notin. exact Hsf9.
    + rewrite (ext_frame _ _ _ E9) by solve_notin. exact Hc9.
    + exists body. split; [reflexivity |].
      apply build_indexed_inv in Hbody as (rs & Hrs & ->). split.
      * apply (body_keys_total _ _ _ _ _ Hrs).
        intros t _ Ht.
        apply enthalpy_rule_scaled in Ht as (eq & Heq & _). discriminate.
      * intros k eq Hin.
        apply (body_In_inv _ _ _ _ _ _ _ Hrs) in Hin as (t & _ & _ & Ht).
        apply enthalpy_rule_scaled in Ht as (eq' & [= <-] & Hsc). exact Hsc.
  - intros hp custom b b' c H.
    unfold CV0D.add_total_pressure_balances in H.
    rewrite (M_bind_ok self _ b b b eq_refl) in H. cbv zeta in H.
    pose proof (extends_refl [] b) as E.
    walk H E.
    apply M_bind_inv in H as (u2 & b2 & H2 & H). apply setattr_inv in H2.
    apply M_bind_inv in H as (u3 & b3 & H3 & H).
    apply Constraint_inv in H3 as (body & Hbody & H3).
    apply getattr_lift_inv in H as [-> Hc].
    assert (Hc3 : components b3 !! "pressure_balance"
                  = Some (CConstraint body)).
    { rewrite H3. apply lookup_setattr. }
    rewrite Hc3 in Hc. injection Hc as <-.
    split; [| split].
    + rewrite H3. cbn. rewrite lookup_insert_ne by discriminate.
      rewrite H2. apply lookup_setattr.
    + exact Hc3.
    + exists body. split; [reflexivity |].
      apply build_indexed_inv in Hbody as (rs & Hrs & ->). split.
      * apply (body_keys_total _ _ _ _ _ Hrs).
        intros t _ Ht.
        apply pressure_rule_scaled in Ht as (eq & Heq & _). discriminate.
      * intros k eq Hin.
        apply (body_In_inv _ _ _ _ _ _ _ Hrs) in Hin as (t & _ & _ & Ht).
        apply pressure_rule_scaled in Ht as (eq' & [= <-] & Hsc). exact Hsc.
Qed.

Lemma balances_0d_scaled_witness :
  ∃ b' c body,
    CV0D.add_total_enthalpy_balances false true true None
      (block_0d false false pp_vle) = (b', inr c)
    ∧ c = CConstraint body
    ∧ map fst body = [[INum 0]; [INum 1]]
    ∧ components b' !! "scaling_factor_energy"
      = Some (CParam (1 # 1000000) true).
Proof.
  assert (H : ∃ b' c,
            CV0D.add_total_enthalpy_balances false true true None
              (block_0d false false pp_vle) = (b', inr c)).
  { vm_compute. eexists _, _. reflexivity. }
  destruct H as (b' & c & H).
  destruct (proj1 balances_0d_scaled false true true None _ _ _ H)
    as (Hsf & _ & body & Hc & Hkeys & _).
  exists b', c, body. repeat split; assumption.
Defined.


(** ** The skipped boundary of the 1-D balances *)

Lemma last_cons (x : Q) (s : list Q) (d : Q) :
  List.last (x :: s) d = List.last s x.
Proof.
  revert x d. induction s as [| y s IH]; intros x d; [reflexivity |].
  change (List.last (y :: s) d = List.last (y :: s) x).
  rewrite !IH. reflexivity.
Qed.

Lemma ext_scheme N b b' :
  extends N b b' →
  cfg_transformation_scheme b' = cfg_transformation_scheme b.
Proof.
  intros [C _ _]. exact (f_equal cfg_transformation_scheme C).
Qed.

Lemma ext_time N b b' : extends N b b' → time b' = time b.
Proof. intros [C _ _]. exact (f_equal time C). Qed.

Lemma ext_package N b b' :
  extends N b b' → cfg_property_package b' = cfg_property_package b.
Proof. intros [C _ _]. exact (f_equal cfg_property_package C). Qed.

Lemma ext_length_domain N b b' :
  extends N b b' → ¬ In "length_domain" N →
  CV1D.length_domain b' = CV1D.length_domain b.
Proof.
  intros E Hn. unfold CV1D.length_domain, getattr.
  cbn [bind R_monad]. unfold R_bind.
  rewrite (ext_frame _ _ _ E _ Hn).
  destruct (components b !! "length_domain") as [[] |]; reflexivity.
Qed.

(** The test that opens every 1-D balance rule compares the point with the
    skipped point of the length domain. *)
Lemma at_skipped_boundary_spec (x : Q) (b : ControlVolume) (ld : list Q) :
  CV1D.length_domain b = inr ld → ld ≠ [] →
  CV1D.at_skipped_boundary x b
  = inr (Qeq_bool x (skipped_point (cfg_transformation_scheme b) ld)).
Proof.
  intros Hld Hne. destruct ld as [| x0 s]; [contradiction |].
  unfold CV1D.at_skipped_boundary, skipped_point.
  erewrite R_bind_ok by reflexivity. cbv zeta.
  destruct (CV1D.scheme_is "FORWARD" (cfg_transformation_scheme b));
    cbn [negb].
  - erewrite R_bind_ok by reflexivity. cbv iota.
    rewrite (R_bind_ok _ _ _ _ Hld).
    erewrite R_bind_ok by reflexivity. cbv beta.
    rewrite last_cons. reflexivity.
  - rewrite (R_bind_ok (x1 <- CV1D.length_domain ;; _) _ b
               (Qeq_bool x x0)).
    + cbn [hd]. destruct (Qeq_bool x x0); reflexivity.
    + rewrite (R_bind_ok _ _ _ _ Hld).
      erewrite R_bind_ok by reflexivity. reflexivity.
Qed.

Lemma pc_mem_In (p j : string) (pc_set : list (string * string)) :
  In (p, j) pc_set → pc_mem p j pc_set = true.
Proof.
  intros H. apply existsb_exists. exists (p, j). split; [exact H |].
  cbn. rewrite !String.eqb_refl. reflexivity.
Qed.

Lemma material_phase_rule_skips hr he hp hm cmol cmass b :
  skips_at (CV1D.material_balances_phase hr he hp hm cmol cmass)
           (λ i, snd (fst i))
           (λ i, In (snd i) (get_phase_component_set (cfg_property_package b)))
           b.
Proof.
  intros [[t x] [p j]] r Hok H. cbn [fst snd] in *.
  unfold CV1D.material_balances_phase in H.
  apply R_bind_inv in H as (b0 & [= <-] & H).
  apply R_bind_inv in H as (skip & Hskip & H).
  exists skip. split; [exact Hskip |].
  destruct skip.
  - injection H as <-. split; reflexivity.
  - rewrite (pc_mem_In _ _ _ Hok) in H.
    rule_inv H. injection H as <-. split; discriminate.
Qed.

Lemma material_total_rule_skips hr he hm cmol cmass b :
  skips_at (CV1D.material_balances_total hr he hm cmol cmass)
           (λ i, snd (fst i)) (λ _, True) b.
Proof.
  intros [[t x] j] r _ H. cbn [fst snd] in *.
  unfold CV1D.material_balances_total in H.
  apply R_bind_inv in H as (b0 & [= <-] & H).
  apply R_bind_inv in H as (skip & Hskip & H).
  exists skip. split; [exact Hskip |].
  destruct skip.
  - injection H as <-. split; reflexivity.
  - cbv zeta in H. rule_inv H. injection H as <-. split; discriminate.
Qed.

Lemma element_rule_skips hm custom b :
  skips_at (CV1D.element_balances hm custom) (λ i, snd (fst i))
           (λ _, True) b.
Proof.
  intros [[t x] e] r _ H. cbn [fst snd] in *.
  unfold CV1D.element_balances in H.
  apply R_bind_inv in H as (b0 & [= <-] & H).
  apply R_bind_inv in H as (skip & Hskip & H).
  exists skip. split; [exact Hskip |].
  destruct skip.
  - injection H as <-. split; reflexivity.
  - rule_inv H. injection H as <-. split; discriminate.
Qed.

Lemma enthalpy_rule_skips hr ht hw custom b :
  skips_at (CV1D.enthalpy_balances hr ht hw custom) snd (λ _, True) b.
Proof.
  intros [t x] r _ H. cbn [fst snd] in *.
  unfold CV1D.enthalpy_balances in H.
  apply R_bind_inv in H as (b0 & [= <-] & H).
  apply R_bind_inv in H as (skip & Hskip & H).
  exists skip. split; [exact Hskip |].
  destruct skip.
  - injection H as <-. split; reflexivity.
  - cbv zeta in H. rule_inv H. injection H as <-. split; discriminate.
Qed.

Lemma pressure_rule_skips hp custom b :
  skips_at (CV1D.pressure_balance hp custom) snd (λ _, True) b.
Proof.
  intros [t x] r _ H. cbn [fst snd] in *.
  unfold CV1D.pressure_balance in H.
  apply R_bind_inv in H as (skip & Hskip & H).
  exists skip. split; [exact Hskip |].
  destruct skip.
  - injection H as <-. split; reflexivity.
  - rule_inv H. injection H as <-. split; discriminate.
Qed.

(** The keys of a declared balance: those of the index set whose point is
    not the skipped one. *)
Lemma declared_keys {I} (index : list I) (to_key : I → key)
    (rule : I → R (option equation)) (x_of : I → Q) (ok : I → Prop)
    (b : ControlVolume) (ld : list Q) (body : list (key * equation)) :
  CV1D.length_domain b = inr ld → ld ≠ [] →
  skips_at rule x_of ok b →
  (∀ i, In i index → ok i) →
  (∀ i i', to_key i = to_key i' → x_of i = x_of i') →
  build_indexed index to_key rule b = inr body →
  ∀ i, In i index →
    (In (to_key i) (map fst body)
     ↔ Qeq_bool (x_of i) (skipped_point (cfg_transformation_scheme b) ld)
       = false).
Proof.
  intros Hld Hne Hskips Hok Hinj Hbody i Hi.
  apply build_indexed_inv in Hbody as (rs & Hrs & ->).
  split.
  - intros Hin. apply in_map_iff in Hin as ([k e] & Hk & Hin).
    cbn [fst] in Hk. subst k.
    apply (body_In_inv _ _ _ _ _ _ _ Hrs) in Hin as (i' & Hi' & Hkey & Hr).
    destruct (Hskips i' _ (Hok _ Hi') Hr) as (skip & Hskip & Hiff).
    rewrite (at_skipped_boundary_spec _ _ _ Hld Hne) in Hskip.
    injection Hskip as <-.
    rewrite <- (Hinj _ _ Hkey).
    destruct (Qeq_bool _ _); [| reflexivity].
    destruct Hiff as [_ Hiff]. discriminate (Hiff eq_refl).
  - intros Hx.
    assert (Hr : ∃ r, rule i b = inr r).
    { clear -Hrs Hi. induction Hrs as [| i0 r index rs H0 _ IH];
        [destruct Hi |].
      destruct Hi as [<- | Hi]; eauto. }
    destruct Hr as [r Hr].
    destruct (Hskips i _ (Hok _ Hi) Hr) as (skip & Hskip & Hiff).
    rewrite (at_skipped_boundary_spec _ _ _ Hld Hne), Hx in Hskip.
    injection Hskip as <-.
    destruct r as [e |].
    + apply in_map_iff. exists (to_key i, e). split; [reflexivity |].
      exact (body_In_intro _ _ _ _ _ _ _ Hrs Hi Hr).
    + destruct Hiff as [Hiff _]. discriminate (Hiff eq_refl).
Qed.

(** [declared_keys] for a balance declared in a later state of the same
    call. *)
Lemma declared_keys_later {I} N (index : list I) (to_key : I → key)
    (rule : I → R (option equation)) (x_of : I → Q) (ok : I → Prop)
    (b bk : ControlVolume) (ld : list Q) (body : list (key * equation)) :
  extends N b bk → ¬ In "length_domain" N →
  CV1D.length_domain b = inr ld → ld ≠ [] →
  skips_at rule x_of ok bk →
  (∀ i, In i index → ok i) →
  (∀ i i', to_key i = to_key i' → x_of i = x_of i') →
  build_indexed index to_key rule bk = inr body →
  ∀ i, In i index →
    (In (to_key i) (map fst body)
     ↔ Qeq_bool (x_of i) (skipped_point (cfg_transformation_scheme b) ld)
       = false).
Proof.
  intros E Hn Hld Hne Hskips Hok Hinj Hbody i Hi.
  rewrite <- (ext_scheme _ _ _ E).
  apply (declared_keys index to_key rule x_of ok bk ld body); auto.
  rewrite (ext_length_domain _ _ _ E Hn). exact Hld.
Qed.

(** Read the length domain in a later state of the call. *)
Ltac read_length_domain b ld H E Hld :=
  let ld0 := fresh "ld" in
  let bk := fresh "b" in
  let Hl := fresh "Hl" in
  apply M_bind_inv in H as (ld0 & bk & Hl & H);
  let Heq := fresh "Heq" in
  apply lift_inv in Hl as [-> Hl];
  match type of Hl with
  | CV1D.length_domain ?bp = _ =>
      assert (Heq : CV1D.length_domain bp = CV1D.length_domain b)
        by (apply (ext_length_domain _ _ _ E); solve_notin)
  end;
  assert (ld0 = ld) by congruence; subst ld0; clear Heq Hl;
  cbv beta in H.

Lemma material_phase_skips a b b' c ld :
  CV1D.length_domain b = inr ld → ld ≠ [] →
  add_balance_1d MaterialPhase a b = (b', inr c) →
  components b' !! "material_balances" = Some c
  ∧ ∃ body, c = CConstraint body ∧ skips_only_boundary MaterialPhase b ld body.
Proof.
  intros Hld Hne H. cbn [add_balance_1d] in H.
  unfold CV1D.add_phase_component_balances in H.
  apply M_bind_inv in H as (u & bl & H & Hget).
  apply getattr_lift_inv in Hget as [-> Hc].
  unfold CV1D._add_material_balance_common in H.
  rewrite (M_bind_ok self _ b b b eq_refl) in H.
  cbv beta iota zeta delta [CV0D.is_componentPhase] in H.
  pose proof (extends_refl [] b) as E.
  do 5 walk H E.
  read_length_domain b ld H E Hld.
  do 10 walk H E.
  apply Constraint_inv in H as (body & Hbody & ->).
  rewrite lookup_setattr in Hc. injection Hc as <-.
  split; [apply lookup_setattr |].
  exists body. split; [reflexivity |].
  intros t x rest Ht Hx Hrest. cbn [balance_suffixes] in Hrest.
  apply in_map_iff in Hrest as ([p j] & <- & Hpj). cbn [fst snd].
  eapply (declared_keys_later _ _ k_txpj _ (λ i, snd (fst i)) _ b _ ld body
            E _ Hld Hne (material_phase_rule_skips _ _ _ _ _ _ _)
            _ _ Hbody (t, x, (p, j))).
  apply in_prod; [apply in_prod |]; assumption.
  Unshelve.
  - solve_notin.
  - intros i Hi. destruct i as [tx pj]. apply in_prod_iff in Hi as [_ Hi].
    rewrite (ext_package _ _ _ E). exact Hi.
  - intros [[? ?] [? ?]] [[? ?] [? ?]] [= _ -> _ _]. reflexivity.
Qed.

Lemma material_total_skips a b b' c ld :
  CV1D.length_domain b = inr ld → ld ≠ [] →
  add_balance_1d MaterialTotal a b = (b', inr c) →
  components b' !! "material_balances" = Some c
  ∧ ∃ body, c = CConstraint body ∧ skips_only_boundary MaterialTotal b ld body.
Proof.
  intros Hld Hne H. cbn [add_balance_1d] in H.
  unfold CV1D.add_total_component_balances in H.
  apply M_bind_inv in H as (u & bl & H & Hget).
  apply getattr_lift_inv in Hget as [-> Hc].
  unfold CV1D._add_material_balance_common in H.
  rewrite (M_bind_ok self _ b b b eq_refl) in H.
  cbv beta iota zeta delta [CV0D.is_componentPhase] in H.
  pose proof (extends_refl [] b) as E.
  do 5 walk H E.
  read_length_domain b ld H E Hld.
  do 10 walk H E.
  apply Constraint_inv in H as (body & Hbody & ->).
  rewrite lookup_setattr in Hc. injection Hc as <-.
  split; [apply lookup_setattr |].
  exists body. split; [reflexivity |].
  intros t x rest Ht Hx Hrest. cbn [balance_suffixes] in Hrest.
  apply in_map_iff in Hrest as (j & <- & Hj).
  eapply (declared_keys_later _ _ CV1D.k_txj _ (λ i, snd (fst i)) _ b _ ld
            body E _ Hld Hne (material_total_rule_skips _ _ _ _ _ _)
            _ _ Hbody (t, x, j)).
  apply in_prod; [apply in_prod |]; assumption.
  Unshelve.
  - solve_notin.
  - intros; exact Logic.I.
  - intros [[? ?] ?] [[? ?] ?] [= _ -> _]. reflexivity.
Qed.

Lemma element_skips a b b' c ld :
  CV1D.length_domain b = inr ld → ld ≠ [] →
  add_balance_1d ElementTotal a b = (b', inr c) →
  components b' !! "element_balances" = Some c
  ∧ ∃ body, c = CConstraint body ∧ skips_only_boundary ElementTotal b ld body.
Proof.
  intros Hld Hne H. cbn [add_balance_1d] in H.
  unfold CV1D.add_total_element_balances in H.
  rewrite (M_bind_ok self _ b b b eq_refl) in H. cbv beta zeta in H.
  pose proof (extends_refl [] b) as E.
  do 6 walk H E.
  read_length_domain b ld H E Hld.
  apply M_bind_inv in H as (els & bk & Hels & H).
  apply lift_inv in Hels as [-> Hels]. cbv beta in H.
  assert (Hel : element_list (cfg_property_package b) = Some els).
  { destruct (element_list (cfg_property_package b)); [| discriminate].
    injection Hels as <-. reflexivity. }
  do 4 walk H E.
  apply M_bind_inv in H as (u & bc & Hcon & H).
  apply Constraint_inv in Hcon as (body & Hbody & ->).
  match type of H with
  | _ ?bc = _ => pose proof (extends_refl [] bc) as E'
  end.
  walk H E'.
  apply getattr_lift_inv in H as [-> Hc].
  rewrite (ext_frame _ _ _ E') in Hc by solve_notin.
  rewrite lookup_setattr in Hc. injection Hc as <-.
  split.
  { rewrite (ext_frame _ _ _ E') by solve_notin. apply lookup_setattr. }
  exists body. split; [reflexivity |].
  intros t x rest Ht Hx Hrest. cbn [balance_suffixes] in Hrest.
  rewrite Hel in Hrest. cbn [default] in Hrest.
  apply in_map_iff in Hrest as (e & <- & He).
  eapply (declared_keys_later _ _ CV1D.k_txe _ (λ i, snd (fst i)) _ b _ ld
            body E _ Hld Hne (element_rule_skips _ _ _)
            _ _ Hbody (t, x, e)).
  apply in_prod; [apply in_prod |]; assumption.
  Unshelve.
  - solve_notin.
  - intros; exact Logic.I.
  - intros [[? ?] ?] [[? ?] ?] [= _ -> _]. reflexivity.
Qed.

Lemma enthalpy_skips a b b' c ld :
  CV1D.length_domain b = inr ld → ld ≠ [] →
  add_balance_1d Enthalpy a b = (b', inr c) →
  components b' !! "enthalpy_balances" = Some c
  ∧ ∃ body, c = CConstraint body ∧ skips_only_boundary Enthalpy b ld body.
Proof.
  intros Hld Hne H. cbn [add_balance_1d] in H.
  unfold CV1D.add_total_enthalpy_balances in H.
  rewrite (M_bind_ok self _ b b b eq_refl) in H. cbv beta zeta in H.
  pose proof (extends_refl [] b) as E.
  walk H E.
  read_length_domain b ld H E Hld.
  do 9 walk H E.
  apply M_bind_inv in H as (u & bc & Hcon & H).
  apply Constraint_inv in Hcon as (body & Hbody & ->).
  match type of H with
  | _ ?bc = _ => pose proof (extends_refl [] bc) as E'
  end.
  walk H E'.
  apply getattr_lift_inv in H as [-> Hc].
  rewrite (ext_frame _ _ _ E') in Hc by solve_notin.
  rewrite lookup_setattr in Hc. injection Hc as <-.
  split.
  { rewrite (ext_frame _ _ _ E') by solve_notin. apply lookup_setattr. }
  exists body. split; [reflexivity |].
  intros t x rest Ht Hx Hrest. cbn [balance_suffixes] in Hrest.
  destruct Hrest as [<- | []].
  eapply (declared_keys_later _ _ k_tx _ snd _ b _ ld
            body E _ Hld Hne (enthalpy_rule_skips _ _ _ _ _)
            _ _ Hbody (t, x)).
  apply in_prod; assumption.
  Unshelve.
  - solve_notin.
  - intros; exact Logic.I.
  - intros [? ?] [? ?] [= _ ->]. reflexivity.
Qed.

Lemma pressure_skips a b b' c ld :
  CV1D.length_domain b = inr ld → ld ≠ [] →
  add_balance_1d Pressure a b = (b', inr c) →
  components b' !! "pressure_balance" = Some c
  ∧ ∃ body, c = CConstraint body ∧ skips_only_boundary Pressure b ld body.
Proof.
  intros Hld Hne H. cbn [add_balance_1d] in H.
  unfold CV1D.add_total_pressure_balances in H.
  rewrite (M_bind_ok self _ b b b eq_refl) in H. cbv beta zeta in H.
  pose proof (extends_refl [] b) as E.
  read_length_domain b ld H E Hld.
  do 5 walk H E.
  apply M_bind_inv in H as (u & bc & Hcon & H).
  apply Constraint_inv in Hcon as (body & Hbody & ->).
  apply getattr_lift_inv in H as [-> Hc].
  rewrite lookup_setattr in Hc. injection Hc as <-.
  split; [apply lookup_setattr |].
  exists body. split; [reflexivity |].
  intros t x rest Ht Hx Hrest. cbn [balance_suffixes] in Hrest.
  destruct Hrest as [<- | []].
  eapply (declared_keys_later _ _ k_tx _ snd _ b _ ld
            body E _ Hld Hne (pressure_rule_skips _ _ _)
            _ _ Hbody (t, x)).
  apply in_prod; assumption.
  Unshelve.
  - solve_notin.
  - intros; exact Logic.I.
  - intros [? ?] [? ?] [= _ ->]. reflexivity.
Qed.

Lemma last_in (x0 : Q) (s : list Q) :
  In (List.last (x0 :: s) 0%Q) (x0 :: s).
Proof.
  revert x0. induction s as [| y s IH]; intros x0; [left; reflexivity |].
  right. exact (IH y).
Qed.

(** C1: for each of the five balance families of the 1-D control volume
    (component-phase material, component-total material, element, enthalpy,
    pressure) and at every time point, the balance has no equation at
    exactly one end of the length domain, the last point when the
    transformation scheme is "FORWARD" and the first point otherwise, and
    has an equation at every other point; the rule is the same for the five
    families. *)
Theorem balance_skipped_at_one_boundary (fam : balance_family)
    (a : balance_args) (b b' : ControlVolume) (c : component) (ld : list Q) :
  CV1D.length_domain b = inr ld →
  Qeq_bool (hd 0%Q ld) (List.last ld 0%Q) = false →
  add_balance_1d fam a b = (b', inr c) →
  let forward_scheme :=
    CV1D.scheme_is "FORWARD" (cfg_transformation_scheme b) in
  let boundary := if forward_scheme then List.last ld 0%Q else hd 0%Q ld in
  components b' !! balance_name fam = Some c
  ∧ ∃ body,
      c = CConstraint body
      ∧ (∀ (t x : Q) (rest : key),
           In t (time b) → In x ld → In rest (balance_suffixes fam b) →
           (In ([INum t; INum x] ++ rest) (map fst body)
            ↔ Qeq_bool x boundary = false))
      ∧ (∀ (t : Q) (rest : key),
           In t (time b) → In rest (balance_suffixes fam b) →
           (In ([INum t; INum (hd 0%Q ld)] ++ rest) (map fst body)
            ↔ forward_scheme = true)
           ∧ (In ([INum t; INum (List.last ld 0%Q)] ++ rest) (map fst body)
              ↔ forward_scheme = false)).
Proof.
  intros Hld Hends H forward_scheme boundary.
  assert (Hne : ld ≠ []) by (intros ->; discriminate Hends).
  assert (Hfam : components b' !! balance_name fam = Some c
                 ∧ ∃ body, c = CConstraint body
                           ∧ skips_only_boundary fam b ld body).
  { destruct fam; cbn [balance_name].
    - exact (material_phase_skips a b b' c ld Hld Hne H).
    - exact (material_total_skips a b b' c ld Hld Hne H).
    - exact (element_skips a b b' c ld Hld Hne H).
    - exact (enthalpy_skips a b b' c ld Hld Hne H).
    - exact (pressure_skips a b b' c ld Hld Hne H). }
  destruct Hfam as (Hc & body & -> & Hkeys).
  split; [exact Hc |]. exists body. split; [reflexivity |].
  unfold skips_only_boundary, skipped_point in Hkeys.
  fold forward_scheme in Hkeys. fold boundary in Hkeys.
  split; [exact Hkeys |].
  intros t rest Ht Hrest.
  destruct ld as [| x0 s]; [contradiction |].
  pose proof (Hkeys t (hd 0%Q (x0 :: s)) rest Ht (or_introl eq_refl) Hrest)
    as Hfirst.
  pose proof (Hkeys t (List.last (x0 :: s) 0%Q) rest Ht (last_in x0 s) Hrest)
    as Hlast.
  assert (Hends' : Qeq_bool (List.last (x0 :: s) 0%Q) (hd 0%Q (x0 :: s))
                   = false).
  { destruct (Qeq_bool (List.last (x0 :: s) 0%Q) (hd 0%Q (x0 :: s))) eqn:Hq;
      [| reflexivity].
    apply Qeq_bool_sym in Hq. congruence. }
  subst boundary. destruct forward_scheme.
  - rewrite Hends in Hfirst. rewrite Qeq_bool_refl in Hlast.
    split; [rewrite Hfirst | rewrite Hlast]; split; auto.
  - rewrite Qeq_bool_refl in Hfirst. rewrite Hends' in Hlast.
    split; [rewrite Hfirst | rewrite Hlast]; split; auto.
Qed.

Lemma balance_skipped_at_one_boundary_witness :
  ∃ b' body,
    add_balance_1d MaterialPhase no_terms
      (block_1d_ready false false pp_vle "FORWARD")
    = (b', inr (CConstraint body))
    ∧ (In [INum 0; INum 0; IStr "Liq"; IStr "a"] (map fst body)
       ↔ Qeq_bool 0 1 = false)
    ∧ (In [INum 0; INum 1; IStr "Liq"; IStr "a"] (map fst body)
       ↔ Qeq_bool 1 1 = false).
Proof.
  assert (H : ∃ b' c,
            add_balance_1d MaterialPhase no_terms
              (block_1d_ready false false pp_vle "FORWARD") = (b', inr c)).
  { vm_compute. eexists _, _. reflexivity. }
  destruct H as (b' & c & H).
  destruct (balance_skipped_at_one_boundary MaterialPhase no_terms
              (block_1d_ready false false pp_vle "FORWARD") b' c
              [0%Q; (1 # 2)%Q; 1%Q] eq_refl eq_refl H)
    as (_ & body & -> & Hkeys & _).
  exists b', body. split; [exact H |]. split.
  - apply (Hkeys 0%Q 0%Q [IStr "Liq"; IStr "a"]); vm_compute; auto.
  - apply (Hkeys 0%Q 1%Q [IStr "Liq"; IStr "a"]); vm_compute; auto.
Defined.


(** ** Term variables follow their switches *)

Lemma attaches_setattr n c b :
  is_variable c = true → attaches n (setattr n c) b.
Proof.
  intros Hc b' a H. apply setattr_inv in H as ->.
  exists c. split; [apply lookup_setattr | exact Hc].
Qed.

Lemma attaches_DerivativeVar n sVar wrt b :
  attaches n (DerivativeVar n sVar wrt) b.
Proof.
  intros b' a H. unfold DerivativeVar in H.
  apply M_bind_inv in H as (v & b1 & Hv & H).
  apply setattr_inv in H as ->.
  eexists. split; [apply lookup_setattr | reflexivity].
Qed.

Lemma attaches_when_true {n} (body : M unit) b :
  attaches n body b → attaches n (when true body) b.
Proof. intros H. exact H. Qed.

Lemma attaches_bind_self {B} n (f : ControlVolume → M B) b :
  attaches n (f b) b → attaches n (bind self f) b.
Proof. intros Hf b' r H. exact (Hf _ _ H). Qed.

Lemma attaches_bind_l {A B} n N (m : M A) (f : A → M B) b :
  attaches n m b →
  (∀ a b1, m b = (b1, inr a) → modifies N (f a) b1) →
  ¬ In n N →
  attaches n (bind m f) b.
Proof.
  intros Hm Hf Hn b' r H.
  apply M_bind_inv in H as (a & b1 & Hs & H).
  destruct (Hm _ _ Hs) as (var & Hvar & Hv).
  exists var. split; [| exact Hv].
  rewrite (ext_frame _ _ _ (Hf _ _ Hs _ _ H) _ Hn). exact Hvar.
Qed.

Lemma attaches_bind_r {A B} n (m : M A) (f : A → M B) b :
  (∀ a b1, m b = (b1, inr a) → attaches n (f a) b1) →
  attaches n (bind m f) b.
Proof.
  intros Hf b' r H.
  apply M_bind_inv in H as (a & b1 & Hs & H).
  exact (Hf _ _ Hs _ _ H).
Qed.

(** Find the command that attaches the variable; the commands after it do
    not touch the name. *)
Ltac solve_attaches Hsw :=
  lazymatch goal with
  | |- attaches _ (bind self _) _ =>
      apply attaches_bind_self; cbv beta zeta; rewrite ?Hsw; cbn [andb];
      solve_attaches Hsw
  | |- attaches _ (when true _) _ =>
      apply attaches_when_true; solve_attaches Hsw
  | |- attaches ?n (setattr ?n _) _ => apply attaches_setattr; reflexivity
  | |- attaches ?n (DerivativeVar ?n _ _) _ => apply attaches_DerivativeVar
  | |- attaches _ (bind _ _) _ =>
      first [ eapply attaches_bind_l;
              [ solve_attaches Hsw
              | intros ? ? _; solve_modifies
              | solve_notin ]
            | apply attaches_bind_r; intros ? ? _; solve_attaches Hsw ]
  end.

Ltac unfold_balance :=
  unfold add_balance, add_balance_0d, add_balance_1d,
    CV0D.add_phase_component_balances, CV0D.add_total_component_balances,
    CV1D.add_phase_component_balances, CV1D.add_total_component_balances,
    CV0D._add_material_balance_common, CV1D._add_material_balance_common,
    CV0D.add_total_element_balances, CV1D.add_total_element_balances,
    CV0D.add_total_enthalpy_balances, CV1D.add_total_enthalpy_balances,
    CV0D.add_total_pressure_balances, CV1D.add_total_pressure_balances;
  cbv beta iota zeta delta [CV0D.is_componentPhase].

Lemma switch_on_attaches v fam a tm n b :
  term_variable fam tm = Some n →
  term_switch fam a b tm = true →
  attaches n (add_balance v fam a) b.
Proof.
  intros Hn Hsw.
  destruct v, fam, tm; cbn in Hn; try discriminate Hn;
    injection Hn as <-; cbn in Hsw; try discriminate Hsw;
    unfold_balance; rewrite ?Hsw; cbn [andb];
    solve_attaches Hsw.
Qed.

Lemma switch_off_untouched v fam a tm n b b' r :
  term_variable fam tm = Some n →
  term_switch fam a b tm = false →
  add_balance v fam a b = (b', r) →
  components b' !! n = components b !! n.
Proof.
  intros Hn Hsw H.
  destruct v, fam, tm; cbn in Hn; try discriminate Hn;
    injection Hn as <-; cbn in Hsw;
    revert H; unfold_balance; intros H;
    (assert (E : extends _ b b')
       by (refine ((_ : modifies _ _ b) _ _ H); solve_modifies));
    apply (ext_frame _ _ _ E);
    rewrite ?Hsw, ?andb_false_r; cbn [andb];
    solve_notin.
Qed.

Lemma switch_off_literal_zero v fam tm t x p j rule b :
  term_rule v fam tm false t x p j = Some rule → rule b = inr (ENum 0).
Proof.
  destruct v, fam, tm; cbn; intros [= <-]; reflexivity.
Qed.

(** C3, as stated, fails: a component-total material balance called with
    [has_phase_equilibrium=True] returns, and no
    [phase_equilibrium_generation] variable exists afterwards. *)
Lemma total_balance_has_no_phase_equilibrium_variable :
  let a := {| has_rate_reactions := false;
              has_equilibrium_reactions := false;
              has_phase_equilibrium := true;
              has_mass_transfer := false;
              has_heat_of_reaction := false;
              has_heat_transfer := false;
              has_work_transfer := false;
              has_pressure_change := false;
              custom_molar_term := None;
              custom_mass_term := None;
              custom_term := None |} in
  let r := add_balance ZeroD MaterialTotal a (block_0d false false pp_vle) in
  term_flag a (block_0d false false pp_vle) PhaseEquilibriumGeneration = true
  ∧ (∃ c, snd r = inr c)
  ∧ components (fst r) !! "phase_equilibrium_generation" = None.
Proof.
  split; [reflexivity |]. split; [| vm_compute; reflexivity].
  vm_compute. eexists. reflexivity.
Qed.

(** C3, amended: for every balance-adding call on either variant and every
    toggleable term the balance family has (holdup, accumulation,
    rate-reaction generation, equilibrium-reaction generation,
    phase-equilibrium generation, mass transfer), the term's variable is
    created when the term's flag is True, where for phase-equilibrium
    generation the balance must also be component-phase, and the call
    returns; otherwise the call leaves that name as it found it (absent if
    it was absent) and the term's rule in the balance equation returns the
    literal 0.  In particular a component-total balance never creates the
    phase-equilibrium generation variable, whatever the flag. *)
Theorem term_variables_follow_switches (v : variant_) (fam : balance_family)
    (a : balance_args) (tm : balance_term) (n : string) (b : ControlVolume) :
  term_variable fam tm = Some n →
  (term_switch fam a b tm = true →
   ∀ b' c, add_balance v fam a b = (b', inr c) →
     ∃ var, components b' !! n = Some var ∧ is_variable var = true)
  ∧ (term_switch fam a b tm = false →
     (∀ b' r, add_balance v fam a b = (b', r) →
        components b !! n = None → components b' !! n = None)
     ∧ (∀ t x p j rule b0,
          term_rule v fam tm false t x p j = Some rule →
          rule b0 = inr (ENum 0))).
Proof.
  intros Hn. split.
  - intros Hsw. exact (switch_on_attaches v fam a tm n b Hn Hsw).
  - intros Hsw. split.
    + intros b' r H Hnone.
      rewrite (switch_off_untouched v fam a tm n b b' r Hn Hsw H).
      exact Hnone.
    + intros t x p j rule b0. apply switch_off_literal_zero.
Qed.

Lemma term_variables_follow_switches_witness :
  ∃ b' c var,
    add_balance ZeroD MaterialPhase with_mass_transfer
      (block_0d false false pp_vle) = (b', inr c)
    ∧ components b' !! "mass_transfer_term" = Some var
    ∧ is_variable var = true
    ∧ components b' !! "rate_reaction_generation" = None.
Proof.
  assert (H : ∃ b' c,
            add_balance ZeroD MaterialPhase with_mass_transfer
              (block_0d false false pp_vle) = (b', inr c)).
  { vm_compute. eexists _, _. reflexivity. }
  destruct H as (b' & c & H).
  destruct (proj1 (term_variables_follow_switches ZeroD MaterialPhase
                     with_mass_transfer MassTransfer "mass_transfer_term"
                     (block_0d false false pp_vle) eq_refl)
                  eq_refl b' c H) as (var & Hvar & Hv).
  exists b', c, var. repeat split; try assumption.
  apply (proj1 (proj2 (term_variables_follow_switches ZeroD MaterialPhase
                         with_mass_transfer RateGeneration
                         "rate_reaction_generation"
                         (block_0d false false pp_vle) eq_refl)
                      eq_refl) b' (inr c) H).
  reflexivity.
Defined.

(** * Further properties of the construction methods *)

(** ** State and reaction blocks *)

Lemma key_eqb_refl (k : key) : key_eqb k k = true.
Proof.
  induction k as [| a k IH]; [reflexivity |].
  cbn. rewrite idx_eqb_refl. exact IH.
Qed.

(** Looking a key up in a collection built over an index set finds the
    entry of that index, provided entries with equal keys agree. *)
Lemma block_get_map {I V} (index : list I) (to_key : I → key) (f : I → V)
    (i : I) :
  In i index →
  (∀ i', In i' index → key_eqb (to_key i') (to_key i) = true → f i' = f i) →
  block_get (map (λ i, (to_key i, f i)) index) (to_key i) = Some (f i).
Proof.
  induction index as [| a index IH]; intros Hi Hagree; [destruct Hi |].
  cbn [map block_get].
  destruct (key_eqb (to_key a) (to_key i)) eqn:Hk.
  - rewrite (Hagree a (or_introl eq_refl) Hk). reflexivity.
  - destruct Hi as [-> | Hi]; [rewrite key_eqb_refl in Hk; discriminate |].
    apply IH; [exact Hi |]. intros i' Hi'. apply Hagree. right. exact Hi'.
Qed.

Lemma state_config_0d_lookup (name : string) (T : list Q)
    (cfg : StateBlockConfig) (t : Q) (b : ControlVolume) :
  components b !! name = Some (CStateBlock (map (λ t, (k_t t, cfg)) T)) →
  In t T →
  CV0D.state_config name [INum t] b = inr cfg.
Proof.
  intros Hc Ht. unfold CV0D.state_config, getattr.
  cbn [bind R_monad]. unfold R_bind. rewrite Hc.
  change [INum t] with (k_t t).
  rewrite (block_get_map T k_t (λ _, cfg) t Ht); [reflexivity | auto].
Qed.

(** X1: the 0-D [add_state_blocks], called with a valid
    [has_phase_equilibrium] on a package that has a state-block class,
    builds an inlet and an outlet state block at every time point, of which
    exactly one is the defined state: the inlet when [information_flow] is
    forward, the outlet when it is backward.  Any other [information_flow]
    raises a configuration error and attaches nothing. *)
Theorem state_blocks_0d_defined_state (b : ControlVolume)
    (information_flow has_phase_equilibrium : pyval) :
  has_phase_equilibrium ≠ PyNone →
  py_in has_phase_equilibrium [PyBool true; PyBool false] = true →
  has_state_block_class (cfg_property_package b) = true →
  match information_flow with
  | PyFlow d =>
      ∃ b',
        CV0D.add_state_blocks information_flow has_phase_equilibrium b
        = (b', inr tt)
        ∧ extends ["properties_in"; "properties_out"] b b'
        ∧ ∀ t, In t (time b) →
            CV0D.state_config "properties_in" [INum t] b'
            = inr {| sb_has_phase_equilibrium := has_phase_equilibrium;
                     sb_defined_state := FlowDirection_eqb d forward |}
            ∧ CV0D.state_config "properties_out" [INum t] b'
              = inr {| sb_has_phase_equilibrium := has_phase_equilibrium;
                       sb_defined_state :=
                         negb (FlowDirection_eqb d forward) |}
  | _ =>
      CV0D.add_state_blocks information_flow has_phase_equilibrium b
      = (b, inl ConfigurationError)
  end.
Proof.
  intros Hnone Hin Hclass.
  assert (Hval :
    (match has_phase_equilibrium with
     | PyNone => M_raise ConfigurationError
     | v => if negb (py_in v [PyBool true; PyBool false])
            then M_raise ConfigurationError
            else ret tt
     end : M unit) b = (b, inr tt)).
  { destruct has_phase_equilibrium; try contradiction;
      rewrite Hin; reflexivity. }
  unfold CV0D.add_state_blocks.
  rewrite (M_bind_ok self _ b b b eq_refl).
  rewrite (M_bind_ok _ _ b b tt Hval).
  destruct information_flow as [| f | z | q | s | d];
    try reflexivity.
  exists (with_components
            <["properties_out" :=
                CStateBlock (map (λ t, (k_t t,
                  {| sb_has_phase_equilibrium := has_phase_equilibrium;
                     sb_defined_state :=
                       negb (FlowDirection_eqb d forward) |})) (time b))]>
            (with_components
               <["properties_in" :=
                   CStateBlock (map (λ t, (k_t t,
                     {| sb_has_phase_equilibrium := has_phase_equilibrium;
                        sb_defined_state := FlowDirection_eqb d forward |}))
                     (time b))]> b)).
  split; [| split].
  - destruct d; cbn [py_eq py_number FlowDirection_eqb];
      (erewrite M_bind_ok by reflexivity); rewrite Hclass;
      (erewrite M_bind_ok by reflexivity); reflexivity.
  - eapply extends_trans with (N1 := ["properties_in"])
      (N2 := ["properties_out"]); apply extends_insert.
  - intros t Ht. split.
    + apply (state_config_0d_lookup _ (time b)); [| exact Ht].
      cbn. rewrite lookup_insert_ne by discriminate.
      rewrite lookup_insert_eq. destruct d; reflexivity.
    + apply (state_config_0d_lookup _ (time b)); [| exact Ht].
      cbn. rewrite lookup_insert_eq. destruct d; reflexivity.
Qed.

Lemma state_blocks_0d_defined_state_witness :
  ∃ b',
    CV0D.add_state_blocks (PyFlow backward) (PyBool true) block_vle
    = (b', inr tt)
    ∧ CV0D.state_config "properties_in" [INum 0] b'
      = inr {| sb_has_phase_equilibrium := PyBool true;
               sb_defined_state := false |}
    ∧ CV0D.state_config "properties_out" [INum 0] b'
      = inr {| sb_has_phase_equilibrium := PyBool true;
               sb_defined_state := true |}.
Proof.
  destruct (state_blocks_0d_defined_state block_vle (PyFlow backward)
              (PyBool true)) as (b' & H & _ & Hcfg).
  - discriminate.
  - reflexivity.
  - reflexivity.
  - exists b'. split; [exact H |]. apply (Hcfg 0%Q). left. reflexivity.
Defined.

Lemma Qeq_bool_cong (x y z : Q) :
  Qeq_bool x y = true → Qeq_bool x z = Qeq_bool y z.
Proof.
  intros Hxy. apply Qeq_bool_iff in Hxy.
  destruct (Qeq_bool y z) eqn:Hyz.
  - apply Qeq_bool_iff in Hyz. apply Qeq_bool_iff. rewrite Hxy. exact Hyz.
  - destruct (Qeq_bool x z) eqn:Hxz; [| reflexivity].
    apply Qeq_bool_iff in Hxz. rewrite Hxy in Hxz.
    apply Qeq_bool_iff in Hxz. congruence.
Qed.

(** X2: the 1-D [add_state_blocks], called with a valid
    [has_phase_equilibrium] once the length domain exists, builds one state
    block per time point and point of the length domain; the block at
    [(t, x)] is the defined state exactly when [information_flow] is forward
    and [x] is the first point of the domain, or it is backward and [x] is
    the last point.  Unlike the 0-D method it does not reject an
    [information_flow] that is neither: every block is then built with
    [defined_state=False]. *)
Theorem state_blocks_1d_defined_state (b : ControlVolume)
    (information_flow has_phase_equilibrium : pyval) (ld : list Q) :
  has_phase_equilibrium ≠ PyNone →
  py_in has_phase_equilibrium [PyBool true; PyBool false] = true →
  has_state_block_class (cfg_property_package b) = true →
  components b !! "length_domain" = Some (CContinuousSet ld) →
  ∃ b',
    CV1D.add_state_blocks information_flow has_phase_equilibrium b
    = (b', inr tt)
    ∧ extends ["properties"] b b'
    ∧ ∀ t x, In t (time b) → In x ld →
        CV1D.state_config [INum t; INum x] b'
        = inr {| sb_has_phase_equilibrium := has_phase_equilibrium;
                 sb_defined_state :=
                   (py_eq information_flow (PyFlow forward)
                    && Qeq_bool x (hd 0%Q ld))
                   || (py_eq information_flow (PyFlow backward)
                       && Qeq_bool x (List.last ld 0%Q)) |}.
Proof.
  intros Hnone Hin Hclass Hld.
  assert (Hval :
    (match has_phase_equilibrium with
     | PyNone => M_raise ConfigurationError
     | v => if negb (py_in v [PyBool true; PyBool false])
            then M_raise ConfigurationError
            else ret tt
     end : M unit) b = (b, inr tt)).
  { destruct has_phase_equilibrium; try contradiction;
      rewrite Hin; reflexivity. }
  assert (Hdom : CV1D.length_domain b = inr ld).
  { unfold CV1D.length_domain, getattr. cbn [bind R_monad]. unfold R_bind.
    rewrite Hld. reflexivity. }
  set (cfg := λ i : Q * Q,
         {| sb_has_phase_equilibrium := has_phase_equilibrium;
            sb_defined_state :=
              (py_eq information_flow (PyFlow forward)
               && Qeq_bool (snd i) (hd 0%Q ld))
              || (py_eq information_flow (PyFlow backward)
                  && Qeq_bool (snd i) (List.last ld 0%Q)) |}).
  exists (with_components
            <["properties" :=
                CStateBlock (map (λ i, (k_tx i, cfg i))
                                 (list_prod (time b) ld))]> b).
  split; [| split].
  - unfold CV1D.add_state_blocks.
    rewrite (M_bind_ok self _ b b b eq_refl).
    rewrite (M_bind_ok _ _ b b tt Hval).
    rewrite Hclass. cbn [negb when].
    erewrite M_bind_ok by reflexivity.
    rewrite (M_bind_ok _ _ b b ld (length_domain_lift b ld Hdom)).
    erewrite M_bind_ok; [reflexivity |].
    unfold lift. f_equal.
    apply (mapR_ok _ (λ i, (k_tx i, cfg i))).
    intros [t x] Hi. apply in_prod_iff in Hi as [_ Hx].
    destruct ld as [| x0 s]; [destruct Hx |].
    unfold cfg. cbn [snd CV1D.first CV1D.last hd].
    rewrite <- (last_cons x0 s 0%Q).
    destruct (py_eq information_flow (PyFlow forward));
      destruct (py_eq information_flow (PyFlow backward));
      cbn [bind ret R_monad R_bind R_ret andb orb];
      unfold R_bind, R_ret; cbn [andb orb];
      destruct (Qeq_bool x x0); reflexivity.
  - apply extends_insert.
  - intros t x Ht Hx.
    unfold CV1D.state_config, getattr. cbn [bind R_monad]. unfold R_bind.
    rewrite lookup_setattr.
    change [INum t; INum x] with (k_tx (t, x)).
    rewrite (block_get_map (list_prod (time b) ld) k_tx cfg (t, x)).
    + reflexivity.
    + apply in_prod; assumption.
    + intros [t' x'] _ Hk. unfold k_tx in Hk. cbn in Hk.
      apply andb_prop in Hk as [_ Hk]. apply andb_prop in Hk as [Hk _].
      unfold cfg. cbn [snd]. f_equal.
      rewrite (Qeq_bool_cong x' x _ Hk), (Qeq_bool_cong x' x _ Hk).
      reflexivity.
Qed.

Lemma state_blocks_1d_defined_state_witness :
  ∃ b',
    CV1D.add_state_blocks (PyFlow backward) (PyBool false)
      (block_1d false false pp_vle "BACKWARD") = (b', inr tt)
    ∧ CV1D.state_config [INum 0; INum 1] b'
      = inr {| sb_has_phase_equilibrium := PyBool false;
               sb_defined_state := true |}
    ∧ CV1D.state_config [INum 0; INum 0] b'
      = inr {| sb_has_phase_equilibrium := PyBool false;
               sb_defined_state := false |}.
Proof.
  destruct (state_blocks_1d_defined_state
              (block_1d false false pp_vle "BACKWARD") (PyFlow backward)
              (PyBool false) [0%Q; (1 # 2)%Q; 1%Q])
    as (b' & H & _ & Hcfg).
  - discriminate.
  - reflexivity.
  - reflexivity.
  - reflexivity.
  - exists b'. split; [exact H |]. split.
    + apply (Hcfg 0%Q 1%Q); [left; reflexivity |].
      right. right. left. reflexivity.
    + apply (Hcfg 0%Q 0%Q); left; reflexivity.
Defined.

(** ** Geometry of the 1-D control volume *)



(** ** Reaction blocks *)

Lemma validated_inv (v : pyval) (b b' : ControlVolume) (u : unit) :
  (match v with
   | PyNone => M_raise ConfigurationError
   | v => if negb (py_in v [PyBool true; PyBool false])
          then M_raise ConfigurationError
          else ret tt
   end : M unit) b = (b', inr u) →
  b' = b.
Proof.
  destruct v; try discriminate;
    (destruct (negb _); [discriminate | intros [= <-]; reflexivity]).
Qed.

Lemma validated_ok (v : pyval) (b : ControlVolume) :
  v ≠ PyNone → py_in v [PyBool true; PyBool false] = true →
  (match v with
   | PyNone => M_raise ConfigurationError
   | v => if negb (py_in v [PyBool true; PyBool false])
          then M_raise ConfigurationError
          else ret tt
   end : M unit) b = (b, inr tt).
Proof.
  intros Hnone Hin. destruct v; try contradiction; rewrite Hin; reflexivity.
Qed.

Lemma add_state_blocks_0d_inv flow hpe b b1 u :
  CV0D.add_state_blocks flow hpe b = (b1, inr u) →
  ∃ d,
    b1 = with_components
           <["properties_out" :=
               CStateBlock (map (λ t, (k_t t,
                 {| sb_has_phase_equilibrium := hpe;
                    sb_defined_state := negb d |})) (time b))]>
           (with_components
              <["properties_in" :=
                  CStateBlock (map (λ t, (k_t t,
                    {| sb_has_phase_equilibrium := hpe;
                       sb_defined_state := d |})) (time b))]> b).
Proof.
  unfold CV0D.add_state_blocks. intros H.
  rewrite (M_bind_ok self _ b b b eq_refl) in H.
  apply M_bind_inv in H as (u1 & b0 & Hv & H).
  apply validated_inv in Hv as ->.
  apply M_bind_inv in H as (ds & b0 & Hd & H).
  assert (b0 = b) as ->.
  { destruct (py_eq flow (PyFlow forward));
      [injection Hd as <- _; reflexivity |].
    destruct (py_eq flow (PyFlow backward));
      [injection Hd as <- _; reflexivity | discriminate]. }
  destruct (has_state_block_class (cfg_property_package b));
    [| discriminate].
  apply M_bind_inv in H as (u2 & b2 & H2 & H).
  apply setattr_inv in H2 as ->. apply setattr_inv in H as ->.
  eauto.
Qed.

Lemma add_state_blocks_1d_inv flow hpe b b1 u :
  CV1D.add_state_blocks flow hpe b = (b1, inr u) →
  ∃ ld blocks,
    CV1D.length_domain b = inr ld
    ∧ Forall2 (λ i kc, fst kc = k_tx i
                       ∧ sb_has_phase_equilibrium (snd kc) = hpe)
              (list_prod (time b) ld) blocks
    ∧ b1 = with_components <["properties" := CStateBlock blocks]> b.
Proof.
  unfold CV1D.add_state_blocks. intros H.
  rewrite (M_bind_ok self _ b b b eq_refl) in H.
  apply M_bind_inv in H as (u1 & b0 & Hv & H).
  apply validated_inv in Hv as ->.
  apply M_bind_inv in H as (u2 & b0 & Hc & H).
  assert (b0 = b) as ->.
  { destruct (negb _); [discriminate | injection Hc as <- _; reflexivity]. }
  apply M_bind_inv in H as (ld & b0 & Hld & H).
  apply lift_inv in Hld as [-> Hld].
  apply M_bind_inv in H as (blocks & b0 & Hb & H).
  apply lift_inv in Hb as [-> Hb]. apply setattr_inv in H as ->.
  exists ld, blocks. split; [exact Hld |]. split; [| reflexivity].
  apply mapR_inv in Hb.
  eapply Forall2_impl; [exact Hb |].
  intros i r Hr. cbv beta in Hr. rule_inv Hr. injection Hr as <-.
  split; reflexivity.
Qed.

Lemma Forall2_keys {I V} (to_key : I → key) (P : V → Prop) (l : list I)
    (rs : list (key * V)) :
  Forall2 (λ i kc, fst kc = to_key i ∧ P (snd kc)) l rs →
  map fst rs = map to_key l.
Proof.
  induction 1 as [| i r l rs [Hi _] _ IH]; [reflexivity |].
  cbn. rewrite Hi, IH. reflexivity.
Qed.

(** X4: [add_reaction_blocks] reads the state blocks it is to be tied to:
    called (with a valid [has_equilibrium]) on a control volume without
    state blocks it raises AttributeError and attaches nothing.  Called
    after [add_state_blocks] has returned, with a reaction package that has
    a reaction-block class, it returns, touches nothing but [reactions],
    and builds one reaction block for each outlet state block (0-D) or
    state block (1-D), each configured with the [has_equilibrium] given. *)
Theorem reaction_blocks_follow_state_blocks (v : variant_)
    (b b1 : ControlVolume) (information_flow has_phase_equilibrium
       has_equilibrium : pyval) (rp : ReactionPackage) :
  let state_blocks :=
    match v with ZeroD => "properties_out" | OneD => "properties" end in
  has_equilibrium ≠ PyNone →
  py_in has_equilibrium [PyBool true; PyBool false] = true →
  (components b !! state_blocks = None →
   add_reaction_blocks v has_equilibrium b = (b, inl AttributeError))
  ∧ (add_state_blocks v information_flow has_phase_equilibrium b
       = (b1, inr tt) →
     cfg_reaction_package b = Some rp →
     has_reaction_block_class rp = true →
     ∃ b2 blocks,
       add_reaction_blocks v has_equilibrium b1 = (b2, inr tt)
       ∧ extends ["reactions"] b1 b2
       ∧ components b1 !! state_blocks = Some (CStateBlock blocks)
       ∧ components b2 !! "reactions"
         = Some (CReactionBlock
                   (map (λ kc, (fst kc,
                                {| rb_has_equilibrium := has_equilibrium |}))
                        blocks))).
Proof.
  intros state_blocks Hnone Hin. split.
  - intros Habs. destruct v; cbn [add_reaction_blocks];
      [unfold CV0D.add_reaction_blocks | unfold CV1D.add_reaction_blocks];
      rewrite (M_bind_ok self _ b b b eq_refl);
      rewrite (M_bind_ok _ _ b b tt (validated_ok _ b Hnone Hin));
      unfold lift, getattr; cbn [bind M_monad]; unfold M_bind;
      subst state_blocks; cbn beta iota in Habs; rewrite Habs; reflexivity.
  - intros H Hrp Hclass. destruct v; cbn [add_state_blocks] in H;
      cbn [add_reaction_blocks]; subst state_blocks; cbn beta iota.
    + apply add_state_blocks_0d_inv in H as (d & ->).
      eexists _, _. split; [| split; [| split]].
      * unfold CV0D.add_reaction_blocks.
        erewrite M_bind_ok by reflexivity.
        erewrite M_bind_ok by (apply validated_ok; assumption).
        erewrite M_bind_ok.
        2:{ unfold lift, getattr. rewrite lookup_setattr. reflexivity. }
        cbn [cfg_reaction_package with_components]. rewrite Hrp, Hclass.
        reflexivity.
      * apply extends_insert.
      * apply lookup_setattr.
      * rewrite lookup_setattr. rewrite map_map. reflexivity.
    + apply add_state_blocks_1d_inv in H as (ld & blocks & Hld & Hkeys & ->).
      apply (Forall2_keys k_tx
               (λ c, sb_has_phase_equilibrium c = has_phase_equilibrium))
        in Hkeys.
      assert (Hld' : CV1D.length_domain
                       (with_components
                          <["properties" := CStateBlock blocks]> b)
                     = inr ld).
      { rewrite <- Hld. apply (ext_length_domain ["properties"]).
        - apply extends_insert.
        - solve_notin. }
      eexists _, blocks. split; [| split; [| split]].
      * unfold CV1D.add_reaction_blocks.
        erewrite M_bind_ok by reflexivity.
        erewrite M_bind_ok by (apply validated_ok; assumption).
        erewrite M_bind_ok.
        2:{ unfold lift, getattr. rewrite lookup_setattr. reflexivity. }
        cbn [cfg_reaction_package with_components]. rewrite Hrp, Hclass.
        rewrite (M_bind_ok _ _ _ _ ld (length_domain_lift _ ld Hld')).
        reflexivity.
      * apply extends_insert.
      * apply lookup_setattr.
      * rewrite lookup_setattr. cbn [time with_components].
        do 2 f_equal.
        rewrite <- (map_map k_tx (λ k, (k, _))), <- Hkeys, map_map.
        reflexivity.
Qed.

Lemma reaction_blocks_follow_state_blocks_witness :
  ∃ b1 b2 blocks,
    add_state_blocks ZeroD (PyFlow forward) (PyBool true) block_vle
    = (b1, inr tt)
    ∧ add_reaction_blocks ZeroD (PyBool false) b1 = (b2, inr tt)
    ∧ components b1 !! "properties_out" = Some (CStateBlock blocks)
    ∧ components b2 !! "reactions"
      = Some (CReactionBlock
                (map (λ kc, (fst kc,
                             {| rb_has_equilibrium := PyBool false |}))
                     blocks))
    ∧ add_reaction_blocks ZeroD (PyBool false) block_vle
      = (block_vle, inl AttributeError).
Proof.
  pose (b1 := fst (add_state_blocks ZeroD (PyFlow forward) (PyBool true)
                     block_vle)).
  destruct (reaction_blocks_follow_state_blocks ZeroD block_vle b1
              (PyFlow forward) (PyBool true) (PyBool false) rp_std)
    as (Habs & Hok).
  - discriminate.
  - reflexivity.
  - destruct (Hok eq_refl eq_refl eq_refl) as (b2 & blocks & H2 & _ & Hb & Hr).
    exists b1, b2, blocks.
    split; [reflexivity |]. split; [exact H2 |]. split; [exact Hb |].
    split; [exact Hr |]. apply Habs. reflexivity.
Defined.

(** ** What the balance methods leave alone *)

(** Membership of an attached name in an explicit list. *)
Ltac in_hyp Hin :=
  lazymatch type of Hin with
  | In _ (_ ++ _) => apply in_app_or in Hin as [Hin | Hin]; in_hyp Hin
  | In _ (if ?c then _ else _) => destruct c; in_hyp Hin
  | In _ (_ :: _) =>
      destruct Hin as [Hin | Hin]; [subst; cbn; tauto | in_hyp Hin]
  | In _ [] => destruct Hin
  end.

(** X5: whatever its arguments and whatever its outcome (it returns or it
    raises part-way), a balance-adding method of either control volume
    changes nothing of the configuration, removes no component, and leaves
    every component outside the family's own list of names as it was.  In
    particular the state blocks, the reaction blocks and the geometry are
    never touched. *)
Theorem balances_attach_only_their_components (v : variant_)
    (fam : balance_family) (a : balance_args) (b : ControlVolume) :
  let b' := fst (add_balance v fam a b) in
  extends (balance_components v fam) b b'
  ∧ Forall (λ n, components b' !! n = components b !! n)
           blocks_and_geometry.
Proof.
  intros b'.
  assert (E : extends (balance_components v fam) b b').
  { subst b'. destruct (add_balance v fam a b) as [b1 r] eqn:H. cbn [fst].
    revert H. destruct v, fam; unfold_balance; intros H;
      (eapply extends_weaken;
       [| refine ((_ : modifies _ _ b) _ _ H); solve_modifies]);
      intros n Hin; in_hyp Hin. }
  split; [exact E |].
  unfold blocks_and_geometry.
  repeat (constructor;
          [apply (ext_frame _ _ _ E); destruct v, fam;
           cbn [balance_components app]; solve_notin |]).
  constructor.
Qed.

(** ** Prerequisites of the balance methods *)

Lemma extends_nil (b b' : ControlVolume) : extends [] b b' → b' = b.
Proof.
  intros [C F _].
  assert (Hc : components b' = components b).
  { apply map_eq. intros n. apply F. intros []. }
  destruct b, b'. cbn in *. injection C as -> -> -> -> -> -> -> -> -> ->.
  rewrite Hc. reflexivity.
Qed.

(** A command that attaches nothing, followed by commands that raise on
    the block as it was. *)
Lemma bind_pure_fails {A B} N (m : M A) (f : A → M B) b :
  modifies N m b → (∀ n, ¬ In n N) →
  (∀ a, ∃ e, f a b = (b, inl e)) →
  ∃ e, (x <- m ;; f x) b = (b, inl e).
Proof.
  intros Hm HN Hf. cbn [bind M_monad]. unfold M_bind.
  destruct (m b) as [b1 [e | a]] eqn:Hmb;
    (assert (b1 = b) as ->
       by (apply extends_nil; eapply extends_weaken; [| exact (Hm _ _ Hmb)];
           intros n Hn; destruct (HN n Hn))).
  - eauto.
  - apply Hf.
Qed.

Lemma bind_fails {A B} (m : M A) (f : A → M B) b :
  (∃ e, m b = (b, inl e)) → ∃ e, (x <- m ;; f x) b = (b, inl e).
Proof.
  intros [e H]. exists e. cbn [bind M_monad]. unfold M_bind. rewrite H.
  reflexivity.
Qed.

Lemma bind_raises {A B} (m : M A) (f : A → M B) b e :
  m b = (b, inl e) → (x <- m ;; f x) b = (b, inl e).
Proof.
  intros H. cbn [bind M_monad]. unfold M_bind. rewrite H. reflexivity.
Qed.

(** The test [if has_holdup: if not hasattr(self, "volume"): raise]. *)
Lemma volume_check_raises (b : ControlVolume) :
  cfg_has_holdup b = true → components b !! "volume" = None →
  when (cfg_has_holdup b)
    (v <- lift (hasattr "volume") ;;
     when (negb v) (M_raise ConfigurationError)) b
  = (b, inl ConfigurationError).
Proof.
  intros Hh Hv. rewrite Hh. cbn [when].
  unfold lift, hasattr. cbn [bind M_monad]. unfold M_bind.
  rewrite Hv. reflexivity.
Qed.

Ltac no_names := let n := fresh "n" in let Hin := fresh "Hin" in
  intros n Hin; notin_hyp Hin.

Ltac pure_step :=
  eapply bind_pure_fails; [solve_modifies | no_names | intros ?].

(** X6: a 0-D control volume configured with [has_holdup=True] on which
    [add_geometry] has not been called (no [volume]) accepts no material,
    element or enthalpy balance: the call raises and leaves the block
    exactly as it was.  The error is a configuration error whenever the
    checks that come first pass: always for the enthalpy balance, for the
    element balance when the package has an element list, and for the
    material balances when no equilibrium flag is set. *)
Theorem holdup_requires_volume (fam : balance_family) (a : balance_args)
    (b : ControlVolume) :
  fam ≠ Pressure →
  cfg_has_holdup b = true →
  components b !! "volume" = None →
  (∃ e, add_balance ZeroD fam a b = (b, inl e))
  ∧ (match fam with
     | MaterialPhase | MaterialTotal =>
         has_equilibrium_reactions a = false
         ∧ has_phase_equilibrium a = false
     | ElementTotal =>
         is_Some (element_list (cfg_property_package b))
     | _ => True
     end →
     add_balance ZeroD fam a b = (b, inl ConfigurationError)).
Proof.
  intros Hfam Hh Hv. split.
  - destruct fam; try contradiction; unfold_balance.
    + apply bind_fails. rewrite (M_bind_ok self _ b b b eq_refl).
      do 3 pure_step.
      apply bind_fails. eexists. apply (volume_check_raises b Hh Hv).
    + apply bind_fails. rewrite (M_bind_ok self _ b b b eq_refl).
      do 3 pure_step.
      apply bind_fails. eexists. apply (volume_check_raises b Hh Hv).
    + rewrite (M_bind_ok self _ b b b eq_refl).
      do 4 pure_step.
      apply bind_fails. eexists. apply (volume_check_raises b Hh Hv).
    + rewrite (M_bind_ok self _ b b b eq_refl).
      apply bind_fails. eexists. apply (volume_check_raises b Hh Hv).
  - destruct fam; try contradiction; unfold_balance.
    + intros [-> ->]. apply bind_raises.
      rewrite (M_bind_ok self _ b b b eq_refl).
      rewrite orb_false_r.
      destruct (has_rate_reactions a); cbn [when].
      * unfold lift, except_AttributeError, getattr.
        cbn [bind M_monad]. unfold M_bind.
        destruct (components b !! "reactions"); [| reflexivity].
        cbn [ret M_ret].
        apply (bind_raises _ _ b), (volume_check_raises b Hh Hv).
      * do 3 (erewrite M_bind_ok by reflexivity).
        apply bind_raises, (volume_check_raises b Hh Hv).
    + intros [-> ->]. apply bind_raises.
      rewrite (M_bind_ok self _ b b b eq_refl).
      rewrite orb_false_r.
      destruct (has_rate_reactions a); cbn [when].
      * unfold lift, except_AttributeError, getattr.
        cbn [bind M_monad]. unfold M_bind.
        destruct (components b !! "reactions"); [| reflexivity].
        cbn [ret M_ret].
        apply (bind_raises _ _ b), (volume_check_raises b Hh Hv).
      * do 3 (erewrite M_bind_ok by reflexivity).
        apply bind_raises, (volume_check_raises b Hh Hv).
    + intros [els Hels].
      rewrite (M_bind_ok self _ b b b eq_refl).
      unfold package_has. rewrite Hels. cbn [negb when].
      erewrite M_bind_ok by reflexivity.
      destruct (has_rate_reactions a); [reflexivity |].
      destruct (has_equilibrium_reactions a); [reflexivity |].
      destruct (has_phase_equilibrium a); [reflexivity |].
      cbn [when]. do 3 (erewrite M_bind_ok by reflexivity).
      apply bind_raises, (volume_check_raises b Hh Hv).
    + intros _. rewrite (M_bind_ok self _ b b b eq_refl).
      apply bind_raises, (volume_check_raises b Hh Hv).
Qed.

Lemma holdup_requires_volume_witness :
  add_balance ZeroD Enthalpy no_terms block_no_volume
  = (block_no_volume, inl ConfigurationError).
Proof.
  apply (proj2 (holdup_requires_volume Enthalpy no_terms block_no_volume
                  ltac:(discriminate) eq_refl eq_refl)).
  exact Logic.I.
Defined.

(** X7: reaction terms need what carries them.  A material balance of
    either control volume asked for rate or equilibrium reaction terms
    while no reaction block is attached, and an enthalpy balance asked for
    a heat-of-reaction term while no reaction extent variable exists, raise
    a configuration error before anything is created (for the 0-D enthalpy
    balance, provided the volume test that comes first passes). *)
Theorem reaction_terms_need_reaction_block (v : variant_)
    (fam : balance_family) (a : balance_args) (b : ControlVolume) :
  match fam with
  | MaterialPhase | MaterialTotal =>
      has_rate_reactions a || has_equilibrium_reactions a = true
      ∧ components b !! "reactions" = None
  | Enthalpy =>
      has_heat_of_reaction a = true
      ∧ components b !! "rate_reaction_extent" = None
      ∧ components b !! "equilibrium_reaction_extent" = None
      ∧ (v = ZeroD → cfg_has_holdup b = true →
         is_Some (components b !! "volume"))
  | _ => False
  end →
  add_balance v fam a b = (b, inl ConfigurationError).
Proof.
  destruct fam; try contradiction.
  - intros [Hr Hn]. destruct v; unfold_balance;
      apply bind_raises; rewrite (M_bind_ok self _ b b b eq_refl);
      rewrite Hr; cbn [when];
      unfold lift, except_AttributeError, getattr;
      cbn [bind M_monad]; unfold M_bind; rewrite Hn; reflexivity.
  - intros [Hr Hn]. destruct v; unfold_balance;
      apply bind_raises; rewrite (M_bind_ok self _ b b b eq_refl);
      rewrite Hr; cbn [when];
      unfold lift, except_AttributeError, getattr;
      cbn [bind M_monad]; unfold M_bind; rewrite Hn; reflexivity.
  - intros (Hh & Hr & He & Hvol). destruct v; unfold_balance;
      rewrite (M_bind_ok self _ b b b eq_refl); rewrite Hh; cbn [when].
    + assert (Hv : when (cfg_has_holdup b)
                     (v <- lift (hasattr "volume") ;;
                      when (negb v) (M_raise ConfigurationError)) b
                   = (b, inr tt)).
      { destruct (cfg_has_holdup b) eqn:Hhold; [| reflexivity].
        destruct (Hvol eq_refl eq_refl) as [c Hc]. cbn [when].
        unfold lift, hasattr. cbn [bind M_monad]. unfold M_bind.
        rewrite Hc. reflexivity. }
      rewrite (M_bind_ok _ _ b b tt Hv).
      apply bind_raises.
      unfold lift, hasattr. cbn [bind M_monad]. unfold M_bind.
      rewrite Hr, He. reflexivity.
    + apply bind_raises.
      unfold lift, hasattr. cbn [bind M_monad]. unfold M_bind.
      rewrite Hr, He. reflexivity.
Qed.

Lemma reaction_terms_need_reaction_block_witness :
  add_balance OneD MaterialTotal with_rate_reactions
    (block_1d_ready false false pp_vle "BACKWARD")
  = (block_1d_ready false false pp_vle "BACKWARD", inl ConfigurationError).
Proof.
  apply (reaction_terms_need_reaction_block OneD MaterialTotal).
  split; reflexivity.
Defined.

Lemma for_raises {I} (body : I → R unit) (i : I) (l : list I) b e :
  body i b = inl e → for_ (i :: l) body b = inl e.
Proof. intros H. cbn [for_]. apply R_bind_raise. exact H. Qed.

(** X8: a material balance asked for phase-equilibrium terms checks the
    state blocks it was given.  When [add_state_blocks] was called with a
    [has_phase_equilibrium] that is false (False, or the 0 that its
    validation lets through), every later material balance with
    [has_phase_equilibrium=True] raises and creates nothing, on either
    control volume with a non-empty time set (and length domain); the error
    is a configuration error when no reaction term is asked for. *)
Theorem phase_equilibrium_needs_equilibrium_state_blocks (v : variant_)
    (fam : balance_family) (a : balance_args) (b b1 : ControlVolume)
    (information_flow has_phase_equilibrium_arg : pyval) :
  fam = MaterialPhase ∨ fam = MaterialTotal →
  add_state_blocks v information_flow has_phase_equilibrium_arg b
  = (b1, inr tt) →
  py_truthy has_phase_equilibrium_arg = false →
  time b ≠ [] →
  (v = OneD → CV1D.length_domain b ≠ inr []) →
  has_phase_equilibrium a = true →
  (∃ e, add_balance v fam a b1 = (b1, inl e))
  ∧ (has_rate_reactions a = false → has_equilibrium_reactions a = false →
     add_balance v fam a b1 = (b1, inl ConfigurationError)).
Proof.
  intros Hfam H Hfalse Htime Hdom Hpe.
  assert (Hcheck :
    match v with
    | ZeroD =>
        when true
          (lift (for_ (time b1) (λ t,
             co <- CV0D.state_config "properties_out" [INum t] ;;
             when (negb (py_truthy (sb_has_phase_equilibrium co)))
                  (R_raise ConfigurationError) ;;
             ci <- CV0D.state_config "properties_in" [INum t] ;;
             when (negb (py_truthy (sb_has_phase_equilibrium ci)))
                  (R_raise ConfigurationError)))) b1
    | OneD =>
        when true
          (lift (for_ (time b1) (λ t,
             ld <- CV1D.length_domain ;;
             for_ ld (λ x,
               cfg <- CV1D.state_config [INum t; INum x] ;;
               when (negb (py_truthy (sb_has_phase_equilibrium cfg)))
                    (R_raise ConfigurationError))))) b1
    end = (b1, inl ConfigurationError)).
  { destruct v; cbn [add_state_blocks] in H.
    - apply add_state_blocks_0d_inv in H as (d & ->).
      cbn [time with_components when]. unfold lift. f_equal.
      destruct (time b) as [| t0 T] eqn:Ht; [contradiction |].
      apply for_raises.
      erewrite R_bind_ok.
      2:{ apply (state_config_0d_lookup _ (t0 :: T)).
          - apply lookup_setattr.
          - left. reflexivity. }
      cbn [sb_has_phase_equilibrium]. rewrite Hfalse. reflexivity.
    - apply add_state_blocks_1d_inv in H as (ld & blocks & Hld & Hb & ->).
      cbn [time with_components when]. unfold lift. f_equal.
      destruct (time b) as [| t0 T] eqn:Ht; [contradiction |].
      destruct ld as [| x0 s]; [destruct (Hdom eq_refl Hld) |].
      apply for_raises.
      erewrite R_bind_ok.
      2:{ rewrite <- Hld. apply (ext_length_domain ["properties"]).
          - apply extends_insert.
          - solve_notin. }
      apply for_raises.
      cbn [list_prod map app] in Hb.
      apply Forall2_cons_inv_l in Hb as ([k0 c0] & rest & [Hk Hc] & _ & ->).
      cbn [fst snd] in Hk, Hc. subst k0.
      unfold CV1D.state_config, getattr. cbn [bind R_monad]. unfold R_bind.
      rewrite lookup_setattr. cbn [block_get].
      change (k_tx (t0, x0)) with [INum t0; INum x0].
      rewrite key_eqb_refl. cbn [ret R_ret R_monad].
      rewrite Hc, Hfalse. reflexivity. }
  split.
  - destruct Hfam as [-> | ->]; destruct v; unfold_balance;
      apply bind_fails; rewrite (M_bind_ok self _ b1 b1 b1 eq_refl);
      do 2 pure_step; apply bind_fails; rewrite Hpe;
      eexists; exact Hcheck.
  - intros Hr He.
    destruct Hfam as [-> | ->]; destruct v; unfold_balance;
      apply bind_raises; rewrite (M_bind_ok self _ b1 b1 b1 eq_refl);
      rewrite Hr, He; cbn [orb];
      do 2 (erewrite M_bind_ok by reflexivity);
      apply bind_raises; rewrite Hpe; exact Hcheck.
Qed.

Lemma phase_equilibrium_needs_equilibrium_state_blocks_witness :
  add_balance ZeroD MaterialPhase with_phase_equilibrium block_no_equilibrium
  = (block_no_equilibrium, inl ConfigurationError).
Proof.
  apply (proj2 (phase_equilibrium_needs_equilibrium_state_blocks ZeroD
                  MaterialPhase with_phase_equilibrium block_vle
                  block_no_equilibrium (PyFlow forward) (PyInt 0)
                  (or_introl eq_refl) eq_refl eq_refl
                  ltac:(discriminate) ltac:(discriminate) eq_refl));
    reflexivity.
Defined.

(** ** Scaling of the 1-D energy and pressure balances *)

Lemma enthalpy_rule_scaled_1d hr ht hw custom i b eq :
  CV1D.enthalpy_balances hr ht hw custom i b = inr (Some eq) →
  Forall (scaled_by "scaling_factor_energy")
         (additive_terms (eq_lhs eq) ++ additive_terms (eq_rhs eq)).
Proof.
  destruct i as [t x]. unfold CV1D.enthalpy_balances. intros H.
  apply R_bind_inv in H as (b0 & _ & H).
  apply R_bind_inv in H as (skip & _ & H).
  destruct skip; [discriminate |]. cbv zeta in H.
  rule_inv H. refs_inv. injection H as <-.
  cbn [eq_lhs eq_rhs additive_terms app].
  repeat constructor; eexists; reflexivity.
Qed.

Lemma pressure_rule_scaled_1d hp custom i b eq :
  CV1D.pressure_balance hp custom i b = inr (Some eq) →
  eq_lhs eq = ENum 0
  ∧ Forall (scaled_by "scaling_factor_pressure")
           (additive_terms (eq_rhs eq)).
Proof.
  destruct i as [t x]. unfold CV1D.pressure_balance. intros H.
  apply R_bind_inv in H as (skip & _ & H).
  destruct skip; [discriminate |].
  rule_inv H. refs_inv. injection H as <-.
  split; [reflexivity |].
  cbn [eq_lhs eq_rhs additive_terms app].
  repeat constructor; eexists; reflexivity.
Qed.

(** X9: in the 1-D control volume too, every additive term of every
    enthalpy balance equation, on both sides, is a product with the mutable
    parameter [scaling_factor_energy] (default 1e-6), and every pressure
    balance equation has the literal 0 on its left and on its right only
    products with the mutable parameter [scaling_factor_pressure] (default
    1e-4). *)
Theorem balances_1d_scaled :
  (∀ has_heat_of_reaction has_heat_transfer has_work_transfer custom_term
     b b' c,
     CV1D.add_total_enthalpy_balances has_heat_of_reaction has_heat_transfer
       has_work_transfer custom_term b = (b', inr c) →
     components b' !! "scaling_factor_energy"
       = Some (CParam (1 # 1000000) true)
     ∧ components b' !! "enthalpy_balances" = Some c
     ∧ ∃ body, c = CConstraint body
         ∧ ∀ k eq, In (k, eq) body →
             Forall (scaled_by "scaling_factor_energy")
                    (additive_terms (eq_lhs eq)
                     ++ additive_terms (eq_rhs eq)))
  ∧ (∀ has_pressure_change custom_term b b' c,
       CV1D.add_total_pressure_balances has_pressure_change custom_term b
         = (b', inr c) →
       components b' !! "scaling_factor_pressure"
         = Some (CParam (1 # 10000) true)
       ∧ components b' !! "pressure_balance" = Some c
       ∧ ∃ body, c = CConstraint body
           ∧ ∀ k eq, In (k, eq) body →
               eq_lhs eq = ENum 0
               ∧ Forall (scaled_by "scaling_factor_pressure")
                        (additive_terms (eq_rhs eq))).
Proof.
  split.
  - intros hr ht hw custom b b' c H.
    unfold CV1D.add_total_enthalpy_balances in H.
    rewrite (M_bind_ok self _ b b b eq_refl) in H. cbv beta zeta in H.
    pose proof (extends_refl [] b) as E.
    do 7 walk H E.
    apply M_bind_inv in H as (usf & bsf & H5 & H). apply setattr_inv in H5.
    pose proof (extends_refl [] bsf) as E5.
    do 3 walk H E5.
    apply M_bind_inv in H as (ucon & bcon & H9 & H).
    apply Constraint_inv in H9 as (body & Hbody & H9).
    pose proof (extends_refl [] bcon) as E9.
    walk H E9.
    apply getattr_lift_inv in H as [-> Hc].
    assert (Hsf9 : components bcon !! "scaling_factor_energy"
                   = Some (CParam (1 # 1000000) true)).
    { rewrite H9. cbn. rewrite lookup_insert_ne by discriminate.
      rewrite (ext_frame _ _ _ E5) by solve_notin.
      rewrite H5. apply lookup_setattr. }
    assert (Hc9 : components bcon !! "enthalpy_balances"
                  = Some (CConstraint body)).
    { rewrite H9. apply lookup_setattr. }
    rewrite (ext_frame _ _ _ E9) in Hc by solve_notin.
    rewrite Hc9 in Hc. injection Hc as <-.
    split; [| split].
    + rewrite (ext_frame _ _ _ E9) by solve_notin. exact Hsf9.
    + rewrite (ext_frame _ _ _ E9) by solve_notin. exact Hc9.
    + exists body. split; [reflexivity |].
      apply build_indexed_inv in Hbody as (rs & Hrs & ->).
      intros k eq Hin.
      apply (body_In_inv _ _ _ _ _ _ _ Hrs) in Hin as (i & _ & _ & Hi).
      exact (enthalpy_rule_scaled_1d _ _ _ _ _ _ _ Hi).
  - intros hp custom b b' c H.
    unfold CV1D.add_total_pressure_balances in H.
    rewrite (M_bind_ok self _ b b b eq_refl) in H. cbv beta zeta in H.
    pose proof (extends_refl [] b) as E.
    do 5 walk H E.
    apply M_bind_inv in H as (usf & bsf & H2 & H). apply setattr_inv in H2.
    apply M_bind_inv in H as (ucon & bcon & H3 & H).
    apply Constraint_inv in H3 as (body & Hbody & H3).
    apply getattr_lift_inv in H as [-> Hc].
    assert (Hc3 : components bcon !! "pressure_balance"
                  = Some (CConstraint body)).
    { rewrite H3. apply lookup_setattr. }
    rewrite Hc3 in Hc. injection Hc as <-.
    split; [| split].
    + rewrite H3. cbn. rewrite lookup_insert_ne by discriminate.
      rewrite H2. apply lookup_setattr.
    + exact Hc3.
    + exists body. split; [reflexivity |].
      apply build_indexed_inv in Hbody as (rs & Hrs & ->).
      intros k eq Hin.
      apply (body_In_inv _ _ _ _ _ _ _ Hrs) in Hin as (i & _ & _ & Hi).
      exact (pressure_rule_scaled_1d _ _ _ _ _ Hi).
Qed.

Lemma balances_1d_scaled_witness :
  ∃ b' c body,
    CV1D.add_total_pressure_balances true None
      (block_1d_ready false false pp_vle "BACKWARD") = (b', inr c)
    ∧ c = CConstraint body
    ∧ components b' !! "scaling_factor_pressure"
      = Some (CParam (1 # 10000) true)
    ∧ ∀ k eq, In (k, eq) body → eq_lhs eq = ENum 0.
Proof.
  assert (H : ∃ b' c,
            CV1D.add_total_pressure_balances true None
              (block_1d_ready false false pp_vle "BACKWARD") = (b', inr c)).
  { vm_compute. eexists _, _. reflexivity. }
  destruct H as (b' & c & H).
  destruct (proj2 balances_1d_scaled true None _ _ _ H)
    as (Hsf & _ & body & Hc & Hsc).
  exists b', c, body. repeat split; try assumption.
  intros k eq Hin. exact (proj1 (Hsc k eq Hin)).
Defined.

(** ** Flow variables of the 1-D balances *)

Lemma DerivativeVar_inv (n sVar wrt : string) b b' u :
  DerivativeVar n sVar wrt b = (b', inr u) →
  ∃ v, components b !! sVar = Some v
       ∧ b' = with_components
                <[n := CDerivativeVar sVar wrt (component_index v)]> b.
Proof.
  unfold DerivativeVar. intros H.
  apply M_bind_inv in H as (v & b1 & Hv & H).
  apply getattr_lift_inv in Hv as [-> Hv]. apply setattr_inv in H.
  eauto.
Qed.

(** What the three commands that declare a flow variable, its linking
    constraint and its derivative leave on the block, when the rule of the
    constraint never skips. *)
Lemma flow_declared {I} (flow link dx : string) (init : Q) (index : list I)
    (to_key : I → key) (rule : I → R (option equation))
    {B} (rest : M B) (b b' : ControlVolume) (u : B) N :
  (setattr flow (CVar (map to_key index) init) ;;
   Constraint link index to_key rule ;;
   DerivativeVar dx flow "length_domain" ;;
   rest) b = (b', inr u) →
  (∀ bk, modifies N rest bk) →
  ¬ In flow N → ¬ In link N → ¬ In dx N →
  flow ≠ link → flow ≠ dx → link ≠ dx →
  (∀ i bk, rule i bk ≠ inr None) →
  components b' !! flow = Some (CVar (map to_key index) init)
  ∧ (∃ body, components b' !! link = Some (CConstraint body)
             ∧ map fst body = map to_key index)
  ∧ components b' !! dx
    = Some (CDerivativeVar flow "length_domain" (map to_key index)).
Proof.
  intros H Hrest Hf Hl Hd Hfl Hfd Hld Hrule.
  apply M_bind_inv in H as (u1 & b1 & H1 & H). apply setattr_inv in H1.
  apply M_bind_inv in H as (u2 & b2 & H2 & H).
  apply Constraint_inv in H2 as (body & Hbody & H2).
  apply M_bind_inv in H as (u3 & b3 & H3 & H).
  apply DerivativeVar_inv in H3 as (v & Hv & H3).
  pose proof (Hrest b3 _ _ H) as E.
  assert (Hflow : components b2 !! flow
                  = Some (CVar (map to_key index) init)).
  { rewrite H2. cbn. rewrite lookup_insert_ne by congruence.
    rewrite H1. apply lookup_setattr. }
  rewrite Hflow in Hv. injection Hv as <-. cbn [component_index] in H3.
  split; [| split].
  - rewrite (ext_frame _ _ _ E) by assumption.
    rewrite H3. cbn. rewrite lookup_insert_ne by congruence. exact Hflow.
  - exists body. split.
    + rewrite (ext_frame _ _ _ E) by assumption.
      rewrite H3. cbn. rewrite lookup_insert_ne by congruence.
      rewrite H2. apply lookup_setattr.
    + apply build_indexed_inv in Hbody as (rs & Hrs & ->).
      apply (body_keys_total _ _ _ _ _ Hrs). intros i _. apply Hrule.
  - rewrite (ext_frame _ _ _ E) by assumption.
    rewrite H3. apply lookup_setattr.
Qed.

Lemma material_flow_rule_total i bk :
  CV1D.material_flow_linking_constraints i bk ≠ inr None.
Proof.
  destruct i as [[t x] [p j]]. unfold CV1D.material_flow_linking_constraints.
  intros H. rule_inv H. discriminate.
Qed.

Lemma elemental_flow_rule_total i bk :
  CV1D.elemental_flow_constraint i bk ≠ inr None.
Proof.
  destruct i as [[t x] e]. unfold CV1D.elemental_flow_constraint.
  intros H. rule_inv H. discriminate.
Qed.

Lemma enthalpy_flow_rule_total i bk :
  CV1D.enthalpy_flow_linking_constraint i bk ≠ inr None.
Proof.
  destruct i as [[t x] p]. unfold CV1D.enthalpy_flow_linking_constraint.
  intros H. rule_inv H. discriminate.
Qed.

Lemma pressure_flow_rule_total i bk :
  CV1D.pressure_linking_constraint i bk ≠ inr None.
Proof.
  destruct i as [t x]. unfold CV1D.pressure_linking_constraint.
  intros H. rule_inv H. discriminate.
Qed.

Ltac flow_side_conditions :=
  first [ intros ?; solve_modifies
        | solve_notin
        | discriminate
        | apply material_flow_rule_total
        | apply elemental_flow_rule_total
        | apply enthalpy_flow_rule_total
        | apply pressure_flow_rule_total ].

Lemma material_flow_linked (bt : MaterialBalanceType) hr he hp hm cmol cmass
    b b' u ld :
  bt = componentPhase ∨ bt = componentTotal →
  CV1D.length_domain b = inr ld →
  CV1D._add_material_balance_common bt hr he hp hm cmol cmass b
  = (b', inr u) →
  let index :=
    map k_txpj (list_prod (list_prod (time b) ld)
                  (get_phase_component_set (cfg_property_package b))) in
  components b' !! "_flow_terms" = Some (CVar index 1)
  ∧ (∃ body,
       components b' !! "material_flow_linking_constraints"
       = Some (CConstraint body)
       ∧ map fst body = index)
  ∧ components b' !! "material_flow_dx"
    = Some (CDerivativeVar "_flow_terms" "length_domain" index).
Proof.
  intros Hbt Hld H index. subst index.
  unfold CV1D._add_material_balance_common in H.
  rewrite (M_bind_ok self _ b b b eq_refl) in H.
  destruct Hbt as [-> | ->]; cbv beta iota zeta in H;
    pose proof (extends_refl [] b) as E;
    do 5 walk H E;
    read_length_domain b ld H E Hld;
    (eapply flow_declared in H; [exact H | ..]); flow_side_conditions.
Qed.

Lemma element_flow_linked hr he hp hm custom b b' c ld :
  CV1D.length_domain b = inr ld →
  CV1D.add_total_element_balances hr he hp hm custom b = (b', inr c) →
  ∃ els, element_list (cfg_property_package b) = Some els ∧
  let index := map CV1D.k_txe (list_prod (list_prod (time b) ld) els) in
  components b' !! "elemental_flow_term" = Some (CVar index 1)
  ∧ (∃ body,
       components b' !! "elemental_flow_constraint" = Some (CConstraint body)
       ∧ map fst body = index)
  ∧ components b' !! "elemental_flow_dx"
    = Some (CDerivativeVar "elemental_flow_term" "length_domain" index).
Proof.
  intros Hld H.
  unfold CV1D.add_total_element_balances in H.
  rewrite (M_bind_ok self _ b b b eq_refl) in H. cbv beta zeta in H.
  pose proof (extends_refl [] b) as E.
  do 6 walk H E.
  read_length_domain b ld H E Hld.
  apply M_bind_inv in H as (els & bk & Hels & H).
  apply lift_inv in Hels as [-> Hels]. cbv beta in H.
  exists els. split.
  { destruct (element_list (cfg_property_package b)); [| discriminate].
    injection Hels as <-. reflexivity. }
  cbv zeta.
  (eapply flow_declared in H; [exact H | ..]); flow_side_conditions.
Qed.

Lemma enthalpy_flow_linked hr ht hw custom b b' c ld :
  CV1D.length_domain b = inr ld →
  CV1D.add_total_enthalpy_balances hr ht hw custom b = (b', inr c) →
  let index :=
    map k_txp (list_prod (list_prod (time b) ld)
                 (phase_list (cfg_property_package b))) in
  components b' !! "_enthalpy_flow" = Some (CVar index 1)
  ∧ (∃ body,
       components b' !! "enthalpy_flow_linking_constraint"
       = Some (CConstraint body)
       ∧ map fst body = index)
  ∧ components b' !! "enthalpy_flow_dx"
    = Some (CDerivativeVar "_enthalpy_flow" "length_domain" index).
Proof.
  intros Hld H index. subst index.
  unfold CV1D.add_total_enthalpy_balances in H.
  rewrite (M_bind_ok self _ b b b eq_refl) in H. cbv beta zeta in H.
  pose proof (extends_refl [] b) as E.
  walk H E.
  read_length_domain b ld H E Hld.
  (eapply flow_declared in H; [exact H | ..]); flow_side_conditions.
Qed.

Lemma pressure_flow_linked hp custom b b' c ld :
  CV1D.length_domain b = inr ld →
  CV1D.add_total_pressure_balances hp custom b = (b', inr c) →
  let index := map k_tx (list_prod (time b) ld) in
  components b' !! "pressure" = Some (CVar index 100000)
  ∧ (∃ body,
       components b' !! "pressure_linking_constraint"
       = Some (CConstraint body)
       ∧ map fst body = index)
  ∧ components b' !! "pressure_dx"
    = Some (CDerivativeVar "pressure" "length_domain" index).
Proof.
  intros Hld H index. subst index.
  unfold CV1D.add_total_pressure_balances in H.
  rewrite (M_bind_ok self _ b b b eq_refl) in H. cbv beta zeta in H.
  pose proof (extends_refl [] b) as E.
  read_length_domain b ld H E Hld.
  (eapply flow_declared in H; [exact H | ..]); flow_side_conditions.
Qed.

(** X10: every balance family of the 1-D control volume carries its flow
    along the length domain in a variable of its own ([_flow_terms],
    [elemental_flow_term], [_enthalpy_flow], [pressure]), declares the
    derivative of that variable with respect to the length domain, and
    links the variable to the state blocks by a constraint.  Variable,
    derivative and linking constraint are indexed alike, and the constraint
    has an equation at every time point and every point of the length
    domain: unlike the balance itself, it is written at the boundary point
    too. *)
Theorem flow_linked_at_every_point (fam : balance_family) (a : balance_args)
    (b b' : ControlVolume) (c : component) (ld : list Q) :
  CV1D.length_domain b = inr ld →
  add_balance_1d fam a b = (b', inr c) →
  ∃ index body,
    components b' !! fst (fst (fst (flow_linking fam)))
    = Some (CVar index (snd (flow_linking fam)))
    ∧ components b' !! snd (fst (fst (flow_linking fam)))
      = Some (CConstraint body)
    ∧ map fst body = index
    ∧ components b' !! snd (fst (flow_linking fam))
      = Some (CDerivativeVar (fst (fst (fst (flow_linking fam))))
                             "length_domain" index)
    ∧ ∀ (t x : Q) (rest : key),
        In t (time b) → In x ld → In rest (flow_suffixes fam b) →
        In ([INum t; INum x] ++ rest) index.
Proof.
  intros Hld H. destruct fam; cbn [add_balance_1d] in H;
    cbn [flow_linking flow_suffixes fst snd].
  - unfold CV1D.add_phase_component_balances in H.
    apply M_bind_inv in H as (u & bl & H & Hget).
    apply getattr_lift_inv in Hget as [-> _].
    destruct (material_flow_linked _ _ _ _ _ _ _ _ _ _ _
                (or_introl eq_refl) Hld H) as (Hf & (body & Hl & Hk) & Hd).
    eexists _, body.
    split; [exact Hf |]. split; [exact Hl |]. split; [exact Hk |].
    split; [exact Hd |].
    intros t x rest Ht Hx Hrest.
    apply in_map_iff in Hrest as ([p j] & <- & Hpj).
    apply in_map_iff. exists (t, x, (p, j)). split; [reflexivity |].
    apply in_prod; [apply in_prod |]; assumption.
  - unfold CV1D.add_total_component_balances in H.
    apply M_bind_inv in H as (u & bl & H & Hget).
    apply getattr_lift_inv in Hget as [-> _].
    destruct (material_flow_linked _ _ _ _ _ _ _ _ _ _ _
                (or_intror eq_refl) Hld H) as (Hf & (body & Hl & Hk) & Hd).
    eexists _, body.
    split; [exact Hf |]. split; [exact Hl |]. split; [exact Hk |].
    split; [exact Hd |].
    intros t x rest Ht Hx Hrest.
    apply in_map_iff in Hrest as ([p j] & <- & Hpj).
    apply in_map_iff. exists (t, x, (p, j)). split; [reflexivity |].
    apply in_prod; [apply in_prod |]; assumption.
  - destruct (element_flow_linked _ _ _ _ _ _ _ _ _ Hld H)
      as (els & Hels & Hf & (body & Hl & Hk) & Hd).
    eexists _, body.
    split; [exact Hf |]. split; [exact Hl |]. split; [exact Hk |].
    split; [exact Hd |].
    intros t x rest Ht Hx Hrest. rewrite Hels in Hrest.
    apply in_map_iff in Hrest as (e & <- & He).
    apply in_map_iff. exists (t, x, e). split; [reflexivity |].
    apply in_prod; [apply in_prod |]; assumption.
  - destruct (enthalpy_flow_linked _ _ _ _ _ _ _ _ Hld H)
      as (Hf & (body & Hl & Hk) & Hd).
    eexists _, body.
    split; [exact Hf |]. split; [exact Hl |]. split; [exact Hk |].
    split; [exact Hd |].
    intros t x rest Ht Hx Hrest.
    apply in_map_iff in Hrest as (p & <- & Hp).
    apply in_map_iff. exists (t, x, p). split; [reflexivity |].
    apply in_prod; [apply in_prod |]; assumption.
  - destruct (pressure_flow_linked _ _ _ _ _ _ Hld H)
      as (Hf & (body & Hl & Hk) & Hd).
    eexists _, body.
    split; [exact Hf |]. split; [exact Hl |]. split; [exact Hk |].
    split; [exact Hd |].
    intros t x rest Ht Hx [<- | []].
    apply in_map_iff. exists (t, x). split; [reflexivity |].
    apply in_prod; assumption.
Qed.

Lemma flow_linked_at_every_point_witness :
  ∃ b' c body,
    add_balance_1d Pressure no_terms
      (block_1d_ready false false pp_vle "BACKWARD") = (b', inr c)
    ∧ components b' !! "pressure_linking_constraint"
      = Some (CConstraint body)
    ∧ In [INum 0; INum 0] (map fst body)
    ∧ In [INum 0; INum 1] (map fst body).
Proof.
  assert (H : ∃ b' c,
            add_balance_1d Pressure no_terms
              (block_1d_ready false false pp_vle "BACKWARD") = (b', inr c)).
  { vm_compute. eexists _, _. reflexivity. }
  destruct H as (b' & c & H).
  destruct (flow_linked_at_every_point Pressure no_terms
              (block_1d_ready false false pp_vle "BACKWARD") b' c
              [0%Q; (1 # 2)%Q; 1%Q] eq_refl H)
    as (index & body & _ & Hl & Hk & _ & Hin).
  exists b', c, body. split; [exact H |]. split; [exact Hl |].
  rewrite Hk. split.
  - apply (Hin 0%Q 0%Q []); vm_compute; auto.
  - apply (Hin 0%Q 1%Q []); vm_compute; auto.
Defined.

(** * Further properties of initialization *)

(** ** Fixing and restoring the source state *)

Lemma I_bind_inv {A B} (m : Init.I A) (f : A → Init.I B) w w' r :
  (x <- m ;; f x) w = (w', inr r) →
  ∃ a w1, m w = (w1, inr a) ∧ f a w1 = (w', inr r).
Proof.
  cbn [bind Init.I_monad]. unfold Init.I_bind.
  destruct (m w) as [w1 [e | a]]; [discriminate | eauto].
Qed.

Lemma shape_cons k pm sb :
  shape ((k, pm) :: sb)
  = (k, match pm with
        | Init.Scalar _ => None
        | Init.Indexed ms => Some (map fst ms)
        end) :: shape sb.
Proof. reflexivity. Qed.

Lemma fixed_of_cons k pm sb :
  fixed_of ((k, pm) :: sb)
  = (k, match pm with
        | Init.Scalar v => Init.FlagScalar (Init.fixed v)
        | Init.Indexed ms =>
            Init.FlagIndexed (map (λ mv, (fst mv, Init.fixed (snd mv))) ms)
        end) :: fixed_of sb.
Proof. reflexivity. Qed.

Lemma fix_members_flags ms ms' args flags :
  Init.fix_members ms = (ms', inr (args, flags)) →
  flags = map (λ mv, (fst mv, Init.fixed (snd mv))) ms
  ∧ map fst ms' = map fst ms.
Proof.
  revert ms' args flags.
  induction ms as [| [m v] ms IH]; intros ms' args flags H; cbn in H.
  - injection H as <- <- <-. split; reflexivity.
  - destruct (Init.value v) as [x |]; [| discriminate].
    destruct (Init.fix_members ms) as [rest [e | [a f]]]; [discriminate |].
    injection H as <- <- <-.
    destruct (IH _ _ _ eq_refl) as [-> Hk]. cbn. rewrite Hk.
    split; reflexivity.
Qed.

Lemma fix_source_flags sb sb' args flags :
  Init.fix_source sb = (sb', inr (args, flags)) →
  flags = fixed_of sb ∧ shape sb' = shape sb.
Proof.
  revert sb' args flags.
  induction sb as [| [k pm] sb IH]; intros sb' args flags H; cbn in H.
  - injection H as <- <- <-. split; reflexivity.
  - destruct pm as [v | ms].
    + destruct (Init.value v) as [x |]; [| discriminate].
      destruct (Init.fix_source sb) as [rest [e | [a f]]]; [discriminate |].
      injection H as <- <- <-.
      destruct (IH _ _ _ eq_refl) as [-> Hs].
      split; [reflexivity |]. unfold shape in *. cbn. rewrite Hs.
      reflexivity.
    + destruct (Init.fix_members ms) as [ms' [e | [ma mf]]] eqn:Hm;
        [discriminate |].
      destruct (Init.fix_source sb) as [rest [e | [a f]]]; [discriminate |].
      injection H as <- <- <-.
      destruct (fix_members_flags _ _ _ _ Hm) as [-> Hk].
      destruct (IH _ _ _ eq_refl) as [-> Hs].
      split; [reflexivity |]. unfold shape in *. cbn. rewrite Hs, Hk.
      reflexivity.
Qed.

Lemma fix_members_to_flags ms arg ms' flags :
  Init.fix_members_to ms arg = (ms', inr flags) →
  flags = map (λ mv, (fst mv, Init.fixed (snd mv))) ms
  ∧ map fst ms' = map fst ms.
Proof.
  revert ms' flags.
  induction ms as [| [m v] ms IH]; intros ms' flags H; cbn in H.
  - injection H as <- <-. split; reflexivity.
  - destruct (Init.fix_members_to ms arg) as [rest [e | f]] eqn:Hrest.
    + destruct (Init.fixed v); [discriminate |].
      destruct arg as [[x | vs] |]; try discriminate.
      destruct (dict_get vs m); discriminate.
    + destruct (IH _ _ eq_refl) as [-> Hk].
      destruct (Init.fixed v) eqn:Hf.
      * injection H as <- <-. cbn. rewrite Hk, Hf. split; reflexivity.
      * destruct arg as [[x | vs] |]; try discriminate.
        destruct (dict_get vs m); [| discriminate].
        injection H as <- <-. cbn. rewrite Hk, Hf. split; reflexivity.
Qed.

Lemma fix_source_to_flags sb a sb' flags :
  Init.fix_source_to sb a = (sb', inr flags) →
  flags = fixed_of sb ∧ shape sb' = shape sb.
Proof.
  revert sb' flags.
  induction sb as [| [k pm] sb IH]; intros sb' flags H; cbn in H.
  - injection H as <- <-. split; reflexivity.
  - destruct pm as [v | ms].
    + destruct (Init.fix_source_to sb a) as [rest [e | f]];
        [discriminate |].
      injection H as <- <-.
      destruct (IH _ _ eq_refl) as [-> Hs].
      split; [reflexivity |]. unfold shape in *. cbn. rewrite Hs.
      reflexivity.
    + destruct (Init.fix_members_to ms (Init.args_get a k))
        as [ms' [e | mf]] eqn:Hm; [discriminate |].
      destruct (Init.fix_source_to sb a) as [rest [e | f]];
        [discriminate |].
      injection H as <- <-.
      destruct (fix_members_to_flags _ _ _ _ Hm) as [-> Hk].
      destruct (IH _ _ eq_refl) as [-> Hs].
      split; [reflexivity |]. unfold shape in *. cbn. rewrite Hs, Hk.
      reflexivity.
Qed.

Lemma fixed_of_shape sb1 sb2 :
  fixed_of sb1 = fixed_of sb2 → shape sb1 = shape sb2.
Proof.
  revert sb2. induction sb1 as [| [k pm] sb1 IH]; intros [| [k2 pm2] sb2] H;
    try discriminate; [reflexivity |].
  rewrite !fixed_of_cons in H. injection H as Hk Hpm H.
  rewrite !shape_cons, (IH _ H), Hk. do 2 f_equal.
  destruct pm as [v | ms], pm2 as [v2 | ms2]; try discriminate;
    [reflexivity |].
  injection Hpm as Hms. f_equal.
  apply (f_equal (map fst)) in Hms. rewrite !map_map in Hms. exact Hms.
Qed.

(** Looking the recorded flag of a member up among the flags of all the
    members finds it, when the indices are distinct. *)
Lemma dict_get_fixed ms m v :
  distinct_idx (map fst ms) = true → In (m, v) ms →
  dict_get (map (λ mv, (fst mv, Init.fixed (snd mv))) ms) m
  = Some (Init.fixed v).
Proof.
  induction ms as [| [m0 v0] ms IH]; intros Hd Hin; [destruct Hin |].
  cbn in Hd. apply andb_prop in Hd as [Hfresh Hd]. cbn.
  destruct Hin as [[= -> ->] | Hin].
  - rewrite idx_eqb_refl. reflexivity.
  - destruct (idx_eqb m0 m) eqn:Heq; [| exact (IH Hd Hin)].
    exfalso. apply negb_true_iff in Hfresh.
    assert (existsb (idx_eqb m0) (map fst ms) = true); [| congruence].
    apply existsb_exists. exists m. split; [| exact Heq].
    apply in_map_iff. exists (m, v). split; [reflexivity | exact Hin].
Qed.

Lemma restore_members_flags (fs : list (idx * bool)) ms2 ms :
  map fst ms2 = map fst ms →
  (∀ m v, In (m, v) ms → dict_get fs m = Some (Init.fixed v)) →
  ∃ ms3,
    Init.restore_members ms2 (Some (Init.FlagIndexed fs)) = (ms3, inr tt)
    ∧ map (λ mv, (fst mv, Init.fixed (snd mv))) ms3
      = map (λ mv, (fst mv, Init.fixed (snd mv))) ms.
Proof.
  revert ms. induction ms2 as [| [m2 v2] ms2 IH]; intros [| [m v] ms] Hk Hfs;
    try discriminate.
  - exists []. split; reflexivity.
  - cbn in Hk. injection Hk as -> Hk.
    destruct (IH ms Hk (λ m' v' H, Hfs m' v' (or_intror H)))
      as (ms3 & H3 & Hf3).
    cbn. rewrite (Hfs m v (or_introl eq_refl)), H3.
    eexists. split; [reflexivity |]. cbn. rewrite Hf3. reflexivity.
Qed.

Lemma flags_get_fixed sb k pm :
  NoDup (map fst sb) → In (k, pm) sb →
  Init.flags_get (fixed_of sb) k
  = Some (match pm with
          | Init.Scalar v => Init.FlagScalar (Init.fixed v)
          | Init.Indexed ms =>
              Init.FlagIndexed (map (λ mv, (fst mv, Init.fixed (snd mv))) ms)
          end).
Proof.
  induction sb as [| [k0 pm0] sb IH]; intros Hd Hin; [destruct Hin |].
  cbn in Hd. apply NoDup_cons in Hd as [Hfresh Hd]. cbn.
  destruct Hin as [[= -> ->] | Hin].
  - rewrite String.eqb_refl. reflexivity.
  - destruct (String.eqb k0 k) eqn:Heq; [| exact (IH Hd Hin)].
    apply String.eqb_eq in Heq as ->. exfalso. apply Hfresh.
    apply list_elem_of_In, in_map_iff. exists (k, pm).
    split; [reflexivity | exact Hin].
Qed.

Lemma restore_source_flags (flags : Init.Flags) sb2 sb :
  shape sb2 = shape sb →
  (∀ k pm, In (k, pm) sb →
     Init.flags_get flags k
     = Some (match pm with
             | Init.Scalar v => Init.FlagScalar (Init.fixed v)
             | Init.Indexed ms =>
                 Init.FlagIndexed
                   (map (λ mv, (fst mv, Init.fixed (snd mv))) ms)
             end)
     ∧ match pm with
       | Init.Scalar _ => True
       | Init.Indexed ms => distinct_idx (map fst ms) = true
       end) →
  ∃ sb3,
    Init.restore_source sb2 flags = (sb3, inr tt)
    ∧ fixed_of sb3 = fixed_of sb.
Proof.
  revert sb. induction sb2 as [| [k2 pm2] sb2 IH]; intros [| [k pm] sb] Hs Hfl;
    try discriminate.
  - exists []. split; reflexivity.
  - rewrite !shape_cons in Hs. injection Hs as -> Hpm Hs.
    destruct (IH sb Hs (λ k' pm' H, Hfl k' pm' (or_intror H)))
      as (sb3 & H3 & Hf3).
    destruct (Hfl k pm (or_introl eq_refl)) as [Hget Hdist].
    destruct pm2 as [v2 | ms2], pm as [v | ms]; try discriminate.
    + cbn [Init.restore_source]. rewrite Hget, H3.
      eexists. split; [reflexivity |].
      rewrite !fixed_of_cons, Hf3. reflexivity.
    + injection Hpm as Hk.
      destruct (restore_members_flags
                  (map (λ mv, (fst mv, Init.fixed (snd mv))) ms) ms2 ms Hk
                  (λ m v H, dict_get_fixed ms m v Hdist H))
        as (ms3 & Hm3 & Hfm3).
      cbn [Init.restore_source]. rewrite Hget, Hm3, H3.
      eexists. split; [reflexivity |].
      rewrite !fixed_of_cons, Hf3, Hfm3. reflexivity.
Qed.

Lemma restore_source_round_trip sb2 sb :
  distinct_keys sb → shape sb2 = shape sb →
  ∃ sb3,
    Init.restore_source sb2 (fixed_of sb) = (sb3, inr tt)
    ∧ fixed_of sb3 = fixed_of sb.
Proof.
  intros [Hnd Hdi] Hs. apply restore_source_flags; [exact Hs |].
  intros k pm Hin. split; [exact (flags_get_fixed sb k pm Hnd Hin) |].
  destruct pm as [v | ms]; [exact Logic.I | exact (Hdi k ms Hin)].
Qed.

(** ** Collections *)

Lemma fixed_of_block_set c k sb :
  fixed_of_collection (Init.block_set c k sb)
  = Init.block_set (fixed_of_collection c) k (fixed_of sb).
Proof.
  induction c as [| [k0 sb0] c IH]; [reflexivity |].
  cbn. destruct (key_eqb k0 k); cbn; [reflexivity |].
  f_equal. exact IH.
Qed.

Lemma block_set_twice {V} (d : list (key * V)) k (v1 v2 : V) :
  Init.block_set (Init.block_set d k v1) k v2 = Init.block_set d k v2.
Proof.
  induction d as [| [k0 v0] d IH]; [reflexivity |].
  cbn. destruct (key_eqb k0 k) eqn:Hk; cbn; rewrite Hk; [reflexivity |].
  f_equal. exact IH.
Qed.

Lemma block_set_same {V} (d : list (key * V)) k (v : V) :
  block_get d k = Some v → Init.block_set d k v = d.
Proof.
  induction d as [| [k0 v0] d IH]; [reflexivity |].
  cbn. destruct (key_eqb k0 k); [intros [= ->]; reflexivity |].
  intros H. f_equal. exact (IH H).
Qed.

Lemma block_get_fixed c k sb :
  block_get c k = Some sb →
  block_get (fixed_of_collection c) k = Some (fixed_of sb).
Proof.
  induction c as [| [k0 sb0] c IH]; [discriminate |].
  cbn. destruct (key_eqb k0 k); [intros [= ->]; reflexivity | exact IH].
Qed.

Lemma block_get_fixed_inv c k f :
  block_get (fixed_of_collection c) k = Some f →
  ∃ sb, block_get c k = Some sb ∧ fixed_of sb = f.
Proof.
  induction c as [| [k0 sb0] c IH]; [discriminate |].
  cbn. destruct (key_eqb k0 k); [intros [= <-]; eauto | exact IH].
Qed.

(** ** The steps of [initialize] *)

Lemma on_source_eq {A} (loop : Init.StateBlock → Init.StateBlock * (exn + A))
    w k props sb :
  Init.source_key w = (w, inr k) →
  Init.w_blocks w !! "properties" = Some props →
  block_get props k = Some sb →
  Init.on_source loop w
  = (Init.with_blocks
       <["properties" := Init.block_set props k (fst (loop sb))]> w,
     snd (loop sb)).
Proof.
  intros Hk Hprops Hsb. unfold Init.on_source.
  rewrite (I_bind_ok _ _ _ _ _ Hk).
  rewrite (I_bind_ok _ _ _ _ _ (get_collection_ok _ _ _ Hprops)).
  unfold Init.block_at. rewrite Hsb.
  erewrite I_bind_ok by reflexivity.
  destruct (loop sb) as [sb' [e | a]]; reflexivity.
Qed.

Lemma source_key_with_blocks f w k :
  Init.source_key w = (w, inr k) →
  Init.source_key (Init.with_blocks f w) = (Init.with_blocks f w, inr k).
Proof.
  unfold Init.source_key. cbn [bind Init.I_monad]. unfold Init.I_bind.
  cbn [Init.world Init.with_blocks Init.w_flow_direction
       Init.w_length_domain Init.w_time].
  destruct (Init.w_flow_direction w) as [d |]; [| discriminate].
  cbn [ret Init.I_ret Init.I_monad].
  destruct (Init.w_length_domain w) as [ld |]; [| discriminate].
  destruct d, ld as [| x0 s]; try discriminate;
    cbn [Init.first_of Init.last_of ret Init.I_ret Init.I_monad];
    (destruct (Init.w_time w) as [| t0 T]; [discriminate |]);
    cbn [Init.first_of ret Init.I_ret Init.I_monad];
    intros [= <-]; reflexivity.
Qed.

Lemma call_initialize_inv pkg name a h w c w' f :
  Init.w_blocks w !! name = Some c →
  Init.call_initialize pkg name a h w = (w', inr f) →
  ∃ c1, Init.sb_initialize pkg a h c = (c1, inr f)
        ∧ w' = Init.with_blocks <[name := c1]> w.
Proof.
  intros Hc. unfold Init.call_initialize.
  rewrite (I_bind_ok _ _ _ _ _ (get_collection_ok _ _ _ Hc)).
  destruct (Init.sb_initialize pkg a h c) as [c1 [e | f1]];
    intros [= <- <-]; eauto.
Qed.

Lemma call_release_state_inv pkg name flags w c w' u :
  Init.w_blocks w !! name = Some c →
  Init.call_release_state pkg name flags w = (w', inr u) →
  ∃ c2 u', Init.sb_release_state pkg flags c = (c2, inr u')
           ∧ w' = Init.with_blocks <[name := c2]> w.
Proof.
  intros Hc. unfold Init.call_release_state.
  rewrite (I_bind_ok _ _ _ _ _ (get_collection_ok _ _ _ Hc)).
  destruct (Init.sb_release_state pkg flags c) as [c2 [e | u']];
    intros [= <-]; eauto.
Qed.

Lemma try_initialize_reactions_inv pkg w w' u :
  Init.try_initialize_reactions pkg w = (w', inr u) → w' = w.
Proof.
  unfold Init.try_initialize_reactions.
  cbn [bind Init.I_monad]. unfold Init.I_bind. cbn [Init.world].
  destruct (Init.w_has_reactions w); [| intros [= <-]; reflexivity].
  destruct (Init.rb_initialize pkg) as [[] | []]; intros [= <-];
    reflexivity.
Qed.

(** Fixing the source state, whichever branch is taken, records the fixed
    flags it found and keeps the variables in place. *)
Lemma fix_step_inv state_args w k props sb w1 a sf :
  Init.source_key w = (w, inr k) →
  Init.w_blocks w !! "properties" = Some props →
  block_get props k = Some sb →
  (match state_args with
   | None => Init.on_source Init.fix_source
   | Some a => sf <- Init.on_source (λ sd, Init.fix_source_to sd a) ;;
               ret (a, sf)
   end) w = (w1, inr (a, sf)) →
  ∃ sb', sf = fixed_of sb ∧ shape sb' = shape sb
         ∧ w1 = Init.with_blocks
                  <["properties" := Init.block_set props k sb']> w.
Proof.
  intros Hk Hprops Hsb H. destruct state_args as [a0 |].
  - apply I_bind_inv in H as (sf0 & w0 & H & Hret).
    injection Hret as <- <- <-.
    rewrite (on_source_eq _ w k props sb Hk Hprops Hsb) in H.
    destruct (Init.fix_source_to sb a0) as [sb' r] eqn:Hfix.
    cbn [fst snd] in H. injection H as <- ->.
    destruct (fix_source_to_flags _ _ _ _ Hfix) as [-> Hs].
    exists sb'. auto.
  - rewrite (on_source_eq _ w k props sb Hk Hprops Hsb) in H.
    destruct (Init.fix_source sb) as [sb' r] eqn:Hfix.
    cbn [fst snd] in H. injection H as <- ->.
    destruct (fix_source_flags _ _ _ _ Hfix) as [-> Hs].
    exists sb'. auto.
Qed.

(** Releasing the source state with the flags recorded before the fixing,
    after a package that restores what it fixed has run. *)
Lemma release_after_package k props sb sb' c2 (w' : Init.World) :
  Init.source_key w' = (w', inr k) →
  Init.w_blocks w' !! "properties" = Some c2 →
  block_get props k = Some sb →
  distinct_keys sb →
  shape sb' = shape sb →
  fixed_of_collection c2
  = fixed_of_collection (Init.block_set props k sb') →
  ∃ w2,
    Init.release_state1 (fixed_of sb) w' = (w2, inr tt)
    ∧ fixed_of_collection (collection_of w2 "properties")
      = fixed_of_collection props.
Proof.
  intros Hk Hc2 Hsb Hdist Hshape Hfixed.
  assert (Hget : block_get (fixed_of_collection c2) k = Some (fixed_of sb')).
  { rewrite Hfixed. apply block_get_fixed. exact (block_get_set _ _ _ _ Hsb). }
  apply block_get_fixed_inv in Hget as (sb2 & Hsb2 & Hf2).
  assert (Hshape2 : shape sb2 = shape sb).
  { rewrite <- Hshape. apply fixed_of_shape. exact Hf2. }
  destruct (restore_source_round_trip sb2 sb Hdist Hshape2)
    as (sb3 & Hres & Hf3).
  exists (Init.with_blocks
            <["properties" := Init.block_set c2 k sb3]> w').
  split.
  - unfold Init.release_state1.
    rewrite (on_source_eq _ w' k c2 sb2 Hk Hc2 Hsb2), Hres. reflexivity.
  - unfold collection_of. rewrite blocks_with_blocks, lookup_insert_eq.
    cbn [default].
    unfold id.
    rewrite fixed_of_block_set, Hfixed, fixed_of_block_set, block_set_twice.
    rewrite Hf3. apply block_set_same, block_get_fixed, Hsb.
Qed.

(** X11: the 1-D [initialize] and [release_state] restore what they fix.
    With a property package whose own [release_state] undoes the fixing of
    its [initialize], and whatever [state_args] is given: when
    [initialize(hold_state=True)] returns, it returns the fixed flags the
    source state variables had on entry, and [release_state] called with
    them returns and leaves every state variable of the control volume
    with the fixed flag it had before [initialize]; when
    [initialize(hold_state=False)] returns, it returns nothing and the
    fixed flags are already as they were. *)
Theorem initialize1_restores_fixed_flags (pkg : Init.Package)
    (state_args : option Init.StateArgs) (hold_state : bool)
    (w w1 : Init.World) (k : key) (props : Init.Collection)
    (source : Init.StateBlock) (r : option Init.Flags) :
  restores_fixed pkg →
  Init.source_key w = (w, inr k) →
  Init.w_blocks w !! "properties" = Some props →
  block_get props k = Some source →
  distinct_keys source →
  Init.initialize1 pkg state_args hold_state w = (w1, inr r) →
  if hold_state
  then r = Some (fixed_of source)
       ∧ ∃ w2,
           Init.release_state1 (fixed_of source) w1 = (w2, inr tt)
           ∧ fixed_of_collection (collection_of w2 "properties")
             = fixed_of_collection props
  else r = None
       ∧ fixed_of_collection (collection_of w1 "properties")
         = fixed_of_collection props.
Proof.
  intros Hpkg Hk Hprops Hsb Hdist H.
  unfold Init.initialize1 in H.
  apply I_bind_inv in H as ([a sf] & wA & HA & H).
  destruct (fix_step_inv _ _ _ _ _ _ _ _ Hk Hprops Hsb HA)
    as (sb' & -> & Hshape & ->).
  apply I_bind_inv in H as (flags & wB & HB & H).
  apply call_initialize_inv with (c := Init.block_set props k sb') in HB
    as (c1 & Hinit & ->);
    [| rewrite blocks_with_blocks; apply lookup_insert_eq].
  apply I_bind_inv in H as (u & wC & HC & H).
  apply try_initialize_reactions_inv in HC as ->.
  apply I_bind_inv in H as (u' & wD & HD & H).
  apply call_release_state_inv with (c := c1) in HD as (c2 & u2 & Hrel & ->);
    [| rewrite blocks_with_blocks; apply lookup_insert_eq].
  pose proof (Hpkg _ _ _ _ _ _ Hinit Hrel) as Hfixed.
  destruct (release_after_package k props source sb' c2
              (Init.with_blocks <["properties" := c2]>
                 (Init.with_blocks <["properties" := c1]>
                    (Init.with_blocks
                       <["properties" := Init.block_set props k sb']> w))))
    as (w2 & Hrelease & Hw2); try assumption.
  { do 3 apply source_key_with_blocks. exact Hk. }
  { rewrite blocks_with_blocks. apply lookup_insert_eq. }
  destruct hold_state.
  - injection H as <- <-. split; [reflexivity |]. eauto.
  - apply I_bind_inv in H as (u3 & w3 & H3 & H). injection H as <- <-.
    rewrite Hrelease in H3. injection H3 as <- _.
    split; [reflexivity | exact Hw2].
Qed.

Lemma std_package_restores_fixed (o : exn + unit) :
  restores_fixed (Init.std_package o).
Proof.
  intros a c c1 flags c2 u Hinit Hrel.
  cbn [Init.sb_initialize Init.sb_release_state Init.std_package] in *.
  unfold Init.std_initialize in Hinit. injection Hinit as <- <-.
  cbn [Init.std_release_state] in Hrel. injection Hrel as <-.
  exact (std_restore_all_fix a c).
Qed.

Lemma initialize1_restores_fixed_flags_witness :
  ∃ w1 w2,
    Init.initialize1 (Init.std_package (inr tt)) None true
      (world1 sb_valued) = (w1, inr (Some (fixed_of sb_valued)))
    ∧ Init.release_state1 (fixed_of sb_valued) w1 = (w2, inr tt)
    ∧ fixed_of_collection (collection_of w2 "properties")
      = fixed_of_collection
          [([INum 0; INum 0], sb_valued); ([INum 0; INum 1], sb_valued)].
Proof.
  assert (H : ∃ w1 r,
            Init.initialize1 (Init.std_package (inr tt)) None true
              (world1 sb_valued) = (w1, inr r)).
  { vm_compute. eexists _, _. reflexivity. }
  destruct H as (w1 & r & H).
  assert (Hd : distinct_keys sb_valued).
  { split.
    - refine (bool_decide_unpack _ _). vm_compute. exact Logic.I.
    - intros k ms Hin. cbn in Hin.
      destruct Hin as [Hin | [Hin | [Hin | []]]]; try discriminate.
      injection Hin as <- <-. reflexivity. }
  destruct (initialize1_restores_fixed_flags (Init.std_package (inr tt))
              None true (world1 sb_valued) w1 [INum 0; INum 0]
              [([INum 0; INum 0], sb_valued); ([INum 0; INum 1], sb_valued)]
              sb_valued r (std_package_restores_fixed _)
              eq_refl eq_refl eq_refl Hd H)
    as (-> & w2 & Hrel & Hfix).
  exists w1, w2. split; [exact H |]. split; assumption.
Defined.

(** ** The source state when [state_args] is given *)

Lemma fix_members_to_outcome ms arg ms' flags :
  Init.fix_members_to ms arg = (ms', inr flags) →
  ms' = map (λ mv,
          (fst mv,
           if Init.fixed (snd mv) then snd mv
           else Init.fix_var_to (snd mv)
                  (match arg with
                   | Some (Init.ArgIndexed vs) =>
                       default None (dict_get vs (fst mv))
                   | _ => None
                   end))) ms.
Proof.
  revert ms' flags.
  induction ms as [| [m v] ms IH]; intros ms' flags H; cbn in H.
  - injection H as <- _. reflexivity.
  - destruct (Init.fix_members_to ms arg) as [rest [e | f]] eqn:Hrest.
    + destruct (Init.fixed v); [discriminate |].
      destruct arg as [[x | vs] |]; try discriminate.
      destruct (dict_get vs m); discriminate.
    + rewrite (IH _ _ eq_refl) in H.
      destruct (Init.fixed v) eqn:Hf.
      * injection H as <- _. cbn. rewrite Hf. reflexivity.
      * destruct arg as [[x | vs] |]; try discriminate.
        destruct (dict_get vs m) as [x |] eqn:Hx; [| discriminate].
        injection H as <- _. cbn. rewrite Hf, Hx. reflexivity.
Qed.

(** X12: what the 1-D [initialize] does to the source state when it is
    given [state_args] and its fixing loops run to their end.  An indexed
    state variable that is not fixed is fixed to its entry of [state_args];
    one that is fixed is left alone.  A scalar state variable is never
    given its entry of [state_args]: it is fixed at the value it has, and
    one that has no value is left unfixed; so the scalars come out the same
    whatever [state_args] holds. *)
Theorem state_args_reach_indexed_members_only (sb sb' : Init.StateBlock)
    (state_args : Init.StateArgs) (flags : Init.Flags) :
  Init.fix_source_to sb state_args = (sb', inr flags) →
  sb' = map (fixed_with state_args) sb
  ∧ scalars sb'
    = map (λ kv, (fst kv,
                  match Init.value (snd kv) with
                  | Some _ => Init.fix_var (snd kv)
                  | None => snd kv
                  end)) (scalars sb)
  ∧ ∀ other sb'' flags',
      Init.fix_source_to sb other = (sb'', inr flags') →
      scalars sb'' = scalars sb'.
Proof.
  assert (Hout : ∀ a s' f,
            Init.fix_source_to sb a = (s', inr f) →
            s' = map (fixed_with a) sb).
  { intros a. induction sb as [| [k pm] sb IH]; intros s' f H; cbn in H.
    - injection H as <- _. reflexivity.
    - destruct pm as [v | ms].
      + destruct (Init.fix_source_to sb a) as [rest [e | f0]];
          [discriminate |].
        injection H as <- _. rewrite (IH _ _ eq_refl). reflexivity.
      + destruct (Init.fix_members_to ms (Init.args_get a k))
          as [ms' [e | mf]] eqn:Hm; [discriminate |].
        destruct (Init.fix_source_to sb a) as [rest [e | f0]];
          [discriminate |].
        injection H as <- _. rewrite (IH _ _ eq_refl).
        rewrite (fix_members_to_outcome _ _ _ _ Hm). reflexivity. }
  assert (Hsc : ∀ a, scalars (map (fixed_with a) sb)
                     = map (λ kv, (fst kv,
                                   match Init.value (snd kv) with
                                   | Some _ => Init.fix_var (snd kv)
                                   | None => snd kv
                                   end)) (scalars sb)).
  { intros a. clear Hout. induction sb as [| [k pm] sb IH]; [reflexivity |].
    destruct pm as [v | ms]; unfold scalars in *; cbn [map omap list_omap fixed_with fst snd].
    - cbn. f_equal. exact IH.
    - exact IH. }
  intros H. rewrite (Hout _ _ _ H). split; [reflexivity |].
  split; [apply Hsc |].
  intros other sb'' flags' H'. rewrite (Hout _ _ _ H'), !Hsc. reflexivity.
Qed.

Lemma state_args_reach_indexed_members_only_witness :
  ∃ sb' flags,
    Init.fix_source_to sb_valued
      [("flow_mol", Init.ArgScalar (Some 9%Q));
       ("mole_frac", Init.ArgIndexed [(IStr "a", Some (1 # 4));
                                      (IStr "b", Some (3 # 4))]);
       ("temperature", Init.ArgScalar (Some 350%Q))]
    = (sb', inr flags)
    ∧ scalars sb'
      = [("flow_mol", sv (Some 5%Q) true);
         ("temperature", sv (Some 300%Q) true)].
Proof.
  eexists _, _. split; [reflexivity |].
  exact (proj1 (proj2 (state_args_reach_indexed_members_only sb_valued _
                         [("flow_mol", Init.ArgScalar (Some 9%Q));
                          ("mole_frac",
                           Init.ArgIndexed [(IStr "a", Some (1 # 4));
                                            (IStr "b", Some (3 # 4))]);
                          ("temperature", Init.ArgScalar (Some 350%Q))]
                         _ eq_refl))).
Defined.

(** ** Discretization arguments *)

Lemma str_in_elem (s : string) (names : list string) :
  CV1D.str_in s names = true → In s names.
Proof.
  unfold CV1D.str_in. rewrite existsb_exists.
  intros (x & Hx & Heq). apply String.eqb_eq in Heq. subst x. exact Hx.
Qed.

Lemma method_is_eq (name : string) (c : CV1D.DAEConfig) :
  CV1D.method_is name c = true → CV1D.transformation_method c = Some name.
Proof.
  unfold CV1D.method_is.
  destruct (CV1D.transformation_method c) as [m |]; [| discriminate].
  intros H. apply String.eqb_eq in H. congruence.
Qed.

(** X13: a control volume whose DAE arguments passed [_validate_config_args]
    (as [build] requires) and on which [apply_transformation] returns has
    asked Pyomo for a consistent discretization of a domain of its own:
    finite differences with the BACKWARD or FORWARD scheme and no
    collocation points, or collocation with the LAGRANGE-LEGENDRE or
    LAGRANGE-RADAU scheme and the configured number of collocation points;
    in both cases with the configured number of finite elements. *)
Theorem validated_transformation_is_consistent (c : CV1D.DAEConfig)
    (local_domain : bool) (b : ControlVolume) (tf : CV1D.Transformation) :
  CV1D._validate_config_args c b = inr tt →
  CV1D.apply_transformation c local_domain b = inr tf →
  local_domain = true
  ∧ is_Some (components b !! "length_domain")
  ∧ CV1D.transformation_method c = Some (CV1D.tf_method tf)
  ∧ CV1D.finite_elements c = Some (CV1D.tf_nfe tf)
  ∧ ((CV1D.tf_method tf = "dae.finite_difference"
      ∧ CV1D.tf_ncp tf = None
      ∧ (CV1D.tf_scheme tf = Some "BACKWARD"
         ∨ CV1D.tf_scheme tf = Some "FORWARD"))
     ∨ (CV1D.tf_method tf = "dae.collocation"
        ∧ (∃ ncp, CV1D.collocation_points c = Some ncp
                  ∧ CV1D.tf_ncp tf = Some ncp)
        ∧ (CV1D.tf_scheme tf = Some "LAGRANGE-LEGENDRE"
           ∨ CV1D.tf_scheme tf = Some "LAGRANGE-RADAU"))).
Proof.
  unfold CV1D._validate_config_args, CV1D.apply_transformation.
  rewrite !(R_bind_ok ask _ b b eq_refl).
  intros Hv Ha.
  apply R_bind_inv in Ha as (ld & Hld & Ha).
  unfold getattr in Hld.
  destruct (components b !! "length_domain") as [ld' |] eqn:Hattr;
    [| discriminate].
  destruct local_domain; [| discriminate]. cbn [negb] in Ha.
  destruct (CV1D.transformation_method c) as [m |] eqn:Hm; [| discriminate].
  destruct (cfg_transformation_scheme b) as [scheme |] eqn:Hs;
    [| discriminate].
  destruct (CV1D.finite_elements c) as [nfe |] eqn:Hnfe; [| discriminate].
  destruct (CV1D.method_is "dae.finite_difference" c) eqn:Hfd.
  - pose proof (method_is_eq _ _ Hfd) as Hm'.
    assert (Hcoll : CV1D.method_is "dae.collocation" c = false).
    { unfold CV1D.method_is. rewrite Hm'. reflexivity. }
    rewrite Hcoll, andb_false_r in Ha. rewrite Hcoll in Hv.
    cbn [andb orb] in Hv.
    destruct (CV1D.str_in scheme ["BACKWARD"; "FORWARD"]) eqn:Hin;
      [| discriminate].
    apply str_in_elem in Hin.
    injection Ha as <-. cbn.
    split; [reflexivity |]. split; [eexists; reflexivity |].
    split; [congruence |]. split; [reflexivity |].
    left. split; [reflexivity |]. split; [reflexivity |].
    destruct Hin as [<- | [<- | []]]; auto.
  - cbn [andb orb] in Hv.
    destruct (CV1D.method_is "dae.collocation" c) eqn:Hcoll.
    + pose proof (method_is_eq _ _ Hcoll) as Hm'.
      cbn [andb] in Hv.
      destruct (CV1D.str_in scheme ["LAGRANGE-LEGENDRE"; "LAGRANGE-RADAU"])
        eqn:Hin; [| discriminate].
      apply str_in_elem in Hin.
      destruct (CV1D.collocation_points c) as [ncp |] eqn:Hncp;
        [| discriminate].
      cbn [andb] in Ha. injection Ha as <-. cbn.
      split; [reflexivity |]. split; [eexists; reflexivity |].
      split; [congruence |]. split; [reflexivity |].
      right. split; [reflexivity |].
      split; [exists ncp; split; reflexivity |].
      destruct Hin as [<- | [<- | []]]; auto.
    + rewrite andb_false_r in Ha. discriminate.
Qed.

Lemma validated_transformation_is_consistent_witness :
  let c := {| CV1D.transformation_method := Some "dae.collocation";
              CV1D.finite_elements := Some 20%Z;
              CV1D.collocation_points := Some 3%Z |} in
  let b := fst (CV1D.add_geometry None [0%Q; 1%Q] (PyFlow forward)
                  (empty_block false true pp_vle None
                     (Some "LAGRANGE-RADAU") [0%Q])) in
  ∃ tf, CV1D.apply_transformation c true b = inr tf
        ∧ CV1D.tf_ncp tf = Some 3%Z
        ∧ CV1D.tf_scheme tf = Some "LAGRANGE-RADAU".
Proof.
  intros c b.
  eexists. split; [reflexivity |].
  destruct (validated_transformation_is_consistent c true b _
              eq_refl eq_refl)
    as (_ & _ & _ & _ & [(Hm & _) | (_ & (ncp & Hc & Hn) & _)]).
  - discriminate Hm.
  - split; [| reflexivity]. rewrite Hn, <- Hc. reflexivity.
Defined.



(** ** Model checks *)

Lemma R_bind_raise_inv {A B} (m : R A) (f : A → R B) b e :
  (x <- m ;; f x) b = inl e →
  m b = inl e ∨ ∃ a, m b = inr a ∧ f a b = inl e.
Proof.
  cbn [bind R_monad]. unfold R_bind.
  destruct (m b) as [e' | a]; [left; congruence | right; eauto].
Qed.

Lemma mapR_raise_inv {I A} (f : I → R A) (l : list I) b e :
  mapR f l b = inl e → ∃ i, In i l ∧ f i b = inl e.
Proof.
  induction l as [| i l IH]; [discriminate |].
  cbn [mapR]. intros H.
  apply R_bind_raise_inv in H as [H | (a & _ & H)].
  - exists i. split; [left; reflexivity | exact H].
  - apply R_bind_raise_inv in H as [H | (r & _ & H)]; [| discriminate].
    destruct (IH H) as (i' & Hi' & Hf). exists i'. split; [right |]; auto.
Qed.

Lemma try_model_check_raise_inv check about b e :
  CV0D.try_model_check check about b = inl e →
  check b = inl e ∧ e ≠ AttributeError.
Proof.
  unfold CV0D.try_model_check.
  destruct (check b) as [[] | []]; intros H; try discriminate;
    injection H as <-; split; congruence.
Qed.

Lemma try_model_check_warns check about b :
  check b = inl AttributeError →
  CV0D.try_model_check check about b = inr [about].
Proof.
  unfold CV0D.try_model_check. intros ->. reflexivity.
Qed.

Lemma try_model_check_inv check about b ws :
  CV0D.try_model_check check about b = inr ws →
  (check b = inr tt ∧ ws = [])
  ∨ (check b = inl AttributeError ∧ ws = [about]).
Proof.
  unfold CV0D.try_model_check.
  destruct (check b) as [[] | []]; intros H; try discriminate;
    injection H as <-; auto.
Qed.

Lemma state_config_0d_raise_inv name k b e :
  CV0D.state_config name k b = inl e → e = AttributeError ∨ e = KeyError.
Proof.
  unfold CV0D.state_config, getattr. cbn [bind R_monad]. unfold R_bind.
  destruct (components b !! name) as [[] |]; cbn;
    try (intros H; injection H as <-; auto).
  destruct (block_get _ k); [discriminate |].
  intros H; injection H as <-; auto.
Qed.

Lemma reaction_config_0d_raise_inv k b e :
  CV0D.reaction_config k b = inl e → e = AttributeError ∨ e = KeyError.
Proof.
  unfold CV0D.reaction_config, getattr. cbn [bind R_monad]. unfold R_bind.
  destruct (components b !! "reactions") as [[] |]; cbn;
    try (intros H; injection H as <-; auto).
  destruct (block_get _ k); [discriminate |].
  intros H; injection H as <-; auto.
Qed.

Lemma state_config_0d_missing name k b :
  components b !! name = None →
  CV0D.state_config name k b = inl AttributeError.
Proof.
  intros H. unfold CV0D.state_config.
  apply R_bind_raise. unfold getattr. rewrite H. reflexivity.
Qed.

Lemma reaction_config_0d_missing k b :
  components b !! "reactions" = None →
  CV0D.reaction_config k b = inl AttributeError.
Proof.
  intros H. unfold CV0D.reaction_config.
  apply R_bind_raise. unfold getattr. rewrite H. reflexivity.
Qed.

Lemma checked_raise_inv {A} (lookup : R A) (outcome : exn + unit) b e :
  (lookup ;; CV0D.package_call outcome) b = inl e →
  (lookup b = inl e) ∨ outcome = inl e.
Proof.
  intros H. apply R_bind_raise_inv in H as [H | (a & _ & H)]; auto.
Qed.

(** X15: the 0-D [model_check] never raises an AttributeError.  What it
    raises is either an exception other than AttributeError that the
    [model_check] of one of its state or reaction blocks raised, or the
    KeyError of a block that is attached but has no member at a time
    point. *)
Theorem model_check_0d_raises_no_AttributeError
    (outcome : string → key → exn + unit) (b : ControlVolume) (e : exn) :
  CV0D.model_check outcome b = inl e →
  e ≠ AttributeError
  ∧ (e = KeyError
     ∨ ∃ name t,
         In name ["properties_in"; "properties_out"; "reactions"]
         ∧ In t (time b) ∧ outcome name [INum t] = inl e).
Proof.
  unfold CV0D.model_check. rewrite (R_bind_ok ask _ b b eq_refl).
  intros H.
  apply R_bind_raise_inv in H as [H | (ws & _ & H)]; [| discriminate].
  apply mapR_raise_inv in H as (t & Ht & H).
  assert (Hstate : ∀ name,
            In name ["properties_in"; "properties_out"; "reactions"] →
            (CV0D.state_config name [INum t] ;;
             CV0D.package_call (outcome name [INum t])) b = inl e →
            e ≠ AttributeError →
            e = KeyError
            ∨ ∃ name t,
                In name ["properties_in"; "properties_out"; "reactions"]
                ∧ In t (time b) ∧ outcome name [INum t] = inl e).
  { intros name Hn Hc Hne. apply checked_raise_inv in Hc as [Hc | Hc].
    - apply state_config_0d_raise_inv in Hc as [-> | ->]; [congruence | auto].
    - right. exists name, t. auto. }
  apply R_bind_raise_inv in H as [H | (w_in & _ & H)].
  { apply try_model_check_raise_inv in H as [H Hne]. split; [exact Hne |].
    apply (Hstate "properties_in"); cbn; auto. }
  apply R_bind_raise_inv in H as [H | (w_out & _ & H)].
  { apply try_model_check_raise_inv in H as [H Hne]. split; [exact Hne |].
    apply (Hstate "properties_out"); cbn; auto. }
  apply R_bind_raise_inv in H as [H | (w_rxn & _ & H)]; [| discriminate].
  apply try_model_check_raise_inv in H as [H Hne]. split; [exact Hne |].
  apply checked_raise_inv in H as [H | H].
  - apply reaction_config_0d_raise_inv in H as [-> | ->]; [congruence | auto].
  - right. exists "reactions", t. cbn. auto.
Qed.

Lemma model_check_0d_raises_no_AttributeError_witness :
  CV0D.model_check (λ _ _, inl ValueError) block_no_equilibrium
  = inl ValueError
  ∧ ValueError ≠ AttributeError.
Proof.
  split; [reflexivity |].
  exact (proj1 (model_check_0d_raises_no_AttributeError
                  (λ _ _, inl ValueError) block_no_equilibrium ValueError
                  eq_refl)).
Defined.

(** X16: the 0-D [model_check] treats a block that is not there like a
    block without a [model_check] method: when the inlet state block, the
    outlet state block or the reaction block is not attached and the
    method returns, it has logged a warning about that block for every
    time point. *)
Theorem model_check_0d_warns_of_missing_blocks
    (outcome : string → key → exn + unit) (b : ControlVolume)
    (ws : list (string * key)) (name : string) :
  In name ["properties_in"; "properties_out"; "reactions"] →
  components b !! name = None →
  CV0D.model_check outcome b = inr ws →
  ∀ t, In t (time b) → In (name, [INum t]) ws.
Proof.
  unfold CV0D.model_check. rewrite (R_bind_ok ask _ b b eq_refl).
  intros Hname Hmiss H t Ht.
  apply R_bind_inv in H as (wss & Hmap & H). injection H as <-.
  apply mapR_inv in Hmap.
  apply in_concat.
  revert Hmap Ht. generalize (time b) as T. intros T Hmap.
  induction Hmap as [| t' w T' wss' Hw Hrest IH]; intros Hin; [destruct Hin |].
  destruct Hin as [-> | Hin].
  - exists w. split; [left; reflexivity |].
    apply R_bind_inv in Hw as (w_in & Hin' & Hw).
    apply R_bind_inv in Hw as (w_out & Hout & Hw).
    apply R_bind_inv in Hw as (w_rxn & Hrxn & Hw).
    injection Hw as <-.
    cbn in Hname. destruct Hname as [<- | [<- | [<- | []]]].
    + rewrite try_model_check_warns in Hin'
        by (apply R_bind_raise, state_config_0d_missing, Hmiss).
      injection Hin' as <-. left. reflexivity.
    + rewrite try_model_check_warns in Hout
        by (apply R_bind_raise, state_config_0d_missing, Hmiss).
      injection Hout as <-. apply in_or_app. right. left. reflexivity.
    + rewrite try_model_check_warns in Hrxn
        by (apply R_bind_raise, reaction_config_0d_missing, Hmiss).
      injection Hrxn as <-. apply in_or_app. right.
      apply in_or_app. right. left. reflexivity.
  - destruct (IH Hin) as (w' & Hw' & Hin'). exists w'. split; [right |]; auto.
Qed.

Lemma model_check_0d_warns_of_missing_blocks_witness :
  ∃ ws, CV0D.model_check (λ _ _, inr tt) block_no_equilibrium = inr ws
        ∧ In ("reactions", [INum 0%Q]) ws.
Proof.
  eexists. split; [reflexivity |].
  apply (model_check_0d_warns_of_missing_blocks (λ _ _, inr tt)
           block_no_equilibrium _ "reactions").
  - cbn. auto.
  - reflexivity.
  - reflexivity.
  - left. reflexivity.
Defined.

(** X17: the 1-D [model_check] reads the length domain outside its [try]
    blocks: on a control volume that has no length domain yet (before
    [add_geometry]) it raises an AttributeError as soon as there is a time
    point, whatever the blocks do, where the 0-D one only logs warnings. *)
Theorem model_check_1d_needs_length_domain
    (outcome : string → key → exn + unit) (b : ControlVolume) :
  components b !! "length_domain" = None →
  CV1D.model_check outcome b
  = match time b with
    | [] => inr []
    | _ :: _ => inl AttributeError
    end
  ∧ CV0D.model_check outcome b ≠ inl AttributeError.
Proof.
  intros Hmiss. split.
  - unfold CV1D.model_check. rewrite (R_bind_ok ask _ b b eq_refl).
    destruct (time b) as [| t T]; [reflexivity |].
    apply R_bind_raise. cbn [mapR].
    apply R_bind_raise. apply R_bind_raise.
    unfold CV1D.length_domain. apply R_bind_raise.
    unfold getattr. rewrite Hmiss. reflexivity.
  - intros H.
    apply R_bind_raise_inv in H as [H | (b0 & _ & H)]; [discriminate |].
    apply R_bind_raise_inv in H as [H | (ws & _ & H)]; [| discriminate].
    apply mapR_raise_inv in H as (t & _ & H).
    apply R_bind_raise_inv in H as [H | (w_in & _ & H)].
    { apply try_model_check_raise_inv in H as [_ Hne]. congruence. }
    apply R_bind_raise_inv in H as [H | (w_out & _ & H)].
    { apply try_model_check_raise_inv in H as [_ Hne]. congruence. }
    apply R_bind_raise_inv in H as [H | (w_rxn & _ & H)]; [| discriminate].
    apply try_model_check_raise_inv in H as [_ Hne]. congruence.
Qed.

Lemma model_check_1d_needs_length_domain_witness :
  CV1D.model_check (λ _ _, inr tt) block_no_volume = inl AttributeError.
Proof.
  exact (proj1 (model_check_1d_needs_length_domain (λ _ _, inr tt)
                  block_no_volume eq_refl)).
Defined.

(** ** Transfer terms of the energy and pressure balances *)

Lemma declares_setattr n c b : declares n c (setattr n c) b.
Proof. intros b' a H. apply setattr_inv in H as ->. apply lookup_setattr. Qed.

Lemma declares_when_true {n c} (body : M unit) b :
  declares n c body b → declares n c (when true body) b.
Proof. intros H. exact H. Qed.

Lemma declares_bind_l {A B} n c N (m : M A) (f : A → M B) b :
  declares n c m b →
  (∀ a b1, m b = (b1, inr a) → modifies N (f a) b1) →
  ¬ In n N →
  declares n c (bind m f) b.
Proof.
  intros Hm Hf Hn b' r H.
  apply M_bind_inv in H as (a & b1 & Hs & H).
  rewrite (ext_frame _ _ _ (Hf _ _ Hs _ _ H) _ Hn).
  exact (Hm _ _ Hs).
Qed.

Lemma declares_bind_r {A B} n c (m : M A) (f : A → M B) b :
  (∀ a b1, m b = (b1, inr a) → declares n c (f a) b1) →
  declares n c (bind m f) b.
Proof.
  intros Hf b' r H.
  apply M_bind_inv in H as (a & b1 & Hs & H).
  exact (Hf _ _ Hs _ _ H).
Qed.

(** Find the command that declares the component; the commands after it do
    not touch the name. *)
Ltac solve_declares :=
  lazymatch goal with
  | |- declares _ _ (when true _) _ =>
      apply declares_when_true; solve_declares
  | |- declares ?n _ (setattr ?n _) _ => apply declares_setattr
  | |- declares _ _ (bind _ _) _ =>
      first [ eapply declares_bind_l;
              [ solve_declares
              | intros ? ? _; solve_modifies
              | solve_notin ]
            | apply declares_bind_r; intros ? ? _; solve_declares ]
  end.

Lemma transfer_declared_0d a tm b :
  transfer_flag a tm = true →
  declares (transfer_variable tm) (CVar (map k_t (time b)) 0)
           (add_balance_0d (transfer_family tm) a) b.
Proof.
  intros Hsw. destruct tm; cbn in Hsw; cbn [transfer_family add_balance_0d];
    unfold CV0D.add_total_enthalpy_balances, CV0D.add_total_pressure_balances;
    rewrite Hsw; cbn [transfer_variable];
    intros b' r H; rewrite (M_bind_ok self _ b b b eq_refl) in H;
    cbv beta zeta in H; revert b' r H;
    match goal with
    | |- ∀ b' r, ?m b = (b', inr r) → components b' !! ?n = Some ?c =>
        change (declares n c m b)
    end;
    solve_declares.
Qed.

Lemma transfer_declared_1d a tm b ld :
  CV1D.length_domain b = inr ld →
  transfer_flag a tm = true →
  declares (transfer_variable tm) (CVar (map k_tx (list_prod (time b) ld)) 0)
           (add_balance_1d (transfer_family tm) a) b.
Proof.
  intros Hld Hsw.
  destruct tm; cbn in Hsw; cbn [transfer_family add_balance_1d];
    unfold CV1D.add_total_enthalpy_balances, CV1D.add_total_pressure_balances;
    rewrite Hsw; cbn [transfer_variable];
    intros b' r H; rewrite (M_bind_ok self _ b b b eq_refl) in H;
    cbv beta zeta in H; pose proof (extends_refl [] b) as E.
  - walk H E. read_length_domain b ld H E Hld. cbv zeta in H.
    revert b' r H.
    match goal with
    | |- ∀ b' r, ?m ?b0 = (b', inr r) → components b' !! ?n = Some ?c =>
        change (declares n c m b0)
    end.
    solve_declares.
  - walk H E. read_length_domain b ld H E Hld. cbv zeta in H.
    revert b' r H.
    match goal with
    | |- ∀ b' r, ?m ?b0 = (b', inr r) → components b' !! ?n = Some ?c =>
        change (declares n c m b0)
    end.
    solve_declares.
  - read_length_domain b ld H E Hld. cbv zeta in H.
    revert b' r H.
    match goal with
    | |- ∀ b' r, ?m ?b0 = (b', inr r) → components b' !! ?n = Some ?c =>
        change (declares n c m b0)
    end.
    solve_declares.
Qed.

Lemma transfer_untouched v a tm b b' r :
  transfer_flag a tm = false →
  add_balance v (transfer_family tm) a b = (b', r) →
  components b' !! transfer_variable tm = components b !! transfer_variable tm.
Proof.
  intros Hsw H.
  destruct v, tm; cbn in Hsw; cbn [transfer_family transfer_variable] in *;
    revert H; unfold_balance; intros H;
    (assert (E : extends _ b b')
       by (refine ((_ : modifies _ _ b) _ _ H); solve_modifies));
    apply (ext_frame _ _ _ E);
    rewrite ?Hsw; cbn [andb];
    solve_notin.
Qed.

(** X18: the transfer variables of the energy and pressure balances follow
    the arguments of the call.  When [add_total_enthalpy_balances] (for
    [heat] and [work]) or [add_total_pressure_balances] (for [deltaP])
    returns and the term was asked for, the variable is attached with
    initial value 0 and indexed by the points of the domain alone: the time
    points in the 0-D control volume, the pairs of a time point and a point
    of the length domain in the 1-D one.  When the term was not asked for,
    the name holds what it held before the call, nothing if it held
    nothing. *)
Theorem transfer_variables_follow_switches (v : variant_) (a : balance_args)
    (tm : transfer_term) (b b' : ControlVolume) (c : component)
    (ld : list Q) :
  (v = OneD → CV1D.length_domain b = inr ld) →
  add_balance v (transfer_family tm) a b = (b', inr c) →
  components b' !! transfer_variable tm
  = if transfer_flag a tm
    then Some (CVar (domain_keys v b ld) 0)
    else components b !! transfer_variable tm.
Proof.
  intros Hld H.
  destruct (transfer_flag a tm) eqn:Hsw.
  - destruct v; cbn [add_balance domain_keys] in *.
    + exact (transfer_declared_0d a tm b Hsw _ _ H).
    + exact (transfer_declared_1d a tm b ld (Hld eq_refl) Hsw _ _ H).
  - exact (transfer_untouched v a tm b b' (inr c) Hsw H).
Qed.

Lemma transfer_variables_follow_switches_witness :
  ∃ b' c,
    add_balance OneD Pressure with_pressure_change
      (block_1d_ready false false pp_vle "BACKWARD") = (b', inr c)
    ∧ components b' !! "deltaP"
      = Some (CVar [[INum 0; INum 0]; [INum 0; INum (1 # 2)];
                    [INum 0; INum 1]] 0).
Proof.
  assert (H : ∃ b' c,
            add_balance OneD Pressure with_pressure_change
              (block_1d_ready false false pp_vle "BACKWARD") = (b', inr c)).
  { vm_compute. eexists _, _. reflexivity. }
  destruct H as (b' & c & H).
  exists b', c. split; [exact H |].
  exact (transfer_variables_follow_switches OneD with_pressure_change
           PressureChange (block_1d_ready false false pp_vle "BACKWARD")
           b' c [0%Q; (1 # 2)%Q; 1%Q] (λ _, eq_refl) H).
Defined.
